(** * PyMirBot: a verification model of the connection, correlator,
      state-projection and primitive-codec layers

    The development follows the layout of [Tools/PyMirBot/mirbot]:

    - [Codec]      : [codec.py], the 7-bit variable-length integer of
                     [BinaryReader] / [BinaryWriter];
    - [Packets]    : [packets.py], the server catalogue and
                     [parse_server_packet];
    - [Connection] : [connection.py], handler registration, the receive loop
                     and [disconnect];
    - [State]      : [state.py], the [GameState] aggregate and its reducers;
    - [Client]     : [client.py], the waiter registry behind [_wait_for] and
                     [_dispatch_waiter].

    Python integers are unbounded, so they are [Z]; a byte is a [Z] in
    [0, 256); a [dict] is a [gmap]; objects that the code mutates in place
    (futures, [ObjectInfo] records) live in an explicit store and are named
    by references. *)

From stdpp Require Import gmap list strings fin_maps pretty.
From Equations Require Import Equations.
From Equations.Prop Require Import Logic.
From Stdlib Require Import ZArith Lia.

Open Scope Z_scope.

(* ===================================================================== *)
(** * Python exceptions and outcomes                                      *)
(* ===================================================================== *)

Module Py.

(** The exception classes the modelled code raises or catches.
    [CancelledError] derives from [BaseException] (Python 3.8 and later;
    the sources use [X | None] annotations, so they need 3.10), hence an
    [except Exception] clause does not catch it. *)
Inductive exn :=
| CancelledError
| IncompleteReadError
| TimeoutError (msg : string)
| ValueError (msg : string)
| ConnectionError (msg : string)
| OtherException (name : string).

Definition is_Exception (e : exn) : bool :=
  match e with
  | CancelledError => false
  | _ => true
  end.

(** What running a piece of code ends in. *)
Inductive outcome (A : Type) :=
| Return (a : A)
| Raise (e : exn).
Arguments Return {A} a.
Arguments Raise {A} e.

(** Plain Python data (numbers, strings, lists, dicts): the values whose
    layout belongs to the packet catalogue, such as items, magics, buffs
    and character-select entries. *)
#[local] Unset Elimination Schemes.
Inductive pyval :=
| PNone
| PBool (b : bool)
| PInt (n : Z)
| PStr (s : string)
| PList (l : list pyval)
| PDict (d : list (string * pyval)).
#[local] Set Elimination Schemes.

(** [try: ... except asyncio.CancelledError: pass]. *)
Definition except_CancelledError_pass (o : outcome unit) : outcome unit :=
  match o with
  | Raise CancelledError => Return tt
  | _ => o
  end.

(** [try: ... except Exception: pass]. *)
Definition except_Exception_pass (o : outcome unit) : outcome unit :=
  match o with
  | Raise e => if is_Exception e then Return tt else Raise e
  | _ => o
  end.

(** [struct.unpack("<H", b)[0]] and [struct.unpack("<h", b)[0]] on two
    bytes: little-endian, unsigned and signed. *)
Definition unpack_H (b : list Z) : Z :=
  match b with
  | [lo; hi] => lo + 256 * hi
  | _ => 0
  end.

Definition unpack_h (b : list Z) : Z :=
  let u := unpack_H b in
  if u <? 32768 then u else u - 65536.

(** [struct.pack("<H", n)] and [struct.pack("<h", n)]; outside the
    format's range [struct.pack] raises [struct.error]. *)
Definition pack_H (n : Z) : outcome (list Z) :=
  if decide (0 <= n < 65536) then Return [n mod 256; n / 256]
  else Raise (OtherException "struct.error").

Definition pack_h (n : Z) : outcome (list Z) :=
  if decide (-32768 <= n < 32768) then pack_H (n mod 65536)
  else Raise (OtherException "struct.error").

End Py.

(* ===================================================================== *)
(** * codec.py                                                            *)
(* ===================================================================== *)

Module Codec.

(** A [bytes] value: every element is in [0, 256). *)
Definition is_byte (b : Z) : Prop := 0 <= b < 256.

(** The reader's [io.BytesIO]: the bytes not yet consumed. *)
Definition stream := list Z.

(** [BinaryReader.read_byte]: [struct.unpack("<B", self._stream.read(1))[0]].
    At end of stream [read(1)] returns [b""] and [struct.unpack] raises
    [struct.error]; that is the [None] here. *)
Definition read_byte (s : stream) : option (Z * stream) :=
  match s with
  | [] => None
  | b :: rest => Some (b, rest)
  end.

(** The body of the [while True] loop of [_read_7bit_int], with the two
    loop variables [result] and [shift] as arguments.  Every iteration
    consumes one byte, so the recursion is structural on the stream; the
    match on the stream is the call [self.read_byte()] (see
    [read_7bit_loop_read_byte]). *)
Fixpoint read_7bit_loop (s : stream) (result shift : Z) : option (Z * stream) :=
  match s with
  | [] => None
  | b :: rest =>
      let result := Z.lor result (Z.shiftl (Z.land b 0x7F) shift) in
      if Z.land b 0x80 =? 0 then Some (result, rest)
      else read_7bit_loop rest result (shift + 7)
  end.

(** [BinaryReader._read_7bit_int]. *)
Definition _read_7bit_int (s : stream) : option (Z * stream) :=
  read_7bit_loop s 0 0.

(** [BinaryWriter._encode_7bit_int]:
<<
    result = bytearray()
    while value >= 0x80:
        result.append((value & 0x7F) | 0x80)
        value >>= 7
    result.append(value & 0x7F)
>>
    The loop is not structural; it terminates because every iteration
    removes seven bits from [value]. *)
Equations? _encode_7bit_int (value : Z) : list Z
  by wf (Z.to_nat (Z.log2 value)) lt :=
  _encode_7bit_int value with Z_ge_dec value 0x80 := {
    | left _ => Z.lor (Z.land value 0x7F) 0x80 :: _encode_7bit_int (Z.shiftr value 7)
    | right _ => [Z.land value 0x7F] }.
Proof.
  rewrite Z.log2_shiftr by lia.
  assert (7 <= Z.log2 value) by (apply Z.log2_le_pow2; lia).
  lia.
Qed.

(** The value a byte sequence denotes: seven low bits per byte,
    least-significant group first. *)
Fixpoint value_of (bs : list Z) : Z :=
  match bs with
  | [] => 0
  | b :: rest => Z.lor (Z.land b 0x7F) (Z.shiftl (value_of rest) 7)
  end.

(** A well-formed encoding: continuation bytes (high bit set) followed by
    one final byte with the high bit clear. *)
Fixpoint well_formed (bs : list Z) : Prop :=
  match bs with
  | [] => False
  | [b] => 0 <= b < 0x80
  | b :: rest => 0x80 <= b < 256 /\ well_formed rest
  end.

(** The last byte of a sequence (0 for the empty one). *)
Definition last_byte (bs : list Z) : Z := List.last bs 0.

(** A minimal encoding: well formed, and without a redundant final zero
    group (only the one-byte encoding of 0 ends in a zero byte). *)
Definition minimal (bs : list Z) : Prop :=
  well_formed bs /\ (length bs = 1%nat \/ last_byte bs <> 0).

Lemma read_7bit_loop_read_byte s result shift :
  read_7bit_loop s result shift =
    match read_byte s with
    | None => None
    | Some (b, rest) =>
        let result := Z.lor result (Z.shiftl (Z.land b 0x7F) shift) in
        if Z.land b 0x80 =? 0 then Some (result, rest)
        else read_7bit_loop rest result (shift + 7)
    end.
Proof. now destruct s. Qed.

(** ** Bit-level facts about the two masks *)

Lemma testbit_0x7F n : 0 <= n -> Z.testbit 0x7F n = (n <? 7).
Proof.
  intros Hn. change 0x7F with (Z.ones 7).
  destruct (Z.ltb_spec n 7).
  - apply Z.ones_spec_low; lia.
  - apply Z.ones_spec_high; lia.
Qed.

Lemma testbit_0x80 n : 0 <= n -> Z.testbit 0x80 n = (n =? 7).
Proof.
  intros Hn. change 0x80 with (2 ^ 7).
  rewrite Z.pow2_bits_eqb by lia. apply Z.eqb_sym.
Qed.

(** Bitwise extensionality with the masks and shifts rewritten away. *)
Ltac bitwise :=
  apply Z.bits_inj'; intros ?n ?Hn;
  repeat first
    [ rewrite Z.lor_spec | rewrite Z.land_spec
    | rewrite Z.shiftl_spec by lia | rewrite Z.shiftr_spec by lia
    | rewrite testbit_0x7F by lia | rewrite testbit_0x80 by lia
    | rewrite Z.bits_0 ].

Lemma low7_split v : Z.lor (Z.land v 0x7F) (Z.shiftl (Z.shiftr v 7) 7) = v.
Proof.
  bitwise. destruct (Z.ltb_spec n 7).
  - rewrite (Z.testbit_neg_r _ (n - 7)) by lia.
    now rewrite andb_true_r, orb_false_r.
  - rewrite andb_false_r, orb_false_l, Z.shiftr_spec by lia. f_equal. lia.
Qed.

Lemma continuation_flag x : Z.land (Z.lor (Z.land x 0x7F) 0x80) 0x80 = 0x80.
Proof.
  bitwise. destruct (Z.eqb_spec n 7) as [->|].
  - now destruct (Z.testbit x 7).
  - now rewrite !andb_false_r.
Qed.

Lemma continuation_low x : Z.land (Z.lor (Z.land x 0x7F) 0x80) 0x7F = Z.land x 0x7F.
Proof.
  bitwise. destruct (Z.ltb_spec n 7).
  - replace (n =? 7) with false by (symmetry; apply Z.eqb_neq; lia).
    now rewrite orb_false_r, !andb_true_r.
  - now rewrite !andb_false_r.
Qed.

Lemma low7_small x : 0 <= x < 0x80 -> Z.land x 0x7F = x.
Proof.
  intros Hx. change 0x7F with (Z.ones 7).
  rewrite Z.land_ones by lia. apply Z.mod_small. lia.
Qed.

Lemma flag_clear x : 0 <= x < 0x80 -> Z.land x 0x80 = 0.
Proof.
  intros Hx. bitwise. destruct (Z.eqb_spec n 7) as [->|].
  - rewrite andb_true_r. apply Z.bits_above_log2; [lia|].
    destruct (Z.eq_dec x 0) as [->|]; [cbn; lia|].
    apply Z.log2_lt_pow2; lia.
  - apply andb_false_r.
Qed.

Lemma flag_set x : 0x80 <= x < 256 -> Z.land x 0x80 = 0x80.
Proof.
  intros Hx. bitwise. destruct (Z.eqb_spec n 7) as [->|].
  - rewrite andb_true_r.
    replace x with ((x - 128) + 1 * 2 ^ 7) by lia.
    rewrite Z.testbit_eqb by lia.
    rewrite Z.div_add by lia. rewrite Z.div_small by lia. reflexivity.
  - apply andb_false_r.
Qed.

Lemma flag_restore x : 0x80 <= x < 256 -> Z.lor (Z.land x 0x7F) 0x80 = x.
Proof.
  intros Hx. pose proof (flag_set x Hx) as Hf.
  rewrite <- Hf at 1. rewrite <- Z.land_lor_distr_r.
  change (Z.lor 0x7F 0x80) with (Z.ones 8).
  rewrite Z.land_ones by lia. apply Z.mod_small. lia.
Qed.

Lemma join_low a t : Z.land (Z.lor (Z.land a 0x7F) (Z.shiftl t 7)) 0x7F = Z.land a 0x7F.
Proof.
  bitwise. destruct (Z.ltb_spec n 7).
  - rewrite (Z.testbit_neg_r _ (n - 7)) by lia.
    now rewrite orb_false_r, !andb_true_r.
  - now rewrite !andb_false_r.
Qed.

Lemma join_high a t : Z.shiftr (Z.lor (Z.land a 0x7F) (Z.shiftl t 7)) 7 = t.
Proof.
  bitwise. replace (n + 7 <? 7) with false by (symmetry; apply Z.ltb_ge; lia).
  rewrite andb_false_r, orb_false_l. f_equal. lia.
Qed.

Lemma lor_disjoint x y : Z.land x y = 0 -> Z.lor x y = x + y.
Proof. intros H. pose proof (Z.add_lor_land x y). lia. Qed.

Lemma continuation_value x : Z.lor (Z.land x 0x7F) 0x80 = x mod 0x80 + 0x80.
Proof.
  rewrite lor_disjoint.
  - change 0x7F with (Z.ones 7). now rewrite Z.land_ones by lia.
  - rewrite <- Z.land_assoc. change (Z.land 0x7F 0x80) with 0. apply Z.land_0_r.
Qed.

Lemma join_value a t : Z.lor (Z.land a 0x7F) (Z.shiftl t 7) = a mod 0x80 + 0x80 * t.
Proof.
  rewrite lor_disjoint.
  - change 0x7F with (Z.ones 7).
    rewrite Z.land_ones, Z.shiftl_mul_pow2 by lia. change (2 ^ 7) with 0x80. lia.
  - bitwise. destruct (Z.ltb_spec n 7).
    + rewrite (Z.testbit_neg_r _ (n - 7)) by lia. apply andb_false_r.
    + now rewrite andb_false_r.
Qed.

(** ** The encoder's output *)

Lemma encode_unfold value :
  _encode_7bit_int value =
    if Z_ge_dec value 0x80
    then Z.lor (Z.land value 0x7F) 0x80 :: _encode_7bit_int (Z.shiftr value 7)
    else [Z.land value 0x7F].
Proof.
  rewrite _encode_7bit_int_equation_1. unfold _encode_7bit_int_clause_1.
  now destruct (Z_ge_dec value 0x80).
Qed.

(** Strong induction along the encoder's loop: the argument is split into
    its low seven bits and the rest. *)
Lemma encode_ind (P : Z -> Prop) :
  (forall v, 0 <= v < 0x80 -> P v) ->
  (forall v, 0x80 <= v -> P (Z.shiftr v 7) -> P v) ->
  forall v, 0 <= v -> P v.
Proof.
  intros Hsmall Hbig v. induction (Z.lt_wf 0 v) as [v _ IH]. intros Hv.
  destruct (Z_ge_dec v 0x80) as [Hge|Hlt].
  - apply Hbig; [lia|].
    assert (0 <= Z.shiftr v 7 < v).
    { rewrite Z.shiftr_div_pow2 by lia. split.
      - apply Z.div_pos; lia.
      - apply Z.div_lt; lia. }
    apply IH; lia.
  - apply Hsmall. lia.
Qed.

Lemma well_formed_nonempty bs : well_formed bs -> bs <> [].
Proof. now destruct bs. Qed.

Lemma well_formed_cons b bs :
  bs <> [] -> well_formed (b :: bs) <-> 0x80 <= b < 256 /\ well_formed bs.
Proof. now destruct bs. Qed.

Lemma last_byte_cons b bs : bs <> [] -> last_byte (b :: bs) = last_byte bs.
Proof. now destruct bs. Qed.

(** Every byte the encoder emits fits in a byte, the bytes form a
    well-formed sequence, and the sequence is minimal. *)
Lemma encode_minimal v : 0 <= v -> minimal (_encode_7bit_int v).
Proof.
  intros Hv. pattern v. apply encode_ind; [| |exact Hv]; clear v Hv.
  - intros v Hv. rewrite encode_unfold.
    destruct (Z_ge_dec v 0x80); [lia|].
    rewrite low7_small by lia. split; [exact Hv | now left].
  - intros v Hv [Hwf Hlast]. rewrite encode_unfold.
    destruct (Z_ge_dec v 0x80); [|lia].
    pose proof (well_formed_nonempty _ Hwf) as Hne.
    split.
    + apply well_formed_cons; [exact Hne|]. split; [|exact Hwf].
      rewrite continuation_value.
      pose proof (Z.mod_pos_bound v 0x80). lia.
    + right. rewrite last_byte_cons by exact Hne.
      destruct Hlast as [Hlen|Hnz]; [|exact Hnz].
      revert Hlen Hwf. rewrite (encode_unfold (Z.shiftr v 7)).
      assert (0 < Z.shiftr v 7).
      { rewrite Z.shiftr_div_pow2 by lia. apply Z.div_str_pos. lia. }
      destruct (Z_ge_dec (Z.shiftr v 7) 0x80); cbn.
      * intros [=Hlen] _. apply length_zero_iff_nil in Hlen.
        revert Hlen. rewrite encode_unfold.
        now destruct (Z_ge_dec _ _).
      * intros _ Hb. rewrite low7_small by lia. unfold last_byte. cbn. lia.
Qed.

Lemma value_of_encode v : 0 <= v -> value_of (_encode_7bit_int v) = v.
Proof.
  intros Hv. pattern v. apply encode_ind; [| |exact Hv]; clear v Hv.
  - intros v Hv. rewrite encode_unfold.
    destruct (Z_ge_dec v 0x80); [lia|]. cbn [value_of].
    rewrite Z.shiftl_0_l, Z.lor_0_r. rewrite !(low7_small v); lia.
  - intros v Hv IH. rewrite encode_unfold.
    destruct (Z_ge_dec v 0x80); [|lia]. cbn [value_of].
    rewrite IH, continuation_low. apply low7_split.
Qed.

(** ** The decoder on well-formed input *)

Lemma read_loop_well_formed bs rest r s :
  well_formed bs -> 0 <= s ->
  read_7bit_loop (bs ++ rest) r s
  = Some (Z.lor r (Z.shiftl (value_of bs) s), rest).
Proof.
  revert r s. induction bs as [|b bs IH]; intros r s Hwf Hs; [easy|].
  destruct bs as [|b' bs].
  - cbn in Hwf. cbn [app read_7bit_loop value_of].
    rewrite flag_clear by lia. cbn [Z.eqb].
    now rewrite Z.shiftl_0_l, Z.lor_0_r.
  - destruct Hwf as [Hb Hwf]. remember (b' :: bs) as tl eqn:Htl.
    change ((b :: tl) ++ rest) with (b :: (tl ++ rest)).
    cbn [read_7bit_loop value_of]. rewrite flag_set by lia. cbn [Z.eqb].
    rewrite IH by (auto; lia).
    rewrite Z.shiftl_lor, Z.shiftl_shiftl by lia.
    rewrite Z.lor_assoc. do 4 f_equal. lia.
Qed.

Lemma value_of_nonneg bs : well_formed bs -> 0 <= value_of bs.
Proof.
  induction bs as [|b bs IH]; [easy|]. intros Hwf. cbn [value_of].
  rewrite join_value. pose proof (Z.mod_pos_bound b 0x80).
  destruct bs as [|b' bs]; [cbn; lia|].
  destruct Hwf as [_ Hwf]. specialize (IH Hwf). lia.
Qed.

Lemma value_of_pos bs : well_formed bs -> last_byte bs <> 0 -> 0 < value_of bs.
Proof.
  induction bs as [|b bs IH]; [easy|]. intros Hwf Hlast. cbn [value_of].
  rewrite join_value. pose proof (Z.mod_pos_bound b 0x80).
  destruct bs as [|b' bs].
  - cbn in Hwf. unfold last_byte in Hlast. cbn in Hlast.
    rewrite Z.mod_small by lia. cbn [value_of]. lia.
  - destruct Hwf as [_ Hwf]. rewrite last_byte_cons in Hlast by easy.
    specialize (IH Hwf Hlast). lia.
Qed.

(** Re-encoding the value of a sequence whose last byte is not zero. *)
Lemma encode_value_of_pos bs :
  well_formed bs -> last_byte bs <> 0 -> _encode_7bit_int (value_of bs) = bs.
Proof.
  induction bs as [|b bs IH]; [easy|]. intros Hwf Hlast.
  rewrite encode_unfold. cbn [value_of].
  destruct bs as [|b' bs].
  - cbn in Hwf. cbn [value_of]. rewrite Z.shiftl_0_l, Z.lor_0_r.
    rewrite !(low7_small b) by lia.
    destruct (Z_ge_dec b 0x80); [lia|]. reflexivity.
  - destruct Hwf as [Hb Hwf]. rewrite last_byte_cons in Hlast by easy.
    pose proof (value_of_pos _ Hwf Hlast) as Hpos.
    destruct (Z_ge_dec _ _) as [_|Hlt].
    + rewrite join_low, join_high, flag_restore by lia.
      now rewrite IH.
    + exfalso. apply Hlt. rewrite join_value.
      pose proof (Z.mod_pos_bound b 0x80). lia.
Qed.

Lemma encode_value_of bs : minimal bs -> _encode_7bit_int (value_of bs) = bs.
Proof.
  intros [Hwf [Hlen|Hlast]]; [|now apply encode_value_of_pos].
  destruct bs as [|b [|b' bs]]; try easy.
  cbn in Hwf. cbn [value_of]. rewrite Z.shiftl_0_l, Z.lor_0_r.
  rewrite encode_unfold, !(low7_small b) by lia.
  destruct (Z_ge_dec b 0x80); [lia|]. reflexivity.
Qed.

Lemma well_formed_bytes bs : well_formed bs -> Forall is_byte bs.
Proof.
  induction bs as [|b bs IH]; [easy|]. intros Hwf.
  destruct bs as [|b' bs].
  - cbn in Hwf. constructor; [unfold is_byte; lia | constructor].
  - destruct Hwf as [Hb Hwf]. constructor; [unfold is_byte; lia | auto].
Qed.

(** [bytearray.append] accepts every value the encoder produces. *)
Lemma encode_bytes v : 0 <= v -> Forall is_byte (_encode_7bit_int v).
Proof. intros Hv. apply well_formed_bytes, encode_minimal, Hv. Qed.

(** The decoder accepts every well-formed sequence, consumes exactly it,
    and returns the value it denotes. *)
Lemma read_well_formed bs rest :
  well_formed bs -> _read_7bit_int (bs ++ rest) = Some (value_of bs, rest).
Proof.
  intros Hwf. unfold _read_7bit_int.
  rewrite read_loop_well_formed by (auto; lia).
  now rewrite Z.shiftl_0_r, Z.lor_0_l.
Qed.

(** ** Round trips *)

(** C9 (as amended).  Decoding the encoder's output gives the integer
    back, for every [n >= 0] (Python integers have no upper bound) and
    whatever follows in the stream.  In the other direction every
    well-formed byte sequence (continuation bytes with the high bit set,
    then a final byte with the high bit clear) is accepted by the decoder,
    and re-encoding the decoded value gives the same bytes exactly when the
    sequence is minimal, that is, when it does not end in a redundant zero
    group. *)
Theorem seven_bit_round_trip :
  (forall n rest, 0 <= n ->
     _read_7bit_int (_encode_7bit_int n ++ rest) = Some (n, rest)) /\
  (forall bs rest, well_formed bs ->
     exists v, _read_7bit_int (bs ++ rest) = Some (v, rest) /\
               (_encode_7bit_int v = bs <-> minimal bs)).
Proof.
  split.
  - intros n rest Hn.
    rewrite read_well_formed by (apply encode_minimal, Hn).
    now rewrite value_of_encode.
  - intros bs rest Hwf. exists (value_of bs).
    split; [now apply read_well_formed|]. split.
    + intros Henc. rewrite <- Henc.
      apply encode_minimal, value_of_nonneg, Hwf.
    + apply encode_value_of.
Qed.

(** The round trip on the values the specification lists, and on a
    minimal two-byte sequence. *)
Lemma seven_bit_round_trip_witness :
  _read_7bit_int (_encode_7bit_int (2 ^ 32 - 1) ++ [0x41]) = Some (2 ^ 32 - 1, [0x41]) /\
  exists v, _read_7bit_int ([0xAC; 0x02] ++ [0x41]) = Some (v, [0x41]) /\
            (_encode_7bit_int v = [0xAC; 0x02] <-> minimal [0xAC; 0x02]).
Proof.
  split.
  - apply (proj1 seven_bit_round_trip). lia.
  - apply (proj2 seven_bit_round_trip). cbn. lia.
Defined.

(** C9 (as stated) fails for a well-formed sequence that is not minimal:
    [80 00] has a continuation byte carrying seven zero bits and a final
    zero byte; the decoder reads it as 0, and 0 is encoded as [00]. *)
Lemma seven_bit_reencode_counterexample :
  well_formed [0x80; 0x00] /\
  Forall is_byte [0x80; 0x00] /\
  _read_7bit_int [0x80; 0x00] = Some (0, []) /\
  _encode_7bit_int 0 = [0x00] /\
  _encode_7bit_int 0 <> [0x80; 0x00].
Proof.
  assert (Henc : _encode_7bit_int 0 = [0x00]).
  { rewrite encode_unfold. now destruct (Z_ge_dec 0 0x80). }
  split; [cbn; lia|].
  split; [repeat constructor; unfold is_byte; lia|].
  split; [reflexivity|].
  split; [exact Henc|].
  rewrite Henc. discriminate.
Qed.

Example encode_0 : _encode_7bit_int 0 = [0x00].
Proof. reflexivity. Qed.
Example encode_127 : _encode_7bit_int 127 = [0x7F].
Proof. reflexivity. Qed.
Example encode_128 : _encode_7bit_int 128 = [0x80; 0x01].
Proof. reflexivity. Qed.
Example encode_16384 : _encode_7bit_int 16384 = [0x80; 0x80; 0x01].
Proof. reflexivity. Qed.
Example encode_max32 : _encode_7bit_int (2 ^ 32 - 1) = [0xFF; 0xFF; 0xFF; 0xFF; 0x0F].
Proof. reflexivity. Qed.
Example read_300 : _read_7bit_int [0xAC; 0x02; 0x41] = Some (300, [0x41]).
Proof. reflexivity. Qed.
Example read_truncated : _read_7bit_int [0xAC] = None.
Proof. reflexivity. Qed.

End Codec.

(* ===================================================================== *)
(** * packets.py                                                          *)
(* ===================================================================== *)

Module Packets.
Import Py.

(** The framing of [Packet.to_bytes], for a packet of kind [packet_id]
    whose (already compressed, where it applies) payload is [payload]:
<<
    total_len = 2 + 2 + len(payload)
    header = struct.pack("<Hh", total_len, self.packet_id)
    return header + payload
>> *)
Definition to_bytes (packet_id : Z) (payload : list Z) : outcome (list Z) :=
  let total_len := 2 + 2 + Z.of_nat (length payload) in
  match pack_H total_len, pack_h packet_id with
  | Return l, Return k => Return (l ++ k ++ payload)
  | Raise e, _ => Raise e
  | _, Raise e => Raise e
  end.

Section Catalogue.

(** The decoded messages.  The field layouts of the individual kinds are
    not needed at this level; the reducers of [state.py] get their packet
    records in [State]. *)
Variable Packet : Type.

(** A registered packet class: its [compressed] class attribute and its
    [read_packet], which raises when the payload does not have the layout
    it expects (for instance [struct.error] from a short read). *)
Record packet_class := {
  compressed : bool;
  read_packet : list Z -> outcome Packet
}.

(** [gzip.decompress], of the Python standard library. *)
Variable gzip_decompress : list Z -> outcome (list Z).

(** [_SERVER_PACKETS], filled by the [@_register_server] decorators. *)
Variable _SERVER_PACKETS : gmap Z packet_class.

(** [parse_server_packet]:
<<
    cls = _SERVER_PACKETS.get(packet_id)
    if cls is None:
        return None
    pkt = cls()
    if pkt.compressed:
        data = gzip.decompress(data)
    pkt.read_packet(BinaryReader(data))
    return pkt
>> *)
Definition parse_server_packet (packet_id : Z) (data : list Z)
  : outcome (option Packet) :=
  match _SERVER_PACKETS !! packet_id with
  | None => Return None
  | Some cls =>
      let data' := if compressed cls then gzip_decompress data else Return data in
      match data' with
      | Raise e => Raise e
      | Return data =>
          match read_packet cls data with
          | Raise e => Raise e
          | Return pkt => Return (Some pkt)
          end
      end
  end.

Lemma parse_unknown packet_id data :
  _SERVER_PACKETS !! packet_id = None ->
  parse_server_packet packet_id data = Return None.
Proof. intros H. unfold parse_server_packet. now rewrite H. Qed.

Lemma parse_none_iff packet_id data :
  parse_server_packet packet_id data = Return None <->
  _SERVER_PACKETS !! packet_id = None.
Proof.
  split; [|apply parse_unknown].
  unfold parse_server_packet.
  destruct (_SERVER_PACKETS !! packet_id) as [cls|]; [|reflexivity].
  destruct (compressed cls); [destruct (gzip_decompress data)|];
    try destruct (read_packet cls _); discriminate.
Qed.

End Catalogue.

Arguments compressed {Packet} _.
Arguments read_packet {Packet} _ _.

End Packets.

(* ===================================================================== *)
(** * connection.py                                                       *)
(* ===================================================================== *)

Module Connection.
Import Py.

(** An [asyncio.Task] as the connection sees it: still suspended at one of
    its [await]s, returned, or ended by [CancelledError]. *)
Inductive task_state := Pending | Finished | Cancelled.

(** What the module writes to its logger. *)
Inductive log_entry :=
| Warning_invalid_length (total_length : Z)
| Warning_parse_failed (packet_id : Z)
| Debug_unknown (packet_id : Z) (payload_length : nat)
| Debug_received (packet_id : Z)
| Error_default_handler
| Error_handler (packet_id : Z)
| Info_closed_by_server
| Error_receive_loop
| Info_disconnected.

(** [StreamReader.readexactly(n)] on a peer that sends [input] and then
    closes: the next [n] bytes, or [IncompleteReadError] at end of
    stream. *)
Definition readexactly (n : nat) (input : list Z) : outcome (list Z * list Z) :=
  if decide (n <= length input)%nat
  then Return (take n input, drop n input)
  else Raise IncompleteReadError.

Section Conn.

Variable Packet : Type.

(** Everything the registered callbacks read and write (for [MirClient]:
    the [GameState] and the waiter registry). *)
Variable W : Type.

(** A registered callback.  It may have changed the world before it
    raises. *)
Definition Callable := Packet -> W -> W * outcome unit.

Record MirConnection := {
  _reader : bool;
  _writer : bool;
  _handlers : gmap Z (list Callable);
  _default_handler : option Callable;
  _receive_task : option task_state;
  _keepalive_task : option task_state;
  _connected : bool;
  _disconnect_event : bool
}.

(** [MirConnection.__init__]. *)
Definition init : MirConnection := {|
  _reader := false;
  _writer := false;
  _handlers := ∅;
  _default_handler := None;
  _receive_task := None;
  _keepalive_task := None;
  _connected := false;
  _disconnect_event := false
|}.

Definition set_handlers (hs : gmap Z (list Callable)) (c : MirConnection) :=
  {| _reader := _reader c; _writer := _writer c; _handlers := hs;
     _default_handler := _default_handler c;
     _receive_task := _receive_task c; _keepalive_task := _keepalive_task c;
     _connected := _connected c; _disconnect_event := _disconnect_event c |}.

Definition set_default_handler (h : option Callable) (c : MirConnection) :=
  {| _reader := _reader c; _writer := _writer c; _handlers := _handlers c;
     _default_handler := h;
     _receive_task := _receive_task c; _keepalive_task := _keepalive_task c;
     _connected := _connected c; _disconnect_event := _disconnect_event c |}.

Definition set_receive_task (t : option task_state) (c : MirConnection) :=
  {| _reader := _reader c; _writer := _writer c; _handlers := _handlers c;
     _default_handler := _default_handler c;
     _receive_task := t; _keepalive_task := _keepalive_task c;
     _connected := _connected c; _disconnect_event := _disconnect_event c |}.

Definition set_keepalive_task (t : option task_state) (c : MirConnection) :=
  {| _reader := _reader c; _writer := _writer c; _handlers := _handlers c;
     _default_handler := _default_handler c;
     _receive_task := _receive_task c; _keepalive_task := t;
     _connected := _connected c; _disconnect_event := _disconnect_event c |}.

Definition set_streams (r w : bool) (c : MirConnection) :=
  {| _reader := r; _writer := w; _handlers := _handlers c;
     _default_handler := _default_handler c;
     _receive_task := _receive_task c; _keepalive_task := _keepalive_task c;
     _connected := _connected c; _disconnect_event := _disconnect_event c |}.

(** [self._connected = False; self._disconnect_event.set()], the first two
    statements of [disconnect] and the [finally] block of
    [_receive_loop]. *)
Definition mark_disconnected (c : MirConnection) :=
  {| _reader := _reader c; _writer := _writer c; _handlers := _handlers c;
     _default_handler := _default_handler c;
     _receive_task := _receive_task c; _keepalive_task := _keepalive_task c;
     _connected := false; _disconnect_event := true |}.

(** [connect], once [asyncio.open_connection] has returned the streams. *)
Definition connect (c : MirConnection) : MirConnection :=
  {| _reader := true; _writer := true; _handlers := _handlers c;
     _default_handler := _default_handler c;
     _receive_task := Some Pending; _keepalive_task := Some Pending;
     _connected := true; _disconnect_event := false |}.

(** The [connected] property. *)
Definition connected (c : MirConnection) : bool := _connected c.

(** [wait_disconnect]: [await self._disconnect_event.wait()] returns at
    once when the event is set and suspends the caller otherwise. *)
Definition wait_disconnect_returns_immediately (c : MirConnection) : bool :=
  _disconnect_event c.

(** [on_packet]: [self._handlers.setdefault(packet_id, []).append(callback)]. *)
Definition on_packet (packet_id : Z) (callback : Callable) (c : MirConnection) :=
  set_handlers
    (<[packet_id := default [] (_handlers c !! packet_id) ++ [callback]]> (_handlers c)) c.

(** [on_any_packet]: [self._default_handler = callback]. *)
Definition on_any_packet (callback : Callable) (c : MirConnection) :=
  set_default_handler (Some callback) c.

(** ** Dispatch to the registered callbacks *)

(** One callback under its [try ... except Exception as e: log.error(...)]:
    the new world, what was logged, and the exception that got past the
    [except] clause, if any. *)
Definition guarded (h : Callable) (pkt : Packet) (w : W) (on_error : log_entry)
  : W * list log_entry * option exn :=
  match h pkt w with
  | (w', Return _) => (w', [], None)
  | (w', Raise e) =>
      if is_Exception e then (w', [on_error], None) else (w', [], Some e)
  end.

(** [for handler in self._handlers.get(packet_id, []): ...]. *)
Fixpoint run_handlers (hs : list Callable) (packet_id : Z) (pkt : Packet) (w : W)
  : W * list log_entry * option exn :=
  match hs with
  | [] => (w, [], None)
  | h :: hs =>
      match guarded h pkt w (Error_handler packet_id) with
      | (w1, l1, Some e) => (w1, l1, Some e)
      | (w1, l1, None) =>
          match run_handlers hs packet_id pkt w1 with
          | (w2, l2, x) => (w2, l1 ++ l2, x)
          end
      end
  end.

(** The "Dispatch to handlers" part of the loop body: the any-packet
    callback, if one is set, then the callbacks of the packet's kind. *)
Definition dispatch (c : MirConnection) (packet_id : Z) (pkt : Packet) (w : W)
  : W * list log_entry * option exn :=
  let first :=
    match _default_handler c with
    | Some h => guarded h pkt w Error_default_handler
    | None => (w, [], None)
    end in
  match first with
  | (w1, l1, Some e) => (w1, l1, Some e)
  | (w1, l1, None) =>
      match run_handlers (default [] (_handlers c !! packet_id)) packet_id pkt w1 with
      | (w2, l2, x) => (w2, l1 ++ l2, x)
      end
  end.

(** ** The receive loop *)

Variable gzip_decompress : list Z -> outcome (list Z).
Variable _SERVER_PACKETS : gmap Z (Packets.packet_class Packet).

Definition parse_server_packet :=
  Packets.parse_server_packet Packet gzip_decompress _SERVER_PACKETS.

(** How one pass through the body of [while self._connected and
    self._reader:] ends: at the next evaluation of the loop condition
    (after a [continue] or at the end of the body), or with an exception
    that leaves the loop. *)
Inductive iteration :=
| Next (input : list Z) (w : W) (log : list log_entry)
| Leave (e : exn) (w : W) (log : list log_entry).

Definition receive_iteration (c : MirConnection) (input : list Z) (w : W)
  : iteration :=
  match readexactly 2 input with
  | Raise e => Leave e w []
  | Return (header, input) =>
      let total_length := unpack_H header in
      if total_length <? 4 then
        Next input w [Warning_invalid_length total_length]
      else
        let remaining := total_length - 2 in
        match readexactly (Z.to_nat remaining) input with
        | Raise e => Leave e w []
        | Return (body, input) =>
            let packet_id := unpack_h (take 2 body) in
            let payload := drop 2 body in
            match parse_server_packet packet_id payload with
            | Raise e =>
                if is_Exception e
                then Next input w [Warning_parse_failed packet_id]
                else Leave e w []
            | Return None =>
                Next input w [Debug_unknown packet_id (length payload)]
            | Return (Some pkt) =>
                match dispatch c packet_id pkt w with
                | (w', l, None) => Next input w' (Debug_received packet_id :: l)
                | (w', l, Some e) => Leave e w' (Debug_received packet_id :: l)
                end
            end
        end
  end.

Lemma readexactly_Return n input chunk rest :
  readexactly n input = Return (chunk, rest) ->
  chunk = take n input /\ rest = drop n input /\ (n <= length input)%nat.
Proof.
  unfold readexactly. case_decide; [|discriminate].
  intros [= <- <-]. auto.
Qed.

(** Every pass that continues has consumed at least the two header
    bytes. *)
Lemma receive_iteration_consumes c input w input' w' l :
  receive_iteration c input w = Next input' w' l ->
  (length input' + 2 <= length input)%nat.
Proof.
  unfold receive_iteration.
  destruct (readexactly 2 input) as [[header input1]|e] eqn:H1; [|discriminate].
  apply readexactly_Return in H1 as (_ & -> & Hlen).
  assert (Hdrop : forall k, (length (drop k (drop 2 input)) + 2 <= length input)%nat).
  { intros k. rewrite !length_drop. lia. }
  destruct (unpack_H header <? 4).
  { intros [= <- _ _]. apply (Hdrop 0%nat). }
  destruct (readexactly _ (drop 2 input)) as [[body input2]|e] eqn:H2; [|discriminate].
  apply readexactly_Return in H2 as (_ & -> & _).
  destruct (parse_server_packet _ _) as [[pkt|]|e].
  - destruct (dispatch _ _ _ _) as [[w1 l1] [e|]]; [discriminate|].
    intros [= <- _ _]. apply Hdrop.
  - intros [= <- _ _]. apply Hdrop.
  - destruct (is_Exception e); [|discriminate].
    intros [= <- _ _]. apply Hdrop.
Qed.

(** The [while] loop, on a connection whose loop condition holds: it runs
    until an exception leaves it.  On a peer that sends finitely many bytes
    and closes, that is at the latest the [IncompleteReadError] of the
    first read past the end. *)
Equations? receive_while (c : MirConnection) (input : list Z) (w : W)
  (log : list log_entry) : exn * W * list log_entry
  by wf (length input) lt :=
  receive_while c input w log with inspect (receive_iteration c input w) := {
    | exist _ (Next input' w' l) Heq => receive_while c input' w' (log ++ l)
    | exist _ (Leave e w' l) Heq => (e, w', log ++ l) }.
Proof.
  apply receive_iteration_consumes in Heq. lia.
Qed.

(** [_receive_loop], run as the connection's receive task: the loop, the
    three [except] clauses and the [finally] block.  The result is the
    connection afterwards (with the state the task ended in), the world
    and the log. *)
Definition _receive_loop (c : MirConnection) (input : list Z) (w : W)
  : MirConnection * W * list log_entry :=
  if _connected c && _reader c then
    match receive_while c input w [] with
    | (IncompleteReadError, w', l) =>
        (set_receive_task (Some Finished) (mark_disconnected c), w',
         l ++ [Info_closed_by_server])
    | (CancelledError, w', l) =>
        (set_receive_task (Some Cancelled) (mark_disconnected c), w', l)
    | (_, w', l) =>
        (set_receive_task (Some Finished) (mark_disconnected c), w',
         l ++ [Error_receive_loop])
    end
  else (set_receive_task (Some Finished) (mark_disconnected c), w, []).

(** ** disconnect *)

(** [task.cancel()] followed by [await task], as [disconnect] does for the
    two background tasks.  Both loops re-raise [CancelledError]
    ([except asyncio.CancelledError: raise]) and swallow every other
    [Exception], so a task that is still suspended ends cancelled, and the
    [await] raises [CancelledError]; a task that has returned makes
    [cancel()] a no-op and the [await] return at once; a task that was
    cancelled before raises [CancelledError] again. *)
Definition cancel_and_await (t : task_state) : task_state * outcome unit :=
  match t with
  | Pending => (Cancelled, Raise CancelledError)
  | Finished => (Finished, Return tt)
  | Cancelled => (Cancelled, Raise CancelledError)
  end.

(** [disconnect]:
<<
    self._connected = False
    self._disconnect_event.set()
    if self._keepalive_task:
        self._keepalive_task.cancel()
        try: await self._keepalive_task
        except asyncio.CancelledError: pass
    if self._receive_task:
        (the same)
    if self._writer:
        self._writer.close()
        try: await self._writer.wait_closed()
        except Exception: pass
    self._reader = None
    self._writer = None
    log.info("Disconnected")
>>
    [wait_closed] is how [StreamWriter.wait_closed] ends, should it be
    called.  The result is the connection afterwards, how the call ends,
    and what it logged. *)
Definition disconnect (wait_closed : outcome unit) (c : MirConnection)
  : MirConnection * outcome unit * list log_entry :=
  let c := mark_disconnected c in
  let '(c, o) :=
    match _keepalive_task c with
    | Some t =>
        let '(t', o) := cancel_and_await t in
        (set_keepalive_task (Some t') c, except_CancelledError_pass o)
    | None => (c, Return tt)
    end in
  match o with
  | Raise e => (c, Raise e, [])
  | Return _ =>
      let '(c, o) :=
        match _receive_task c with
        | Some t =>
            let '(t', o) := cancel_and_await t in
            (set_receive_task (Some t') c, except_CancelledError_pass o)
        | None => (c, Return tt)
        end in
      match o with
      | Raise e => (c, Raise e, [])
      | Return _ =>
          let o := if _writer c then except_Exception_pass wait_closed
                   else Return tt in
          match o with
          | Raise e => (c, Raise e, [])
          | Return _ => (set_streams false false c, Return tt, [Info_disconnected])
          end
      end
  end.

(** ** Facts about framing *)

Lemma unpack_pack_H n b : pack_H n = Return b -> unpack_H b = n /\ length b = 2%nat.
Proof.
  unfold pack_H. case_decide; [|discriminate]. intros [= <-].
  split; [|reflexivity]. cbn. pose proof (Z.div_mod n 256). lia.
Qed.

Lemma unpack_pack_h n b : pack_h n = Return b -> unpack_h b = n /\ length b = 2%nat.
Proof.
  unfold pack_h. case_decide as Hn; [|discriminate]. intros Hb.
  apply unpack_pack_H in Hb as [Hu Hlen]. split; [|exact Hlen].
  unfold unpack_h. rewrite Hu.
  destruct (Z.ltb_spec (n mod 65536) 32768) as [Hlt|Hge].
  - destruct (Z_lt_dec n 0).
    + rewrite <- (Z.mod_add n 1 65536), Z.mod_small in Hlt by lia. lia.
    + apply Z.mod_small. lia.
  - destruct (Z_lt_dec n 0).
    + rewrite <- (Z.mod_add n 1 65536), Z.mod_small by lia. lia.
    + rewrite Z.mod_small in Hge by lia. lia.
Qed.

Lemma to_bytes_Return packet_id payload bs :
  Packets.to_bytes packet_id payload = Return bs ->
  exists l k, bs = l ++ k ++ payload /\
    length l = 2%nat /\ length k = 2%nat /\
    unpack_H l = 4 + Z.of_nat (length payload) /\ unpack_h k = packet_id.
Proof.
  unfold Packets.to_bytes.
  destruct (pack_H _) as [l|] eqn:Hl; [|discriminate].
  destruct (pack_h _) as [k|] eqn:Hk; [|discriminate].
  intros [= <-]. exists l, k.
  apply unpack_pack_H in Hl as [Hl1 Hl2]. apply unpack_pack_h in Hk as [Hk1 Hk2].
  repeat split; auto.
Qed.

Lemma readexactly_app chunk rest :
  readexactly (length chunk) (chunk ++ rest) = Return (chunk, rest).
Proof.
  unfold readexactly. rewrite length_app.
  case_decide; [|lia]. now rewrite take_app_length, drop_app_length.
Qed.

(** On a complete frame the loop body reads exactly the frame and goes on
    with what the catalogue makes of it. *)
Lemma receive_iteration_frame c packet_id payload bs rest w :
  Packets.to_bytes packet_id payload = Return bs ->
  receive_iteration c (bs ++ rest) w =
    match parse_server_packet packet_id payload with
    | Raise e =>
        if is_Exception e
        then Next rest w [Warning_parse_failed packet_id]
        else Leave e w []
    | Return None => Next rest w [Debug_unknown packet_id (length payload)]
    | Return (Some pkt) =>
        match dispatch c packet_id pkt w with
        | (w', l, None) => Next rest w' (Debug_received packet_id :: l)
        | (w', l, Some e) => Leave e w' (Debug_received packet_id :: l)
        end
    end.
Proof.
  intros Hbs. apply to_bytes_Return in Hbs as (l & k & -> & Hl & Hk & Htot & Hid).
  unfold receive_iteration.
  rewrite <- Hl at 1. rewrite <- app_assoc, readexactly_app.
  rewrite Htot. destruct (Z.ltb_spec (4 + Z.of_nat (length payload)) 4); [lia|].
  replace (Z.to_nat (4 + Z.of_nat (length payload) - 2))
    with (length (k ++ payload)) by (rewrite length_app; lia).
  rewrite readexactly_app.
  rewrite !(take_app_length' k payload 2 (eq_sym Hk)).
  rewrite (drop_app_length' k payload 2 (eq_sym Hk)), Hid.
  reflexivity.
Qed.

Lemma receive_while_clause c input w log it
  (Heq : receive_iteration c input w = it) :
  receive_while_unfold_clause_1 c input w (exist _ it Heq) log =
    match it with
    | Next input' w' l => receive_while c input' w' (log ++ l)
    | Leave e w' l => (e, w', log ++ l)
    end.
Proof. now destruct it. Qed.

Lemma receive_while_step c input w log :
  receive_while c input w log =
    match receive_iteration c input w with
    | Next input' w' l => receive_while c input' w' (log ++ l)
    | Leave e w' l => (e, w', log ++ l)
    end.
Proof.
  rewrite receive_while_equation_1. unfold inspect.
  apply receive_while_clause.
Qed.

(** ** Frame-level error recovery *)

(** C7.  Inside the receive loop
    - a header that declares a total length below 4 is logged
      ([Warning_invalid_length]) and skipped: the loop goes on with the
      bytes right after the two header bytes, the world untouched;
    - a complete frame whose payload the catalogue fails to decode (with
      any [Exception]) is logged ([Warning_parse_failed]) and dropped, and
      the loop goes on with the bytes after the frame;
    - a complete frame whose kind is not in the catalogue makes
      [parse_server_packet] return [None]; it is logged at debug level
      ([Debug_unknown]) and dropped, and the loop goes on likewise.
    In none of the three cases does the pass leave the loop, so the
    [finally] block that marks the connection disconnected is not
    reached because of them. *)
Theorem receive_loop_frame_recovery c w log rest :
  (forall lo hi, unpack_H [lo; hi] < 4 ->
     receive_iteration c (lo :: hi :: rest) w
       = Next rest w [Warning_invalid_length (unpack_H [lo; hi])] /\
     receive_while c (lo :: hi :: rest) w log
       = receive_while c rest w (log ++ [Warning_invalid_length (unpack_H [lo; hi])])) /\
  (forall packet_id payload frame e,
     Packets.to_bytes packet_id payload = Return frame ->
     parse_server_packet packet_id payload = Raise e ->
     is_Exception e = true ->
     receive_iteration c (frame ++ rest) w
       = Next rest w [Warning_parse_failed packet_id] /\
     receive_while c (frame ++ rest) w log
       = receive_while c rest w (log ++ [Warning_parse_failed packet_id])) /\
  (forall packet_id payload frame,
     Packets.to_bytes packet_id payload = Return frame ->
     _SERVER_PACKETS !! packet_id = None ->
     parse_server_packet packet_id payload = Return None /\
     receive_iteration c (frame ++ rest) w
       = Next rest w [Debug_unknown packet_id (length payload)] /\
     receive_while c (frame ++ rest) w log
       = receive_while c rest w (log ++ [Debug_unknown packet_id (length payload)])).
Proof.
  split; [|split].
  - intros lo hi Hlen.
    assert (Hit : receive_iteration c (lo :: hi :: rest) w
                  = Next rest w [Warning_invalid_length (unpack_H [lo; hi])]).
    { unfold receive_iteration.
      change (readexactly 2 (lo :: hi :: rest))
        with (readexactly (length [lo; hi]) ([lo; hi] ++ rest)).
      rewrite readexactly_app.
      now destruct (Z.ltb_spec (unpack_H [lo; hi]) 4); [|lia]. }
    split; [exact Hit|]. now rewrite receive_while_step, Hit.
  - intros packet_id payload frame e Hframe Hparse He.
    assert (Hit : receive_iteration c (frame ++ rest) w
                  = Next rest w [Warning_parse_failed packet_id]).
    { now rewrite (receive_iteration_frame _ _ _ _ _ _ Hframe), Hparse, He. }
    split; [exact Hit|]. now rewrite receive_while_step, Hit.
  - intros packet_id payload frame Hframe Hnone.
    assert (Hparse : parse_server_packet packet_id payload = Return None)
      by now apply Packets.parse_unknown.
    assert (Hit : receive_iteration c (frame ++ rest) w
                  = Next rest w [Debug_unknown packet_id (length payload)]).
    { now rewrite (receive_iteration_frame _ _ _ _ _ _ Hframe), Hparse. }
    split; [exact Hparse|]. split; [exact Hit|].
    now rewrite receive_while_step, Hit.
Qed.

(** ** The any-packet callback *)

Lemma on_any_packet_overwrites h1 h2 c :
  on_any_packet h2 (on_any_packet h1 c) = on_any_packet h2 c.
Proof. reflexivity. Qed.

(** C4 (as amended).  The connection has one any-packet slot, and
    [on_any_packet] overwrites it.  After two registrations in sequence
    the connection is the one that only ever saw the second; for every
    inbound frame that decodes to a message the loop body calls the
    callback registered last, exactly once and before the callbacks of the
    message's kind (these in registration order), and the callback
    registered first is not called at all. *)
Theorem any_packet_last_registration_wins c h1 h2 packet_id payload frame pkt rest w :
  Packets.to_bytes packet_id payload = Return frame ->
  parse_server_packet packet_id payload = Return (Some pkt) ->
  _default_handler (on_any_packet h2 (on_any_packet h1 c)) = Some h2 /\
  receive_iteration (on_any_packet h2 (on_any_packet h1 c)) (frame ++ rest) w =
    match guarded h2 pkt w Error_default_handler with
    | (w1, l1, Some e) => Leave e w1 (Debug_received packet_id :: l1)
    | (w1, l1, None) =>
        match run_handlers (default [] (_handlers c !! packet_id)) packet_id pkt w1 with
        | (w2, l2, None) => Next rest w2 (Debug_received packet_id :: l1 ++ l2)
        | (w2, l2, Some e) => Leave e w2 (Debug_received packet_id :: l1 ++ l2)
        end
    end.
Proof.
  intros Hframe Hparse. split; [reflexivity|].
  rewrite (receive_iteration_frame _ _ _ _ _ _ Hframe), Hparse.
  unfold dispatch. cbn [on_any_packet set_default_handler _default_handler _handlers].
  destruct (guarded h2 pkt w Error_default_handler) as [[w1 l1] [e|]]; [reflexivity|].
  destruct (run_handlers _ _ _ _) as [[w2 l2] [e|]]; reflexivity.
Qed.

(** Callbacks of one kind, by contrast, accumulate in registration
    order. *)
Lemma on_packet_appends packet_id h c :
  _handlers (on_packet packet_id h c) !! packet_id
  = Some (default [] (_handlers c !! packet_id) ++ [h]).
Proof. unfold on_packet. cbn. apply lookup_insert_eq. Qed.

(** ** disconnect never raises *)

Lemma except_Exception_pass_Return (o : outcome unit) :
  o <> Raise CancelledError -> except_Exception_pass o = Return tt.
Proof.
  destruct o as [[]|e]; [reflexivity|].
  destruct e; cbn; congruence.
Qed.

Lemma disconnect_returns wait_closed c :
  wait_closed <> Raise CancelledError ->
  exists c', disconnect wait_closed c = (c', Return tt, [Info_disconnected]) /\
    _connected c' = false /\ _disconnect_event c' = true /\
    _reader c' = false /\ _writer c' = false /\
    _keepalive_task c' <> Some Pending /\ _receive_task c' <> Some Pending.
Proof.
  intros Hwc. unfold disconnect.
  destruct c as [r wr hs dh rt kt cn ev]. cbn.
  rewrite (except_Exception_pass_Return _ Hwc).
  destruct kt as [[]|], rt as [[]|], wr; cbn;
    eexists; (split; [reflexivity|]); cbn; repeat split; congruence.
Qed.

(** Once the streams are dropped and no task is pending, [disconnect]
    changes nothing any more, however [wait_closed] would end. *)
Lemma disconnect_again wait_closed c :
  _connected c = false -> _disconnect_event c = true ->
  _reader c = false -> _writer c = false ->
  _keepalive_task c <> Some Pending -> _receive_task c <> Some Pending ->
  disconnect wait_closed c = (c, Return tt, [Info_disconnected]).
Proof.
  destruct c as [r wr hs dh rt kt cn ev]. cbn.
  intros -> -> -> -> Hk Hr. unfold disconnect. cbn.
  destruct kt as [[]|], rt as [[]|]; cbn; solve [reflexivity | congruence].
Qed.

(** C8.  Provided the task that calls [disconnect] is not itself being
    cancelled while it waits for the stream to close, [disconnect] returns
    normally from every state of the connection; afterwards [connected]
    is [False] and the disconnect event is set, so [wait_disconnect]
    returns immediately.  A second call in a row returns normally as well
    and leaves the connection exactly as the first call left it.  The same
    holds for a connection whose receive loop has already ended because
    the peer closed the stream. *)
Theorem disconnect_idempotent wait_closed wait_closed' c input w :
  wait_closed <> Raise CancelledError ->
  (forall c1 o1 l1 c2 o2 l2,
     disconnect wait_closed c = (c1, o1, l1) ->
     disconnect wait_closed' c1 = (c2, o2, l2) ->
     o1 = Return tt /\ connected c1 = false /\
     wait_disconnect_returns_immediately c1 = true /\
     o2 = Return tt /\ c2 = c1) /\
  (forall c0 w0 l0 c1 o1 l1,
     _receive_loop (connect c) input w = (c0, w0, l0) ->
     disconnect wait_closed c0 = (c1, o1, l1) ->
     connected c0 = false /\
     o1 = Return tt /\ connected c1 = false /\
     wait_disconnect_returns_immediately c1 = true).
Proof.
  intros Hwc. split.
  - intros c1 o1 l1 c2 o2 l2 H1 H2.
    destruct (disconnect_returns wait_closed c Hwc)
      as (c' & Hd & Hcn & Hev & Hr & Hw & Hk & Hrt).
    rewrite Hd in H1. injection H1 as <- <- <-.
    rewrite (disconnect_again wait_closed' c') in H2 by assumption.
    injection H2 as <- <- <-. auto.
  - intros c0 w0 l0 c1 o1 l1 Hloop H1.
    destruct (disconnect_returns wait_closed c0 Hwc)
      as (c' & Hd & Hcn & Hev & _).
    rewrite Hd in H1. injection H1 as <- <- <-.
    repeat split; auto.
    unfold _receive_loop in Hloop. cbn [connect _connected _reader andb] in Hloop.
    destruct (receive_while _ _ _ _) as [[e w'] l'].
    destruct e; injection Hloop as <- _ _; reflexivity.
Qed.

End Conn.

Arguments Next {W} input w log.
Arguments Leave {W} e w log.

(** ** A small concrete instance *)

(** A catalogue with one kind, 7, whose payload is a single byte (the
    decoded message is that byte; [read_byte] fails on an empty payload),
    and callbacks that record their calls in a trace. *)
Definition one_byte_class : Packets.packet_class Z := {|
  Packets.compressed := false;
  Packets.read_packet := fun data =>
    match data with
    | b :: _ => Return b
    | [] => Raise (OtherException "struct.error")
    end
|}.

Definition one_kind : gmap Z (Packets.packet_class Z) := {[ 7 := one_byte_class ]}.

Definition no_gzip (data : list Z) : outcome (list Z) := Return data.

Definition note (n : nat) : Callable Z (list nat) :=
  fun _ trace => (trace ++ [n], Return tt).

Definition failing (n : nat) : Callable Z (list nat) :=
  fun _ trace => (trace ++ [n], Raise (ValueError "boom")).

Example frame_7 : Packets.to_bytes 7 [5] = Return [5; 0; 7; 0; 5].
Proof. reflexivity. Qed.

Example frame_7_empty : Packets.to_bytes 7 [] = Return [4; 0; 7; 0].
Proof. reflexivity. Qed.

Example frame_9 : Packets.to_bytes 9 [1; 2] = Return [6; 0; 9; 0; 1; 2].
Proof. reflexivity. Qed.

(** A stream with a short header, an undecodable frame, a frame of an
    unknown kind and a good frame: the first three are logged and passed
    over, the fourth is dispatched, and the loop ends at end of stream. *)
Example receive_loop_run :
  _receive_loop Z (list nat) no_gzip one_kind
    (on_packet Z _ 7 (note 2) (on_packet Z _ 7 (failing 1)
       (on_any_packet Z _ (note 0) (connect Z _ (init Z _)))))
    ([3; 0] ++ [4; 0; 7; 0] ++ [6; 0; 9; 0; 1; 2] ++ [5; 0; 7; 0; 5]) []
  = (set_receive_task Z _ (Some Finished) (mark_disconnected Z _
       (on_packet Z _ 7 (note 2) (on_packet Z _ 7 (failing 1)
          (on_any_packet Z _ (note 0) (connect Z _ (init Z _)))))),
     [0; 1; 2]%nat,
     [Warning_invalid_length 3; Warning_parse_failed 7; Debug_unknown 9 2;
      Debug_received 7; Error_handler 7; Info_closed_by_server]).
Proof. vm_compute. reflexivity. Qed.

(** The three recoveries of C7 on that catalogue: a header declaring
    length 3, a frame of kind 7 with an empty payload (undecodable), and a
    frame of the unregistered kind 9. *)
Lemma receive_loop_frame_recovery_witness :
  receive_iteration Z (list nat) no_gzip one_kind (connect Z _ (init Z _))
    (3 :: 0 :: [5; 0; 7; 0; 5]) []
    = Next [5; 0; 7; 0; 5] [] [Warning_invalid_length 3] /\
  receive_iteration Z (list nat) no_gzip one_kind (connect Z _ (init Z _))
    ([4; 0; 7; 0] ++ [5; 0; 7; 0; 5]) []
    = Next [5; 0; 7; 0; 5] [] [Warning_parse_failed 7] /\
  receive_iteration Z (list nat) no_gzip one_kind (connect Z _ (init Z _))
    ([6; 0; 9; 0; 1; 2] ++ [5; 0; 7; 0; 5]) []
    = Next [5; 0; 7; 0; 5] [] [Debug_unknown 9 2].
Proof.
  pose proof (receive_loop_frame_recovery Z (list nat) no_gzip one_kind
                (connect Z _ (init Z _)) [] [] [5; 0; 7; 0; 5]) as (Hshort & Hbad & Hunknown).
  split; [|split].
  - apply (Hshort 3 0). cbn. lia.
  - apply (Hbad 7 [] [4; 0; 7; 0] (OtherException "struct.error")); reflexivity.
  - apply (Hunknown 9 [1; 2] [6; 0; 9; 0; 1; 2]); reflexivity.
Defined.

(** C4 on a frame of kind 7 after [on_any_packet (note 1)] and then
    [on_any_packet (note 2)]. *)
Lemma any_packet_last_registration_wins_witness :
  Packets.to_bytes 7 [5] = Return [5; 0; 7; 0; 5] /\
  parse_server_packet Z no_gzip one_kind 7 [5] = Return (Some 5) /\
  receive_iteration Z (list nat) no_gzip one_kind
    (on_any_packet Z _ (note 2) (on_any_packet Z _ (note 1) (connect Z _ (init Z _))))
    ([5; 0; 7; 0; 5] ++ []) []
    = Next [] [2%nat] [Debug_received 7].
Proof.
  split; [reflexivity|]. split; [reflexivity|].
  apply (any_packet_last_registration_wins Z (list nat) no_gzip one_kind
           (connect Z _ (init Z _)) (note 1) (note 2) 7 [5] [5; 0; 7; 0; 5] 5 [] []);
    reflexivity.
Defined.

(** C4 (as stated) fails: two any-packet callbacks are registered in
    sequence, a message of kind 7 arrives and the peer closes.  Had both
    been invoked, first-registered first, the trace would be [1; 2]; the
    first callback is never invoked and the trace is [2]. *)
Lemma any_packet_first_registration_lost :
  snd (fst (_receive_loop Z (list nat) no_gzip one_kind
              (on_any_packet Z _ (note 2)
                 (on_any_packet Z _ (note 1) (connect Z _ (init Z _))))
              [5; 0; 7; 0; 5] []))
    = [2%nat] /\
  [2%nat] <> [1%nat; 2%nat].
Proof. split; [vm_compute; reflexivity | discriminate]. Qed.

(** C8 on a freshly connected connection whose stream fails to close
    cleanly. *)
Lemma disconnect_idempotent_witness :
  @Raise unit (ConnectionError "reset") <> Raise CancelledError /\
  forall c1 o1 l1 c2 o2 l2,
    disconnect Z (list nat) (Raise (ConnectionError "reset"))
      (connect Z _ (init Z _)) = (c1, o1, l1) ->
    disconnect Z (list nat) (Return tt) c1 = (c2, o2, l2) ->
    o1 = Return tt /\ connected Z _ c1 = false /\
    wait_disconnect_returns_immediately Z _ c1 = true /\
    o2 = Return tt /\ c2 = c1.
Proof.
  split; [discriminate|].
  apply (proj1 (disconnect_idempotent Z (list nat) no_gzip one_kind
                  (Raise (ConnectionError "reset")) (Return tt)
                  (connect Z _ (init Z _)) [] [] ltac:(discriminate))).
Defined.

Example disconnect_twice :
  disconnect Z (list nat) (Return tt) (connect Z _ (init Z _))
    = (set_keepalive_task Z _ (Some Cancelled)
         (set_receive_task Z _ (Some Cancelled) (mark_disconnected Z _ (init Z _))),
       Return tt, [Info_disconnected]) /\
  disconnect Z (list nat) (Return tt)
    (set_keepalive_task Z _ (Some Cancelled)
       (set_receive_task Z _ (Some Cancelled) (mark_disconnected Z _ (init Z _))))
    = (set_keepalive_task Z _ (Some Cancelled)
         (set_receive_task Z _ (Some Cancelled) (mark_disconnected Z _ (init Z _))),
       Return tt, [Info_disconnected]).
Proof. split; reflexivity. Qed.

End Connection.

(* ===================================================================== *)
(** * The server packets the reducers read                                *)
(* ===================================================================== *)

(** One record per packet class of [packets.py], with the attributes that
    [read_packet] sets and the reducers of [state.py] read (for
    [S_MapChanged], all that [read_packet] sets).  The width of each
    attribute is the width of the [BinaryReader] call that fills it. *)
Module ServerPackets.

Module S_MapInformation.
Record t := { map_index : Z; file_name : string; title : string }.
End S_MapInformation.

Module S_MapChanged.
Record t := {
  map_index : Z;        (* read_int32 *)
  file_name : string;   (* read_string *)
  title : string;       (* read_string *)
  mini_map : Z;         (* read_uint16 *)
  big_map : Z;          (* read_uint16 *)
  lights : Z;           (* read_byte *)
  location : Z * Z;     (* read_int32, read_int32 *)
  direction : Z;        (* read_byte *)
  map_dark_light : Z;   (* read_byte *)
  music : Z;            (* read_uint16 *)
  weather : Z           (* read_uint16 *)
}.
End S_MapChanged.

Module S_GainedGold.
Record t := { gold : Z (* read_uint32 *) }.
End S_GainedGold.

Module S_LoseGold.
Record t := { gold : Z (* read_uint32 *) }.
End S_LoseGold.

(** [S_ObjectTurn], [S_ObjectWalk] and [S_ObjectRun] have the same three
    attributes. *)
Module S_ObjectTurn.
Record t := { object_id : Z; location : Z * Z; direction : Z }.
End S_ObjectTurn.

Module S_ObjectWalk.
Record t := { object_id : Z; location : Z * Z; direction : Z }.
End S_ObjectWalk.

Module S_ObjectRun.
Record t := { object_id : Z; location : Z * Z; direction : Z }.
End S_ObjectRun.

Module S_ObjectPlayer.
Record t := { object_id : Z; name : string; location : Z * Z; direction : Z; dead : bool }.
End S_ObjectPlayer.

Module S_ObjectMonster.
Record t := { object_id : Z; name : string; location : Z * Z; direction : Z; dead : bool }.
End S_ObjectMonster.

Module S_ObjectNPC.
Record t := { object_id : Z; name : string; location : Z * Z; direction : Z }.
End S_ObjectNPC.

Module S_ObjectItem.
Record t := { object_id : Z; name : string; location : Z * Z }.
End S_ObjectItem.

Module S_ObjectGold.
Record t := { object_id : Z; gold : Z; location : Z * Z }.
End S_ObjectGold.

Module S_ObjectRemove.
Record t := { object_id : Z }.
End S_ObjectRemove.

Module S_ObjectDied.
Record t := { object_id : Z; location : Z * Z; direction : Z }.
End S_ObjectDied.

Module S_ObjectHealth.
Record t := { object_id : Z; percent : Z }.
End S_ObjectHealth.

Module S_LogOutSuccess.
Record t := { characters : list Py.pyval }.
End S_LogOutSuccess.

End ServerPackets.

(* ===================================================================== *)
(** * state.py                                                            *)
(* ===================================================================== *)

Module State.
Import Py ServerPackets.

(** Modelled from the spec: [enums.py] is not among the sources.
    [GameStage] has the four members [state.py] and [client.py] name. *)
Inductive GameStage := NONE | LOGIN | SELECT | GAME.

(** Modelled from the spec: [enums.py] is not among the sources.
    [MirDirection] is the integer enumeration of the eight facing
    directions; [client.py] lists its members in [_DIR_OFFSETS] and
    numbers them in [calc_direction] ("0=Up, 1=UpRight, ..., 7=UpLeft",
    built with [MirDirection(index)] for [index] in 0..7). *)
Inductive MirDirection :=
| Up | UpRight | Right | DownRight | Down | DownLeft | Left | UpLeft.

(** The call [MirDirection(value)]: the member with that value, and
    [ValueError] when the enumeration has none. *)
Definition MirDirection_of (value : Z) : outcome MirDirection :=
  match value with
  | 0 => Return Up
  | 1 => Return UpRight
  | 2 => Return Right
  | 3 => Return DownRight
  | 4 => Return Down
  | 5 => Return DownLeft
  | 6 => Return Left
  | 7 => Return UpLeft
  | _ => Raise (ValueError "not a valid MirDirection")
  end.


(** The identity of an [ObjectInfo] object. *)
Definition ref := nat.

(** The [ObjectInfo] dataclass. *)
Module ObjectInfo.
Record t := {
  object_id : Z;
  name : string;
  location : Z * Z;
  direction : Z;
  dead : bool;
  extras : gmap string Z
}.

Definition set_position (loc : Z * Z) (dir : Z) (o : t) : t :=
  {| object_id := object_id o; name := name o; location := loc;
     direction := dir; dead := dead o; extras := extras o |}.

Definition set_died (loc : Z * Z) (o : t) : t :=
  {| object_id := object_id o; name := name o; location := loc;
     direction := direction o; dead := true; extras := extras o |}.

Definition set_extra (key : string) (v : Z) (o : t) : t :=
  {| object_id := object_id o; name := name o; location := location o;
     direction := direction o; dead := dead o;
     extras := <[key := v]> (extras o) |}.
End ObjectInfo.

(** The [GameState] dataclass.  The four nearby-object dicts hold
    references to [ObjectInfo] objects, which the reducers mutate in
    place; [objects] is the store of those objects and [next_ref] the
    identity the next constructed object gets.  These two are the Python
    heap as far as [GameState] reaches into it, not attributes of the
    dataclass. *)
Record GameState := {
  stage : GameStage; object_id : Z; name : string; level : Z; class_ : Z;
  gender : Z; location : Z * Z; direction : MirDirection; hp : Z; mp : Z;
  max_hp : Z; max_mp : Z; experience : Z; max_experience : Z; gold : Z;
  credit : Z; dead : bool; map_index : Z; map_title : string;
  map_file : string; inventory : list pyval; equipment : list pyval;
  magics : list pyval; item_infos : gmap Z pyval; players : gmap Z ref;
  monsters : gmap Z ref; npcs : gmap Z ref; ground_items : gmap Z ref;
  buffs : gmap Z pyval; characters : list pyval; npc_page : list string;
  objects : gmap ref ObjectInfo.t; next_ref : ref
}.

(** [state.stage = v]. *)
Definition set_stage (v : GameStage) (s : GameState) : GameState := {|
  stage := v; object_id := object_id s; name := name s; level := level s;
  class_ := class_ s; gender := gender s; location := location s;
  direction := direction s; hp := hp s; mp := mp s; max_hp := max_hp s;
  max_mp := max_mp s; experience := experience s;
  max_experience := max_experience s; gold := gold s; credit := credit s;
  dead := dead s; map_index := map_index s; map_title := map_title s;
  map_file := map_file s; inventory := inventory s; equipment := equipment s;
  magics := magics s; item_infos := item_infos s; players := players s;
  monsters := monsters s; npcs := npcs s; ground_items := ground_items s;
  buffs := buffs s; characters := characters s; npc_page := npc_page s;
  objects := objects s; next_ref := next_ref s
|}.

(** [state.location = v]. *)
Definition set_location (v : Z * Z) (s : GameState) : GameState := {|
  stage := stage s; object_id := object_id s; name := name s;
  level := level s; class_ := class_ s; gender := gender s; location := v;
  direction := direction s; hp := hp s; mp := mp s; max_hp := max_hp s;
  max_mp := max_mp s; experience := experience s;
  max_experience := max_experience s; gold := gold s; credit := credit s;
  dead := dead s; map_index := map_index s; map_title := map_title s;
  map_file := map_file s; inventory := inventory s; equipment := equipment s;
  magics := magics s; item_infos := item_infos s; players := players s;
  monsters := monsters s; npcs := npcs s; ground_items := ground_items s;
  buffs := buffs s; characters := characters s; npc_page := npc_page s;
  objects := objects s; next_ref := next_ref s
|}.

(** [state.direction = v]. *)
Definition set_direction (v : MirDirection) (s : GameState) : GameState := {|
  stage := stage s; object_id := object_id s; name := name s;
  level := level s; class_ := class_ s; gender := gender s;
  location := location s; direction := v; hp := hp s; mp := mp s;
  max_hp := max_hp s; max_mp := max_mp s; experience := experience s;
  max_experience := max_experience s; gold := gold s; credit := credit s;
  dead := dead s; map_index := map_index s; map_title := map_title s;
  map_file := map_file s; inventory := inventory s; equipment := equipment s;
  magics := magics s; item_infos := item_infos s; players := players s;
  monsters := monsters s; npcs := npcs s; ground_items := ground_items s;
  buffs := buffs s; characters := characters s; npc_page := npc_page s;
  objects := objects s; next_ref := next_ref s
|}.

(** [state.gold = v]. *)
Definition set_gold (v : Z) (s : GameState) : GameState := {|
  stage := stage s; object_id := object_id s; name := name s;
  level := level s; class_ := class_ s; gender := gender s;
  location := location s; direction := direction s; hp := hp s; mp := mp s;
  max_hp := max_hp s; max_mp := max_mp s; experience := experience s;
  max_experience := max_experience s; gold := v; credit := credit s;
  dead := dead s; map_index := map_index s; map_title := map_title s;
  map_file := map_file s; inventory := inventory s; equipment := equipment s;
  magics := magics s; item_infos := item_infos s; players := players s;
  monsters := monsters s; npcs := npcs s; ground_items := ground_items s;
  buffs := buffs s; characters := characters s; npc_page := npc_page s;
  objects := objects s; next_ref := next_ref s
|}.

(** [state.dead = v]. *)
Definition set_dead (v : bool) (s : GameState) : GameState := {|
  stage := stage s; object_id := object_id s; name := name s;
  level := level s; class_ := class_ s; gender := gender s;
  location := location s; direction := direction s; hp := hp s; mp := mp s;
  max_hp := max_hp s; max_mp := max_mp s; experience := experience s;
  max_experience := max_experience s; gold := gold s; credit := credit s;
  dead := v; map_index := map_index s; map_title := map_title s;
  map_file := map_file s; inventory := inventory s; equipment := equipment s;
  magics := magics s; item_infos := item_infos s; players := players s;
  monsters := monsters s; npcs := npcs s; ground_items := ground_items s;
  buffs := buffs s; characters := characters s; npc_page := npc_page s;
  objects := objects s; next_ref := next_ref s
|}.

(** [state.map_index = v]. *)
Definition set_map_index (v : Z) (s : GameState) : GameState := {|
  stage := stage s; object_id := object_id s; name := name s;
  level := level s; class_ := class_ s; gender := gender s;
  location := location s; direction := direction s; hp := hp s; mp := mp s;
  max_hp := max_hp s; max_mp := max_mp s; experience := experience s;
  max_experience := max_experience s; gold := gold s; credit := credit s;
  dead := dead s; map_index := v; map_title := map_title s;
  map_file := map_file s; inventory := inventory s; equipment := equipment s;
  magics := magics s; item_infos := item_infos s; players := players s;
  monsters := monsters s; npcs := npcs s; ground_items := ground_items s;
  buffs := buffs s; characters := characters s; npc_page := npc_page s;
  objects := objects s; next_ref := next_ref s
|}.

(** [state.map_file = v]. *)
Definition set_map_file (v : string) (s : GameState) : GameState := {|
  stage := stage s; object_id := object_id s; name := name s;
  level := level s; class_ := class_ s; gender := gender s;
  location := location s; direction := direction s; hp := hp s; mp := mp s;
  max_hp := max_hp s; max_mp := max_mp s; experience := experience s;
  max_experience := max_experience s; gold := gold s; credit := credit s;
  dead := dead s; map_index := map_index s; map_title := map_title s;
  map_file := v; inventory := inventory s; equipment := equipment s;
  magics := magics s; item_infos := item_infos s; players := players s;
  monsters := monsters s; npcs := npcs s; ground_items := ground_items s;
  buffs := buffs s; characters := characters s; npc_page := npc_page s;
  objects := objects s; next_ref := next_ref s
|}.

(** [state.map_title = v]. *)
Definition set_map_title (v : string) (s : GameState) : GameState := {|
  stage := stage s; object_id := object_id s; name := name s;
  level := level s; class_ := class_ s; gender := gender s;
  location := location s; direction := direction s; hp := hp s; mp := mp s;
  max_hp := max_hp s; max_mp := max_mp s; experience := experience s;
  max_experience := max_experience s; gold := gold s; credit := credit s;
  dead := dead s; map_index := map_index s; map_title := v;
  map_file := map_file s; inventory := inventory s; equipment := equipment s;
  magics := magics s; item_infos := item_infos s; players := players s;
  monsters := monsters s; npcs := npcs s; ground_items := ground_items s;
  buffs := buffs s; characters := characters s; npc_page := npc_page s;
  objects := objects s; next_ref := next_ref s
|}.

(** [state.characters = v]. *)
Definition set_characters (v : list pyval) (s : GameState) : GameState := {|
  stage := stage s; object_id := object_id s; name := name s;
  level := level s; class_ := class_ s; gender := gender s;
  location := location s; direction := direction s; hp := hp s; mp := mp s;
  max_hp := max_hp s; max_mp := max_mp s; experience := experience s;
  max_experience := max_experience s; gold := gold s; credit := credit s;
  dead := dead s; map_index := map_index s; map_title := map_title s;
  map_file := map_file s; inventory := inventory s; equipment := equipment s;
  magics := magics s; item_infos := item_infos s; players := players s;
  monsters := monsters s; npcs := npcs s; ground_items := ground_items s;
  buffs := buffs s; characters := v; npc_page := npc_page s;
  objects := objects s; next_ref := next_ref s
|}.

(** The [players] dict after an in-place update. *)
Definition set_players (v : gmap Z ref) (s : GameState) : GameState := {|
  stage := stage s; object_id := object_id s; name := name s;
  level := level s; class_ := class_ s; gender := gender s;
  location := location s; direction := direction s; hp := hp s; mp := mp s;
  max_hp := max_hp s; max_mp := max_mp s; experience := experience s;
  max_experience := max_experience s; gold := gold s; credit := credit s;
  dead := dead s; map_index := map_index s; map_title := map_title s;
  map_file := map_file s; inventory := inventory s; equipment := equipment s;
  magics := magics s; item_infos := item_infos s; players := v;
  monsters := monsters s; npcs := npcs s; ground_items := ground_items s;
  buffs := buffs s; characters := characters s; npc_page := npc_page s;
  objects := objects s; next_ref := next_ref s
|}.

(** The [monsters] dict after an in-place update. *)
Definition set_monsters (v : gmap Z ref) (s : GameState) : GameState := {|
  stage := stage s; object_id := object_id s; name := name s;
  level := level s; class_ := class_ s; gender := gender s;
  location := location s; direction := direction s; hp := hp s; mp := mp s;
  max_hp := max_hp s; max_mp := max_mp s; experience := experience s;
  max_experience := max_experience s; gold := gold s; credit := credit s;
  dead := dead s; map_index := map_index s; map_title := map_title s;
  map_file := map_file s; inventory := inventory s; equipment := equipment s;
  magics := magics s; item_infos := item_infos s; players := players s;
  monsters := v; npcs := npcs s; ground_items := ground_items s;
  buffs := buffs s; characters := characters s; npc_page := npc_page s;
  objects := objects s; next_ref := next_ref s
|}.

(** The [npcs] dict after an in-place update. *)
Definition set_npcs (v : gmap Z ref) (s : GameState) : GameState := {|
  stage := stage s; object_id := object_id s; name := name s;
  level := level s; class_ := class_ s; gender := gender s;
  location := location s; direction := direction s; hp := hp s; mp := mp s;
  max_hp := max_hp s; max_mp := max_mp s; experience := experience s;
  max_experience := max_experience s; gold := gold s; credit := credit s;
  dead := dead s; map_index := map_index s; map_title := map_title s;
  map_file := map_file s; inventory := inventory s; equipment := equipment s;
  magics := magics s; item_infos := item_infos s; players := players s;
  monsters := monsters s; npcs := v; ground_items := ground_items s;
  buffs := buffs s; characters := characters s; npc_page := npc_page s;
  objects := objects s; next_ref := next_ref s
|}.

(** The [ground_items] dict after an in-place update. *)
Definition set_ground_items (v : gmap Z ref) (s : GameState) : GameState := {|
  stage := stage s; object_id := object_id s; name := name s;
  level := level s; class_ := class_ s; gender := gender s;
  location := location s; direction := direction s; hp := hp s; mp := mp s;
  max_hp := max_hp s; max_mp := max_mp s; experience := experience s;
  max_experience := max_experience s; gold := gold s; credit := credit s;
  dead := dead s; map_index := map_index s; map_title := map_title s;
  map_file := map_file s; inventory := inventory s; equipment := equipment s;
  magics := magics s; item_infos := item_infos s; players := players s;
  monsters := monsters s; npcs := npcs s; ground_items := v;
  buffs := buffs s; characters := characters s; npc_page := npc_page s;
  objects := objects s; next_ref := next_ref s
|}.

(** The object store after an in-place update of one [ObjectInfo.t]. *)
Definition set_objects (v : gmap ref ObjectInfo.t) (s : GameState) : GameState := {|
  stage := stage s; object_id := object_id s; name := name s;
  level := level s; class_ := class_ s; gender := gender s;
  location := location s; direction := direction s; hp := hp s; mp := mp s;
  max_hp := max_hp s; max_mp := max_mp s; experience := experience s;
  max_experience := max_experience s; gold := gold s; credit := credit s;
  dead := dead s; map_index := map_index s; map_title := map_title s;
  map_file := map_file s; inventory := inventory s; equipment := equipment s;
  magics := magics s; item_infos := item_infos s; players := players s;
  monsters := monsters s; npcs := npcs s; ground_items := ground_items s;
  buffs := buffs s; characters := characters s; npc_page := npc_page s;
  objects := v; next_ref := next_ref s
|}.

(** Construction of a new [ObjectInfo.t]: the object gets an identity that no
    object constructed before has; its reference is [next_ref] of the state
    before. *)
Definition alloc (o : ObjectInfo.t) (s : GameState) : GameState := {|
  stage := stage s; object_id := object_id s; name := name s;
  level := level s; class_ := class_ s; gender := gender s;
  location := location s; direction := direction s; hp := hp s; mp := mp s;
  max_hp := max_hp s; max_mp := max_mp s; experience := experience s;
  max_experience := max_experience s; gold := gold s; credit := credit s;
  dead := dead s; map_index := map_index s; map_title := map_title s;
  map_file := map_file s; inventory := inventory s; equipment := equipment s;
  magics := magics s; item_infos := item_infos s; players := players s;
  monsters := monsters s; npcs := npcs s; ground_items := ground_items s;
  buffs := buffs s; characters := characters s; npc_page := npc_page s;
  objects := <[next_ref s := o]> (objects s); next_ref := S (next_ref s)
|}.

(** [GameState()]: the dataclass defaults. *)
Definition init : GameState := {|
  stage := NONE; object_id := 0; name := ""; level := 0; class_ := 0;
  gender := 0; location := (0, 0); direction := Up; hp := 0; mp := 0;
  max_hp := 0; max_mp := 0; experience := 0; max_experience := 0; gold := 0;
  credit := 0; dead := false; map_index := 0; map_title := "";
  map_file := ""; inventory := []; equipment := []; magics := [];
  item_infos := ∅; players := ∅; monsters := ∅; npcs := ∅;
  ground_items := ∅; buffs := ∅; characters := []; npc_page := [];
  objects := ∅; next_ref := 0%nat
|}.

(** In-place update of the object behind a reference. *)
Definition update_object (r : ref) (f : ObjectInfo.t -> ObjectInfo.t)
  (s : GameState) : GameState :=
  set_objects (alter f r (objects s)) s.

(** What a table holds under an id: the object behind the reference. *)
Definition entry (table : gmap Z ref) (s : GameState) (oid : Z)
  : option ObjectInfo.t :=
  match table !! oid with
  | Some r => objects s !! r
  | None => None
  end.

(** ** The reducers of [register_state_handlers] *)

Definition on_map_info (pkt : S_MapInformation.t) (s : GameState) : GameState :=
  let s := set_map_index (S_MapInformation.map_index pkt) s in
  let s := set_map_file (S_MapInformation.file_name pkt) s in
  set_map_title (S_MapInformation.title pkt) s.

(** [state.gold += pkt.gold]. *)
Definition on_gained_gold (pkt : S_GainedGold.t) (s : GameState) : GameState :=
  set_gold (gold s + S_GainedGold.gold pkt) s.

(** [state.gold = max(0, state.gold - pkt.gold)]. *)
Definition on_lose_gold (pkt : S_LoseGold.t) (s : GameState) : GameState :=
  set_gold (Z.max 0 (gold s - S_LoseGold.gold pkt)) s.

(** [state.players[pkt.object_id] = ObjectInfo(...)]: the object is
    constructed first, then stored under the id. *)
Definition on_object_player (pkt : S_ObjectPlayer.t) (s : GameState) : GameState :=
  let r := next_ref s in
  let s := alloc {| ObjectInfo.object_id := S_ObjectPlayer.object_id pkt;
                    ObjectInfo.name := S_ObjectPlayer.name pkt;
                    ObjectInfo.location := S_ObjectPlayer.location pkt;
                    ObjectInfo.direction := S_ObjectPlayer.direction pkt;
                    ObjectInfo.dead := S_ObjectPlayer.dead pkt;
                    ObjectInfo.extras := ∅ |} s in
  set_players (<[S_ObjectPlayer.object_id pkt := r]> (players s)) s.

Definition on_object_monster (pkt : S_ObjectMonster.t) (s : GameState) : GameState :=
  let r := next_ref s in
  let s := alloc {| ObjectInfo.object_id := S_ObjectMonster.object_id pkt;
                    ObjectInfo.name := S_ObjectMonster.name pkt;
                    ObjectInfo.location := S_ObjectMonster.location pkt;
                    ObjectInfo.direction := S_ObjectMonster.direction pkt;
                    ObjectInfo.dead := S_ObjectMonster.dead pkt;
                    ObjectInfo.extras := ∅ |} s in
  set_monsters (<[S_ObjectMonster.object_id pkt := r]> (monsters s)) s.

Definition on_object_npc (pkt : S_ObjectNPC.t) (s : GameState) : GameState :=
  let r := next_ref s in
  let s := alloc {| ObjectInfo.object_id := S_ObjectNPC.object_id pkt;
                    ObjectInfo.name := S_ObjectNPC.name pkt;
                    ObjectInfo.location := S_ObjectNPC.location pkt;
                    ObjectInfo.direction := S_ObjectNPC.direction pkt;
                    ObjectInfo.dead := false;
                    ObjectInfo.extras := ∅ |} s in
  set_npcs (<[S_ObjectNPC.object_id pkt := r]> (npcs s)) s.

Definition on_object_item (pkt : S_ObjectItem.t) (s : GameState) : GameState :=
  let r := next_ref s in
  let s := alloc {| ObjectInfo.object_id := S_ObjectItem.object_id pkt;
                    ObjectInfo.name := S_ObjectItem.name pkt;
                    ObjectInfo.location := S_ObjectItem.location pkt;
                    ObjectInfo.direction := 0;
                    ObjectInfo.dead := false;
                    ObjectInfo.extras := ∅ |} s in
  set_ground_items (<[S_ObjectItem.object_id pkt := r]> (ground_items s)) s.

(** The name is the f-string [f"Gold ({pkt.gold})"]. *)
Definition on_object_gold (pkt : S_ObjectGold.t) (s : GameState) : GameState :=
  let r := next_ref s in
  let s := alloc {| ObjectInfo.object_id := S_ObjectGold.object_id pkt;
                    ObjectInfo.name := "Gold (" +:+ pretty (S_ObjectGold.gold pkt) +:+ ")";
                    ObjectInfo.location := S_ObjectGold.location pkt;
                    ObjectInfo.direction := 0;
                    ObjectInfo.dead := false;
                    ObjectInfo.extras := {[ "gold" := S_ObjectGold.gold pkt ]} |} s in
  set_ground_items (<[S_ObjectGold.object_id pkt := r]> (ground_items s)) s.

(** Four [dict.pop(oid, None)]. *)
Definition on_object_remove (pkt : S_ObjectRemove.t) (s : GameState) : GameState :=
  let oid := S_ObjectRemove.object_id pkt in
  let s := set_players (delete oid (players s)) s in
  let s := set_monsters (delete oid (monsters s)) s in
  let s := set_npcs (delete oid (npcs s)) s in
  set_ground_items (delete oid (ground_items s)) s.

(** The loop of [_update_object_pos]:
<<
    for collection in (state.players, state.monsters, state.npcs):
        obj = collection.get(object_id)
        if obj:
            obj.location = location
            obj.direction = direction
            return
>>
    An [ObjectInfo] defines neither [__bool__] nor [__len__], so [if obj:]
    holds exactly when [get] found an entry. *)
Fixpoint update_pos_in (collections : list (gmap Z ref)) (object_id : Z)
  (location : Z * Z) (direction : Z) (s : GameState) : GameState :=
  match collections with
  | [] => s
  | collection :: collections =>
      match collection !! object_id with
      | Some obj => update_object obj (ObjectInfo.set_position location direction) s
      | None => update_pos_in collections object_id location direction s
      end
  end.

Definition _update_object_pos (object_id : Z) (location : Z * Z) (direction : Z)
  (s : GameState) : GameState :=
  update_pos_in [players s; monsters s; npcs s] object_id location direction s.

Definition on_object_turn (pkt : S_ObjectTurn.t) (s : GameState) : GameState :=
  _update_object_pos (S_ObjectTurn.object_id pkt) (S_ObjectTurn.location pkt)
    (S_ObjectTurn.direction pkt) s.

Definition on_object_walk (pkt : S_ObjectWalk.t) (s : GameState) : GameState :=
  _update_object_pos (S_ObjectWalk.object_id pkt) (S_ObjectWalk.location pkt)
    (S_ObjectWalk.direction pkt) s.

Definition on_object_run (pkt : S_ObjectRun.t) (s : GameState) : GameState :=
  _update_object_pos (S_ObjectRun.object_id pkt) (S_ObjectRun.location pkt)
    (S_ObjectRun.direction pkt) s.

(** [on_object_died] and [on_object_health] search players, then
    monsters. *)
Fixpoint update_first_in (collections : list (gmap Z ref)) (object_id : Z)
  (f : ObjectInfo.t -> ObjectInfo.t) (s : GameState) : GameState :=
  match collections with
  | [] => s
  | collection :: collections =>
      match collection !! object_id with
      | Some obj => update_object obj f s
      | None => update_first_in collections object_id f s
      end
  end.

Definition on_object_died (pkt : S_ObjectDied.t) (s : GameState) : GameState :=
  update_first_in [players s; monsters s] (S_ObjectDied.object_id pkt)
    (ObjectInfo.set_died (S_ObjectDied.location pkt)) s.

Definition on_object_health (pkt : S_ObjectHealth.t) (s : GameState) : GameState :=
  update_first_in [players s; monsters s] (S_ObjectHealth.object_id pkt)
    (ObjectInfo.set_extra "health_percent" (S_ObjectHealth.percent pkt)) s.

(** [on_map_changed]:
<<
    state.map_index = pkt.map_index
    state.map_file = pkt.file_name
    state.map_title = pkt.title
    state.location = pkt.location
    state.direction = MirDirection(pkt.direction)
    # Clear nearby objects on map change
    state.players.clear()
    state.monsters.clear()
    state.npcs.clear()
    state.ground_items.clear()
>>
    The result is the state as the reducer leaves it and how the call
    ends: the enumeration lookup can raise, after the first four
    assignments have been made. *)
Definition on_map_changed (pkt : S_MapChanged.t) (s : GameState)
  : GameState * outcome unit :=
  let s := set_map_index (S_MapChanged.map_index pkt) s in
  let s := set_map_file (S_MapChanged.file_name pkt) s in
  let s := set_map_title (S_MapChanged.title pkt) s in
  let s := set_location (S_MapChanged.location pkt) s in
  match MirDirection_of (S_MapChanged.direction pkt) with
  | Raise e => (s, Raise e)
  | Return d =>
      let s := set_direction d s in
      let s := set_players ∅ s in
      let s := set_monsters ∅ s in
      let s := set_npcs ∅ s in
      let s := set_ground_items ∅ s in
      (s, Return tt)
  end.

(** [on_logout_success]:
<<
    state.characters = pkt.characters
    state.stage = GameStage.SELECT
    state.players.clear()
    state.monsters.clear()
    state.npcs.clear()
    state.ground_items.clear()
>> *)
Definition on_logout_success (pkt : S_LogOutSuccess.t) (s : GameState) : GameState :=
  let s := set_characters (S_LogOutSuccess.characters pkt) s in
  let s := set_stage SELECT s in
  let s := set_players ∅ s in
  let s := set_monsters ∅ s in
  let s := set_npcs ∅ s in
  set_ground_items ∅ s.

(** ** Ownership of the [ObjectInfo] objects *)

(** The four nearby-object dicts, in the order players, monsters, NPCs,
    ground items. *)
Definition tables (s : GameState) : list (gmap Z ref) :=
  [players s; monsters s; npcs s; ground_items s].

(** Table number [i] holds the reference [r] under the id [oid]. *)
Definition holds (tabs : list (gmap Z ref)) (i : nat) (oid : Z) (r : ref) : Prop :=
  exists t, tabs !! i = Some t /\ t !! oid = Some r.

(** Every reference in a table names an object that has been constructed,
    and no object is held twice (neither by two tables nor under two
    ids). *)
Definition wf_store (tabs : list (gmap Z ref)) (objs : gmap ref ObjectInfo.t)
  (n : ref) : Prop :=
  (forall i oid r, holds tabs i oid r -> (r < n)%nat /\ is_Some (objs !! r)) /\
  (forall i j oid1 oid2 r,
     holds tabs i oid1 r -> holds tabs j oid2 r -> i = j /\ oid1 = oid2).

Definition wf (s : GameState) : Prop :=
  wf_store (tables s) (objects s) (next_ref s).

Lemma wf_init : wf init.
Proof.
  split.
  - intros i oid r (t & Ht & Hr). exfalso.
    destruct i as [|[|[|[|i]]]]; cbn in Ht; try discriminate;
      injection Ht as <-; now rewrite lookup_empty in Hr.
  - intros i j oid1 oid2 r (t & Ht & Hr). exfalso.
    destruct i as [|[|[|[|i]]]]; cbn in Ht; try discriminate;
      injection Ht as <-; now rewrite lookup_empty in Hr.
Qed.

Lemma holds_insert tabs k t oid n i oid' r :
  tabs !! k = Some t ->
  holds (<[k := <[oid := n]> t]> tabs) i oid' r ->
  (i = k /\ oid' = oid /\ r = n) \/ holds tabs i oid' r.
Proof.
  intros Hk (t' & Ht' & Hr).
  destruct (decide (i = k)) as [->|Hik].
  - rewrite list_lookup_insert_eq in Ht' by (eapply lookup_lt_Some; eauto).
    injection Ht' as <-.
    destruct (decide (oid' = oid)) as [->|Hoid].
    + rewrite lookup_insert_eq in Hr. left. split; [done|]. split; congruence.
    + rewrite lookup_insert_ne in Hr by done. right. now exists t.
  - rewrite list_lookup_insert_ne in Ht' by done. right. now exists t'.
Qed.

(** Storing a newly constructed object under an id keeps the store well
    formed. *)
Lemma wf_store_insert_new tabs objs n k t oid o :
  wf_store tabs objs n -> tabs !! k = Some t ->
  wf_store (<[k := <[oid := n]> t]> tabs) (<[n := o]> objs) (S n).
Proof.
  intros [Halloc Hinj] Hk. split.
  - intros i oid' r H.
    apply (holds_insert _ _ _ _ _ _ _ _ Hk) in H as [(-> & -> & ->)|H].
    + split; [lia|]. rewrite lookup_insert_eq. eauto.
    + destruct (Halloc _ _ _ H) as [Hlt Hsome]. split; [lia|].
      rewrite lookup_insert_ne by lia. exact Hsome.
  - intros i j oid1 oid2 r H1 H2.
    apply (holds_insert _ _ _ _ _ _ _ _ Hk) in H1 as [(-> & -> & ->)|H1];
      apply (holds_insert _ _ _ _ _ _ _ _ Hk) in H2 as [(-> & -> & Hr)|H2].
    + done.
    + destruct (Halloc _ _ _ H2). lia.
    + subst r. destruct (Halloc _ _ _ H1). lia.
    + eauto.
Qed.

(** Removing entries keeps it well formed. *)
Lemma wf_store_shrink tabs tabs' objs n :
  wf_store tabs objs n ->
  (forall i oid r, holds tabs' i oid r -> holds tabs i oid r) ->
  wf_store tabs' objs n.
Proof.
  intros [Halloc Hinj] Hsub. split.
  - intros i oid r H. apply Halloc with i oid. auto.
  - intros i j oid1 oid2 r H1 H2. eauto.
Qed.

(** So does an in-place update of an object. *)
Lemma wf_store_alter tabs objs n f r :
  wf_store tabs objs n -> wf_store tabs (alter f r objs) n.
Proof.
  intros [Halloc Hinj]. split; [|exact Hinj].
  intros i oid r' H. destruct (Halloc _ _ _ H) as [Hlt [o Ho]].
  split; [exact Hlt|].
  destruct (decide (r = r')) as [->|Hne].
  - rewrite lookup_alter_eq, Ho. eauto.
  - rewrite lookup_alter_ne by done. eauto.
Qed.

Lemma wf_update_object r f s : wf s -> wf (update_object r f s).
Proof. apply wf_store_alter. Qed.

Lemma wf_on_object_player pkt s : wf s -> wf (on_object_player pkt s).
Proof.
  intros H.
  exact (wf_store_insert_new (tables s) (objects s) (next_ref s) 0%nat (players s)
           (S_ObjectPlayer.object_id pkt) _ H eq_refl).
Qed.

Lemma wf_on_object_monster pkt s : wf s -> wf (on_object_monster pkt s).
Proof.
  intros H.
  exact (wf_store_insert_new (tables s) (objects s) (next_ref s) 1%nat (monsters s)
           (S_ObjectMonster.object_id pkt) _ H eq_refl).
Qed.

Lemma wf_on_object_npc pkt s : wf s -> wf (on_object_npc pkt s).
Proof.
  intros H.
  exact (wf_store_insert_new (tables s) (objects s) (next_ref s) 2%nat (npcs s)
           (S_ObjectNPC.object_id pkt) _ H eq_refl).
Qed.

Lemma wf_on_object_item pkt s : wf s -> wf (on_object_item pkt s).
Proof.
  intros H.
  exact (wf_store_insert_new (tables s) (objects s) (next_ref s) 3%nat (ground_items s)
           (S_ObjectItem.object_id pkt) _ H eq_refl).
Qed.

Lemma wf_on_object_gold pkt s : wf s -> wf (on_object_gold pkt s).
Proof.
  intros H.
  exact (wf_store_insert_new (tables s) (objects s) (next_ref s) 3%nat (ground_items s)
           (S_ObjectGold.object_id pkt) _ H eq_refl).
Qed.

Lemma holds_tables s i oid r :
  holds (tables s) i oid r <->
  (i = 0%nat /\ players s !! oid = Some r) \/
  (i = 1%nat /\ monsters s !! oid = Some r) \/
  (i = 2%nat /\ npcs s !! oid = Some r) \/
  (i = 3%nat /\ ground_items s !! oid = Some r).
Proof.
  split.
  - intros (t & Ht & Hr).
    destruct i as [|[|[|[|i]]]]; cbn in Ht; try discriminate;
      injection Ht as <-; auto 10.
  - intros [[-> H]|[[-> H]|[[-> H]|[-> H]]]]; eexists; (split; [reflexivity|exact H]).
Qed.

Lemma wf_on_object_remove pkt s : wf s -> wf (on_object_remove pkt s).
Proof.
  intros H. apply (wf_store_shrink _ _ _ _ H).
  intros i oid r (t & Ht & Hr). apply holds_tables.
  destruct i as [|[|[|[|i]]]]; cbn in Ht; try discriminate;
    injection Ht as <-; apply lookup_delete_Some in Hr as [_ Hr]; auto 10.
Qed.

Lemma wf_update_first_in colls oid f s : wf s -> wf (update_first_in colls oid f s).
Proof.
  intros H. induction colls as [|c colls IH]; [exact H|]. cbn.
  destruct (c !! oid); [now apply wf_update_object | exact IH].
Qed.

Lemma update_pos_in_first colls oid loc dir s :
  update_pos_in colls oid loc dir s
  = update_first_in colls oid (ObjectInfo.set_position loc dir) s.
Proof. induction colls as [|c colls IH]; [reflexivity|]. cbn. now rewrite IH. Qed.

Lemma wf_update_object_pos oid loc dir s : wf s -> wf (_update_object_pos oid loc dir s).
Proof.
  intros H. unfold _update_object_pos. rewrite update_pos_in_first.
  now apply wf_update_first_in.
Qed.

Lemma wf_on_object_died pkt s : wf s -> wf (on_object_died pkt s).
Proof. apply wf_update_first_in. Qed.

Lemma wf_on_object_health pkt s : wf s -> wf (on_object_health pkt s).
Proof. apply wf_update_first_in. Qed.

Lemma wf_cleared s s' :
  wf s -> objects s' = objects s -> next_ref s' = next_ref s ->
  players s' = ∅ -> monsters s' = ∅ -> npcs s' = ∅ -> ground_items s' = ∅ ->
  wf s'.
Proof.
  intros H Ho Hn Hp Hm Hc Hg. unfold wf. rewrite Ho, Hn.
  apply (wf_store_shrink _ _ _ _ H).
  intros i oid r Hh. exfalso. apply holds_tables in Hh.
  rewrite Hp, Hm, Hc, Hg in Hh. rewrite !lookup_empty in Hh.
  destruct Hh as [[_ ?]|[[_ ?]|[[_ ?]|[_ ?]]]]; discriminate.
Qed.

Lemma wf_on_logout_success pkt s : wf s -> wf (on_logout_success pkt s).
Proof. intros H. now apply (wf_cleared s). Qed.

Lemma wf_on_map_changed pkt s : wf s -> wf (fst (on_map_changed pkt s)).
Proof.
  intros H. unfold on_map_changed.
  destruct (MirDirection_of _); cbn [fst]; [now apply (wf_cleared s)|exact H].
Qed.

Lemma wf_set_gold v s : wf s -> wf (set_gold v s).
Proof. exact (fun H => H). Qed.

(** ** Position, turn and run updates *)

(** The three packet kinds that carry a position update. *)
Inductive position_update :=
| Turn (pkt : S_ObjectTurn.t)
| Walk (pkt : S_ObjectWalk.t)
| Run (pkt : S_ObjectRun.t).

Definition update_object_id (u : position_update) : Z :=
  match u with
  | Turn pkt => S_ObjectTurn.object_id pkt
  | Walk pkt => S_ObjectWalk.object_id pkt
  | Run pkt => S_ObjectRun.object_id pkt
  end.

Definition update_location (u : position_update) : Z * Z :=
  match u with
  | Turn pkt => S_ObjectTurn.location pkt
  | Walk pkt => S_ObjectWalk.location pkt
  | Run pkt => S_ObjectRun.location pkt
  end.

Definition update_direction (u : position_update) : Z :=
  match u with
  | Turn pkt => S_ObjectTurn.direction pkt
  | Walk pkt => S_ObjectWalk.direction pkt
  | Run pkt => S_ObjectRun.direction pkt
  end.

(** The reducer registered for the packet's kind. *)
Definition on_position_update (u : position_update) (s : GameState) : GameState :=
  match u with
  | Turn pkt => on_object_turn pkt s
  | Walk pkt => on_object_walk pkt s
  | Run pkt => on_object_run pkt s
  end.

Lemma on_position_update_eq u s :
  on_position_update u s
  = _update_object_pos (update_object_id u) (update_location u) (update_direction u) s.
Proof. now destruct u. Qed.

Lemma entry_update_object_same t s r f oid :
  t !! oid = Some r ->
  entry t (update_object r f s) oid = f <$> entry t s oid.
Proof.
  intros Ht. unfold entry. rewrite Ht. cbn. apply lookup_alter_eq.
Qed.

Lemma entry_update_object_other s i j t r f oid oid' :
  wf s -> holds (tables s) i oid r -> tables s !! j = Some t ->
  (j, oid') <> (i, oid) ->
  entry t (update_object r f s) oid' = entry t s oid'.
Proof.
  intros [_ Hinj] Hi Hj Hne. unfold entry.
  destruct (t !! oid') as [r'|] eqn:Hr'; [|reflexivity]. cbn.
  apply lookup_alter_ne. intros ->.
  destruct (Hinj j i oid' oid r') as [-> ->]; [now exists t|exact Hi|].
  now apply Hne.
Qed.

(** What updating the object found in table [i] under [oid] does to the
    four tables. *)
Lemma update_object_found s i t r f oid :
  wf s -> tables s !! i = Some t -> t !! oid = Some r ->
  tables (update_object r f s) = tables s /\
  is_Some (entry t s oid) /\
  entry t (update_object r f s) oid = f <$> entry t s oid /\
  forall j t' oid', tables s !! j = Some t' -> (j, oid') <> (i, oid) ->
    entry t' (update_object r f s) oid' = entry t' s oid'.
Proof.
  intros Hwf Hi Hr.
  assert (Hh : holds (tables s) i oid r) by now exists t.
  split; [reflexivity|]. split; [|split].
  - unfold entry. rewrite Hr. now apply (proj1 Hwf i oid r).
  - now apply entry_update_object_same.
  - intros j t' oid' Hj Hne. now apply (entry_update_object_other s i j t' r f oid oid').
Qed.

(** C6.  In a state whose tables do not share objects (every state the
    reducers build, see the [wf_on_...] lemmas), a turn, walk or run
    update for an object id leaves the four id-to-object tables as they
    are, leaves every entry under another id and every ground-item entry
    untouched, and
    - if the player table has the id, sets location and direction of that
      entry only: the entries under the same id in the monster and NPC
      tables are untouched;
    - otherwise, if the monster table has the id, does so for the monster
      entry only, and the NPC entry under that id is untouched;
    - otherwise, if the NPC table has the id, does so for the NPC entry;
    - otherwise changes nothing at all, and does not raise.
    The entry that is updated has, afterwards, the location and the
    direction of the message; its id, name, [dead] flag and [extras] are
    those it had. *)
Theorem position_update_first_match (u : position_update) (s s' : GameState) :
  wf s ->
  on_position_update u s = s' ->
  let oid := update_object_id u in
  let moved := ObjectInfo.set_position (update_location u) (update_direction u) in
  let updated (before after : option ObjectInfo.t) :=
    exists o, before = Some o /\
      after = Some {| ObjectInfo.object_id := ObjectInfo.object_id o;
                      ObjectInfo.name := ObjectInfo.name o;
                      ObjectInfo.location := update_location u;
                      ObjectInfo.direction := update_direction u;
                      ObjectInfo.dead := ObjectInfo.dead o;
                      ObjectInfo.extras := ObjectInfo.extras o |} in
  tables s' = tables s /\
  (forall t oid', t ∈ tables s -> oid' <> oid -> entry t s' oid' = entry t s oid') /\
  entry (ground_items s') s' oid = entry (ground_items s) s oid /\
  match players s !! oid, monsters s !! oid, npcs s !! oid with
  | Some _, _, _ =>
      updated (entry (players s) s oid) (entry (players s') s' oid) /\
      is_Some (entry (players s) s oid) /\
      entry (players s') s' oid = moved <$> entry (players s) s oid /\
      entry (monsters s') s' oid = entry (monsters s) s oid /\
      entry (npcs s') s' oid = entry (npcs s) s oid
  | None, Some _, _ =>
      updated (entry (monsters s) s oid) (entry (monsters s') s' oid) /\
      is_Some (entry (monsters s) s oid) /\
      entry (players s') s' oid = None /\
      entry (monsters s') s' oid = moved <$> entry (monsters s) s oid /\
      entry (npcs s') s' oid = entry (npcs s) s oid
  | None, None, Some _ =>
      updated (entry (npcs s) s oid) (entry (npcs s') s' oid) /\
      is_Some (entry (npcs s) s oid) /\
      entry (players s') s' oid = None /\
      entry (monsters s') s' oid = None /\
      entry (npcs s') s' oid = moved <$> entry (npcs s) s oid
  | None, None, None => s' = s
  end.
Proof.
  intros Hwf <-. rewrite on_position_update_eq.
  set (oid := update_object_id u).
  set (moved := ObjectInfo.set_position (update_location u) (update_direction u)).
  cbv zeta. unfold _update_object_pos. cbn [update_pos_in].
  assert (Hfound : forall i t r,
            tables s !! i = Some t -> t !! oid = Some r -> (i < 3)%nat ->
            tables (update_object r moved s) = tables s /\
            (forall t' oid', t' ∈ tables s -> oid' <> oid ->
               entry t' (update_object r moved s) oid' = entry t' s oid') /\
            entry (ground_items s) (update_object r moved s) oid
              = entry (ground_items s) s oid /\
            is_Some (entry t s oid) /\
            entry t (update_object r moved s) oid = moved <$> entry t s oid /\
            forall j t', tables s !! j = Some t' -> j <> i ->
              entry t' (update_object r moved s) oid = entry t' s oid).
  { intros i t r Hi Hr Hlt.
    destruct (update_object_found s i t r moved oid Hwf Hi Hr)
      as (Htabs & Hsome & Hsame & Hother).
    split; [exact Htabs|]. split; [|split; [|split; [exact Hsome|split; [exact Hsame|]]]].
    - intros t' oid' Ht' Hne. apply list_elem_of_lookup in Ht' as [j Hj].
      apply (Hother j); [exact Hj|]. intros [= _ ?]. contradiction.
    - apply (Hother 3%nat); [reflexivity|]. intros [= ?]. lia.
    - intros j t' Hj Hne. apply (Hother j); [exact Hj|]. intros [= ? ]. contradiction. }
  assert (Hupd : forall before after,
            is_Some before -> after = moved <$> before ->
            exists o, before = Some o /\
              after = Some {| ObjectInfo.object_id := ObjectInfo.object_id o;
                              ObjectInfo.name := ObjectInfo.name o;
                              ObjectInfo.location := update_location u;
                              ObjectInfo.direction := update_direction u;
                              ObjectInfo.dead := ObjectInfo.dead o;
                              ObjectInfo.extras := ObjectInfo.extras o |}).
  { intros before after [o ->] ->. exists o. split; reflexivity. }
  destruct (players s !! oid) as [rp|] eqn:Hp.
  { destruct (Hfound 0%nat (players s) rp eq_refl Hp ltac:(lia))
      as (Ht & Ho & Hg & Hs & Hm & Hrest).
    split; [exact Ht|]. split; [exact Ho|]. split; [exact Hg|].
    split; [exact (Hupd _ _ Hs Hm)|].
    split; [exact Hs|]. split; [exact Hm|].
    split; [apply (Hrest 1%nat); [reflexivity|lia] | apply (Hrest 2%nat); [reflexivity|lia]]. }
  destruct (monsters s !! oid) as [rm|] eqn:Hmo.
  { destruct (Hfound 1%nat (monsters s) rm eq_refl Hmo ltac:(lia))
      as (Ht & Ho & Hg & Hs & Hm & Hrest).
    split; [exact Ht|]. split; [exact Ho|]. split; [exact Hg|].
    split; [exact (Hupd _ _ Hs Hm)|].
    split; [exact Hs|]. split; [|split; [exact Hm|]].
    - unfold entry. cbn. now rewrite Hp.
    - apply (Hrest 2%nat); [reflexivity|lia]. }
  destruct (npcs s !! oid) as [rn|] eqn:Hn.
  { destruct (Hfound 2%nat (npcs s) rn eq_refl Hn ltac:(lia))
      as (Ht & Ho & Hg & Hs & Hm & Hrest).
    split; [exact Ht|]. split; [exact Ho|]. split; [exact Hg|].
    split; [exact (Hupd _ _ Hs Hm)|].
    split; [exact Hs|]. split; [|split; [|exact Hm]].
    - unfold entry. cbn. now rewrite Hp.
    - unfold entry. cbn. now rewrite Hmo. }
  repeat split; reflexivity.
Qed.

(** ** Concrete states *)

Definition player_5 : S_ObjectPlayer.t := {|
  S_ObjectPlayer.object_id := 5; S_ObjectPlayer.name := "Hero";
  S_ObjectPlayer.location := (1, 1); S_ObjectPlayer.direction := 0;
  S_ObjectPlayer.dead := false |}.

Definition monster_5 : S_ObjectMonster.t := {|
  S_ObjectMonster.object_id := 5; S_ObjectMonster.name := "Deer";
  S_ObjectMonster.location := (10, 10); S_ObjectMonster.direction := 4;
  S_ObjectMonster.dead := false |}.

Definition npc_6 : S_ObjectNPC.t := {|
  S_ObjectNPC.object_id := 6; S_ObjectNPC.name := "Smith";
  S_ObjectNPC.location := (2, 7); S_ObjectNPC.direction := 6 |}.

Definition gold_7 : S_ObjectGold.t := {|
  S_ObjectGold.object_id := 7; S_ObjectGold.gold := 150;
  S_ObjectGold.location := (3, 3) |}.

(** A state with all four tables populated, in which the id 5 is both a
    player and a monster, as the reducers build it from four appearance
    packets. *)
Definition crowded : GameState :=
  on_object_gold gold_7 (on_object_npc npc_6
    (on_object_monster monster_5 (on_object_player player_5 init))).

Lemma wf_crowded : wf crowded.
Proof.
  apply wf_on_object_gold, wf_on_object_npc, wf_on_object_monster,
    wf_on_object_player, wf_init.
Qed.

Definition walk_5 : S_ObjectWalk.t := {|
  S_ObjectWalk.object_id := 5; S_ObjectWalk.location := (10, 11);
  S_ObjectWalk.direction := 2 |}.

Example crowded_entries :
  entry (players crowded) crowded 5
    = Some {| ObjectInfo.object_id := 5; ObjectInfo.name := "Hero";
              ObjectInfo.location := (1, 1); ObjectInfo.direction := 0;
              ObjectInfo.dead := false; ObjectInfo.extras := ∅ |} /\
  entry (monsters crowded) crowded 5
    = Some {| ObjectInfo.object_id := 5; ObjectInfo.name := "Deer";
              ObjectInfo.location := (10, 10); ObjectInfo.direction := 4;
              ObjectInfo.dead := false; ObjectInfo.extras := ∅ |} /\
  ObjectInfo.name <$> entry (ground_items crowded) crowded 7 = Some "Gold (150)".
Proof. repeat split; vm_compute; reflexivity. Qed.

(** C6 on the crowded state: a walk of id 5 moves the player entry, which
    then has the location and the direction of the message and is
    otherwise the player it was, and leaves the monster entry under the
    same id where it was. *)
Lemma position_update_first_match_witness :
  wf crowded /\
  on_position_update (Walk walk_5) crowded = on_object_walk walk_5 crowded /\
  entry (players (on_object_walk walk_5 crowded)) (on_object_walk walk_5 crowded) 5
    = Some {| ObjectInfo.object_id := 5; ObjectInfo.name := "Hero";
              ObjectInfo.location := (10, 11); ObjectInfo.direction := 2;
              ObjectInfo.dead := false; ObjectInfo.extras := ∅ |} /\
  entry (monsters (on_object_walk walk_5 crowded)) (on_object_walk walk_5 crowded) 5
    = Some {| ObjectInfo.object_id := 5; ObjectInfo.name := "Deer";
              ObjectInfo.location := (10, 10); ObjectInfo.direction := 4;
              ObjectInfo.dead := false; ObjectInfo.extras := ∅ |}.
Proof.
  split; [exact wf_crowded|]. split; [reflexivity|].
  pose proof (position_update_first_match (Walk walk_5) crowded
                (on_object_walk walk_5 crowded) wf_crowded eq_refl) as H.
  cbv zeta in H. destruct H as (_ & _ & _ & H).
  change (update_object_id (Walk walk_5)) with 5 in H.
  replace (players crowded !! 5) with (Some 0%nat) in H by (vm_compute; reflexivity).
  destruct H as ((o & Ho & Hplayer) & _ & _ & Hmonster & _).
  destruct crowded_entries as (Hhero & Hdeer & _).
  rewrite Hhero in Ho. injection Ho as <-.
  split; [exact Hplayer|]. rewrite Hmonster. exact Hdeer.
Defined.

(** ** Gold *)

(** C5 (as amended).  A gained-gold message adds its amount to the
    current gold.  A lose-gold message subtracts its amount but never
    takes the gold below zero: the result is [max(0, gold - g)], which is
    [gold - g] exactly when the amount does not exceed the current gold.
    Neither reducer touches anything else. *)
Theorem gold_deltas (s : GameState) (gained : S_GainedGold.t) (lost : S_LoseGold.t) :
  gold (on_gained_gold gained s) = gold s + S_GainedGold.gold gained /\
  gold (on_lose_gold lost s) = Z.max 0 (gold s - S_LoseGold.gold lost) /\
  (gold (on_lose_gold lost s) = gold s - S_LoseGold.gold lost
     <-> S_LoseGold.gold lost <= gold s) /\
  on_gained_gold gained s = set_gold (gold (on_gained_gold gained s)) s /\
  on_lose_gold lost s = set_gold (gold (on_lose_gold lost s)) s.
Proof.
  split; [reflexivity|]. split; [reflexivity|]. split; [|split; reflexivity].
  unfold on_lose_gold. cbn. lia.
Qed.

(** C5 (as stated) fails when more gold is lost than is held: with 5
    gold, losing 10 leaves 0, not 5 - 10. *)
Lemma lose_gold_clamps_at_zero :
  gold (on_lose_gold {| S_LoseGold.gold := 10 |}
          (on_gained_gold {| S_GainedGold.gold := 5 |} init)) = 0 /\
  gold (on_gained_gold {| S_GainedGold.gold := 5 |} init) - 10 = -5 /\
  gold (on_lose_gold {| S_LoseGold.gold := 10 |}
          (on_gained_gold {| S_GainedGold.gold := 5 |} init))
    <> gold (on_gained_gold {| S_GainedGold.gold := 5 |} init) - 10.
Proof. repeat split. discriminate. Qed.

(** ** Map change *)

(** With a direction byte that names a direction, the reducer runs to its
    end: the map identity is the message's and the four tables are
    empty. *)
Lemma on_map_changed_valid pkt s d :
  MirDirection_of (S_MapChanged.direction pkt) = Return d ->
  exists s', on_map_changed pkt s = (s', Return tt) /\
    players s' = ∅ /\ monsters s' = ∅ /\ npcs s' = ∅ /\ ground_items s' = ∅ /\
    map_index s' = S_MapChanged.map_index pkt /\
    map_file s' = S_MapChanged.file_name pkt /\
    map_title s' = S_MapChanged.title pkt /\
    location s' = S_MapChanged.location pkt /\ direction s' = d.
Proof.
  intros Hd. unfold on_map_changed. rewrite Hd.
  eexists. split; [reflexivity|]. repeat split.
Qed.

Lemma MirDirection_of_invalid v :
  ~ 0 <= v <= 7 -> MirDirection_of v = Raise (ValueError "not a valid MirDirection").
Proof.
  intros Hv. unfold MirDirection_of.
  destruct v as [|p|p]; [lia| |reflexivity].
  do 3 (destruct p as [p|p|]; try reflexivity; try lia).
Qed.

(** With any other direction byte the enumeration lookup raises after the
    map identity and the location have been assigned and before the first
    [clear()]: the four tables keep all their entries. *)
Lemma on_map_changed_invalid pkt s :
  ~ 0 <= S_MapChanged.direction pkt <= 7 ->
  exists s', on_map_changed pkt s
             = (s', Raise (ValueError "not a valid MirDirection")) /\
    players s' = players s /\ monsters s' = monsters s /\
    npcs s' = npcs s /\ ground_items s' = ground_items s /\
    objects s' = objects s /\
    map_index s' = S_MapChanged.map_index pkt /\
    map_file s' = S_MapChanged.file_name pkt /\
    map_title s' = S_MapChanged.title pkt /\
    location s' = S_MapChanged.location pkt /\ direction s' = direction s.
Proof.
  intros Hd. unfold on_map_changed. rewrite (MirDirection_of_invalid _ Hd).
  eexists. split; [reflexivity|]. repeat split.
Qed.

Definition map_changed_8 : S_MapChanged.t := {|
  S_MapChanged.map_index := 2; S_MapChanged.file_name := "D012";
  S_MapChanged.title := "Cave"; S_MapChanged.mini_map := 0;
  S_MapChanged.big_map := 0; S_MapChanged.lights := 0;
  S_MapChanged.location := (3, 4); S_MapChanged.direction := 8;
  S_MapChanged.map_dark_light := 0; S_MapChanged.music := 0;
  S_MapChanged.weather := 0 |}.

(** C3 at a message whose direction byte is 8, on the crowded state: the
    reducer raises [ValueError]; the map identity is already the
    message's, and the player, the monster, the NPC and the ground item
    of the old map are all still in their tables. *)
Lemma map_changed_direction_8_keeps_entities :
  snd (on_map_changed map_changed_8 crowded)
    = Raise (ValueError "not a valid MirDirection") /\
  map_index (fst (on_map_changed map_changed_8 crowded)) = 2 /\
  map_file (fst (on_map_changed map_changed_8 crowded)) = "D012" /\
  map_title (fst (on_map_changed map_changed_8 crowded)) = "Cave" /\
  players (fst (on_map_changed map_changed_8 crowded)) !! 5 = Some 0%nat /\
  monsters (fst (on_map_changed map_changed_8 crowded)) !! 5 = Some 1%nat /\
  npcs (fst (on_map_changed map_changed_8 crowded)) !! 6 = Some 2%nat /\
  ground_items (fst (on_map_changed map_changed_8 crowded)) !! 7 = Some 3%nat.
Proof. repeat split; vm_compute; reflexivity. Qed.

(** ** Logout *)

(** C10.  A logout-success message empties the four nearby-object tables,
    so that no id has an entry in any of them, replaces the character
    roster by the message's and sets the stage to character select.  The
    rest of the state stays, and the reducer cannot raise. *)
Theorem logout_success_clears (pkt : S_LogOutSuccess.t) (s : GameState) :
  players (on_logout_success pkt s) = ∅ /\
  monsters (on_logout_success pkt s) = ∅ /\
  npcs (on_logout_success pkt s) = ∅ /\
  ground_items (on_logout_success pkt s) = ∅ /\
  (forall t oid, t ∈ tables (on_logout_success pkt s) ->
     entry t (on_logout_success pkt s) oid = None) /\
  characters (on_logout_success pkt s) = S_LogOutSuccess.characters pkt /\
  stage (on_logout_success pkt s) = SELECT /\
  on_logout_success pkt s
    = set_ground_items ∅ (set_npcs ∅ (set_monsters ∅ (set_players ∅
        (set_stage SELECT (set_characters (S_LogOutSuccess.characters pkt) s))))).
Proof.
  repeat split.
  intros t oid Ht. unfold entry.
  assert (Hempty : t = ∅).
  { cbn in Ht. repeat (apply elem_of_cons in Ht as [->|Ht]; [reflexivity|]).
    now apply elem_of_nil in Ht. }
  now rewrite Hempty, lookup_empty.
Qed.

Example logout_after_crowd :
  tables (on_logout_success {| S_LogOutSuccess.characters := [PStr "Hero"] |} crowded)
    = [∅; ∅; ∅; ∅] /\
  stage (on_logout_success {| S_LogOutSuccess.characters := [PStr "Hero"] |} crowded)
    = SELECT.
Proof. split; reflexivity. Qed.

(** The entity life cycle of the specification: a monster appears, walks,
    dies and is removed. *)
Example entity_lifecycle :
  let appear := {| S_ObjectMonster.object_id := 5; S_ObjectMonster.name := "Deer";
                   S_ObjectMonster.location := (10, 10);
                   S_ObjectMonster.direction := 0; S_ObjectMonster.dead := false |} in
  let walk := {| S_ObjectWalk.object_id := 5; S_ObjectWalk.location := (10, 11);
                 S_ObjectWalk.direction := 4 |} in
  let died := {| S_ObjectDied.object_id := 5; S_ObjectDied.location := (10, 11);
                 S_ObjectDied.direction := 4 |} in
  let s1 := on_object_monster appear init in
  let s2 := on_object_walk walk s1 in
  let s3 := on_object_died died s2 in
  let s4 := on_object_remove {| S_ObjectRemove.object_id := 5 |} s3 in
  ObjectInfo.location <$> entry (monsters s2) s2 5 = Some (10, 11) /\
  ObjectInfo.dead <$> entry (monsters s3) s3 5 = Some true /\
  ObjectInfo.location <$> entry (monsters s3) s3 5 = Some (10, 11) /\
  Forall (fun t => t !! 5 = None) (tables s4).
Proof.
  cbv zeta. split; [|split; [|split]]; try (vm_compute; reflexivity).
  repeat constructor; vm_compute; reflexivity.
Qed.

End State.

(* ===================================================================== *)
(** * client.py: the waiter registry                                      *)
(* ===================================================================== *)

Module Client.
Import Py.

(** The identity of an [asyncio.Future]. *)
Definition fut := nat.

Section Waiters.

Variable Packet : Type.

(** The [packet_id] class attribute of a decoded packet. *)
Variable packet_id : Packet -> Z.

(** The state of a future: pending, holding a result, or cancelled. *)
Inductive future_state :=
| FPending
| FResult (pkt : Packet)
| FCancelled.

(** The part of [MirClient] the correlator works on: [self._waiters], and
    the futures it refers to.  [next_fut] is the identity the next
    [create_future()] returns. *)
Record MirClient := {
  _waiters : gmap Z (list fut);
  futures : gmap fut future_state;
  next_fut : fut
}.

(** [MirClient.__init__]: [self._waiters = {}]. *)
Definition init : MirClient :=
  {| _waiters := ∅; futures := ∅; next_fut := 0%nat |}.

(** [self._waiters.get(pid, [])]. *)
Definition waiters_get (w : gmap Z (list fut)) (pid : Z) : list fut :=
  default [] (w !! pid).

(** [fut.done()]: true once the future has a result or is cancelled. *)
Definition done (c : MirClient) (f : fut) : bool :=
  match futures c !! f with
  | Some FPending => false
  | _ => true
  end.

(** [fut.set_result(pkt)] on a pending future. *)
Definition set_result (f : fut) (pkt : Packet) (c : MirClient) : MirClient :=
  {| _waiters := _waiters c;
     futures := <[f := FResult pkt]> (futures c);
     next_fut := next_fut c |}.

(** [f.cancel()]: a pending future becomes cancelled, a done one is left
    alone. *)
Definition cancel (f : fut) (c : MirClient) : MirClient :=
  if done c f then c
  else {| _waiters := _waiters c;
          futures := <[f := FCancelled]> (futures c);
          next_fut := next_fut c |}.

(** [f.result()] on a done future. *)
Definition result (c : MirClient) (f : fut) : outcome Packet :=
  match futures c !! f with
  | Some (FResult pkt) => Return pkt
  | Some FCancelled => Raise CancelledError
  | _ => Raise (OtherException "InvalidStateError")
  end.

(** [_dispatch_waiter]:
<<
    pid = pkt.packet_id
    waiters = self._waiters.get(pid, [])
    for fut in waiters[:]:
        if not fut.done():
            fut.set_result(pkt)
>> *)
Definition fulfil (pkt : Packet) (c : MirClient) (f : fut) : MirClient :=
  if done c f then c else set_result f pkt c.

Definition _dispatch_waiter (pkt : Packet) (c : MirClient) : MirClient :=
  let pid := packet_id pkt in
  let waiters := waiters_get (_waiters c) pid in
  foldl (fulfil pkt) c waiters.

(** [MirClient.__init__] wires the correlator into the connection with
    [self._conn.on_any_packet(self._dispatch_waiter)]: the connection's
    any-packet callback is [_dispatch_waiter], which returns [None] and
    does not raise. *)
Definition waiter_callback : Connection.Callable Packet MirClient :=
  fun pkt c => (_dispatch_waiter pkt c, Return tt).

(** The first part of [_wait_for], up to the [await]:
<<
    ids = [packet_id] + (alt_ids or [])
    futures = []
    for pid in ids:
        fut = asyncio.get_event_loop().create_future()
        self._waiters.setdefault(pid, []).append(fut)
        futures.append(fut)
>>
    The result is the client afterwards and the list [futures]. *)
Fixpoint register (ids : list Z) (c : MirClient) : MirClient * list fut :=
  match ids with
  | [] => (c, [])
  | pid :: ids =>
      let f := next_fut c in
      let c := {| _waiters := <[pid := waiters_get (_waiters c) pid ++ [f]]> (_waiters c);
                  futures := <[f := FPending]> (futures c);
                  next_fut := S f |} in
      let '(c, futs) := register ids c in
      (c, f :: futs)
  end.

(** [waiters.remove(f)] guarded by [if f in waiters]: the first occurrence
    of [f] goes, and a list without [f] is left alone. *)
Fixpoint list_remove (f : fut) (waiters : list fut) : list fut :=
  match waiters with
  | [] => []
  | x :: waiters => if decide (x = f) then waiters else x :: list_remove f waiters
  end.

(** The [finally] block of [_wait_for]:
<<
    for pid in ids:
        waiters = self._waiters.get(pid, [])
        for f in futures:
            if f in waiters:
                waiters.remove(f)
>>
    [get] returns the list the dict holds, which is then changed in place;
    for a kind the dict does not have, the default list is a fresh empty
    one and nothing is removed. *)
Definition cleanup_kind (futs : list fut) (w : gmap Z (list fut)) (pid : Z)
  : gmap Z (list fut) :=
  match w !! pid with
  | Some waiters => <[pid := foldl (fun l f => list_remove f l) waiters futs]> w
  | None => w
  end.

Definition cleanup (ids : list Z) (futs : list fut) (c : MirClient) : MirClient :=
  {| _waiters := foldl (cleanup_kind futs) (_waiters c) ids;
     futures := futures c;
     next_fut := next_fut c |}.

(** The second part of [_wait_for], from the moment [asyncio.wait] hands
    back [(done, pending)], that is, when one of the futures is done or
    the timeout has elapsed:
<<
    for f in pending:
        f.cancel()
    if not done:
        raise TimeoutError(...)
    return done.pop().result()
>>
    followed by the [finally] block.  [done] is a set, so which of several
    done futures [pop()] takes is not determined; [pick] chooses.  The
    message of the [TimeoutError] is given without the packet id that the
    f-string appends. *)
Definition resume (pick : nat) (ids : list Z) (futs : list fut) (c : MirClient)
  : MirClient * outcome Packet :=
  let done_ := filter (fun f => done c f = true) futs in
  let pending := filter (fun f => done c f = false) futs in
  let c := foldl (fun c f => cancel f c) c pending in
  let out :=
    match done_ with
    | [] => Raise (TimeoutError "Timed out waiting for packet")
    | f0 :: _ => result c (nth (pick mod length done_) done_ f0)
    end in
  (cleanup ids futs c, out).

(** [_wait_for(packet_id, timeout, alt_ids)] as the two parts around its
    one suspension point, with the messages the receive loop dispatches
    while the call is suspended. *)
Definition _wait_for (pick : nat) (pid : Z) (alt_ids : list Z)
  (arrivals : list Packet) (c : MirClient) : MirClient * outcome Packet :=
  let ids := pid :: alt_ids in
  let '(c, futs) := register ids c in
  let c := foldl (fun c pkt => _dispatch_waiter pkt c) c arrivals in
  resume pick ids futs c.

(** The remaining way for the call to leave its suspension point: the
    task that runs it is cancelled while it is suspended.
    [CancelledError] is raised at [await asyncio.wait(...)] (which leaves
    the futures it was given as they are), the cancel loop and the
    [return] are skipped, and only the [finally] block runs. *)
Definition interrupted (ids : list Z) (futs : list fut) (c : MirClient)
  : MirClient * outcome Packet :=
  (cleanup ids futs c, Raise CancelledError).

(** How the [await] ends: [asyncio.wait] returns (a future is done or the
    timeout has elapsed; [pick] as for [resume]), or the task is
    cancelled. *)
Inductive wakeup :=
| Wait_returned (pick : nat)
| Task_cancelled.

(** [_wait_for] with every way it can end. *)
Definition _wait_for_ending (wk : wakeup) (pid : Z) (alt_ids : list Z)
  (arrivals : list Packet) (c : MirClient) : MirClient * outcome Packet :=
  let ids := pid :: alt_ids in
  let '(c, futs) := register ids c in
  let c := foldl (fun c pkt => _dispatch_waiter pkt c) c arrivals in
  match wk with
  | Wait_returned pick => resume pick ids futs c
  | Task_cancelled => interrupted ids futs c
  end.

(** ** The registry's invariant *)

(** Every list of the registry is duplicate free and holds only futures
    that have been created. *)
Definition wf (c : MirClient) : Prop :=
  forall pid l, _waiters c !! pid = Some l ->
    NoDup l /\ forall f, f ∈ l -> (f < next_fut c)%nat.

Lemma registry_wf_init : wf init.
Proof. intros pid l H. cbn in H. now rewrite lookup_empty in H. Qed.

Lemma wf_get c pid :
  wf c ->
  NoDup (waiters_get (_waiters c) pid) /\
  forall f, f ∈ waiters_get (_waiters c) pid -> (f < next_fut c)%nat.
Proof.
  intros Hwf. unfold waiters_get.
  destruct (_waiters c !! pid) as [l|] eqn:Hl; cbn.
  - now apply (Hwf pid).
  - split; [constructor|]. intros f Hf. now apply elem_of_nil in Hf.
Qed.

(** ** Removal *)

Lemma filter_all (P : fut -> Prop) `{forall x, Decision (P x)} (l : list fut) :
  (forall x, x ∈ l -> P x) -> filter P l = l.
Proof.
  induction l as [|x l IH]; [reflexivity|]. intros Hall.
  rewrite filter_cons_True by (apply Hall; left).
  f_equal. apply IH. intros y Hy. apply Hall. now right.
Qed.

Lemma list_remove_filter f l :
  NoDup l -> list_remove f l = filter (fun x => x <> f) l.
Proof.
  induction l as [|x l IH]; [reflexivity|].
  intros Hnd. apply NoDup_cons in Hnd as [Hx Hnd]. cbn [list_remove].
  destruct (decide (x = f)) as [->|Hne].
  - rewrite filter_cons_False by (intros H; now apply H).
    symmetry. apply filter_all. intros y Hy ->. contradiction.
  - rewrite filter_cons_True by exact Hne. now rewrite IH.
Qed.

(** Removing the futures of a call one after the other leaves the
    futures of the other calls, in their order. *)
Lemma remove_all_filter futs l :
  NoDup l ->
  foldl (fun l f => list_remove f l) l futs = filter (fun x => x ∉ futs) l.
Proof.
  revert l. induction futs as [|f futs IH]; intros l Hnd.
  - cbn. symmetry. apply filter_all. intros x _. apply not_elem_of_nil.
  - cbn [foldl]. rewrite list_remove_filter by exact Hnd.
    rewrite IH by now apply NoDup_filter.
    rewrite list_filter_filter. apply list_filter_iff. intros x.
    rewrite not_elem_of_cons. tauto.
Qed.

Definition lists_NoDup (w : gmap Z (list fut)) : Prop :=
  forall pid l, w !! pid = Some l -> NoDup l.

Lemma waiters_get_NoDup w pid : lists_NoDup w -> NoDup (waiters_get w pid).
Proof.
  intros Hw. unfold waiters_get.
  destruct (w !! pid) as [l|] eqn:Hl; cbn; [eauto|constructor].
Qed.

Lemma cleanup_kind_get futs w pid pid' :
  lists_NoDup w ->
  waiters_get (cleanup_kind futs w pid) pid' =
    if decide (pid' = pid)
    then filter (fun x => x ∉ futs) (waiters_get w pid')
    else waiters_get w pid'.
Proof.
  intros Hw. unfold cleanup_kind, waiters_get.
  destruct (decide (pid' = pid)) as [->|Hne].
  - destruct (w !! pid) as [l|] eqn:Hl; cbn.
    + rewrite lookup_insert_eq. cbn. apply remove_all_filter. eauto.
    + now rewrite Hl.
  - destruct (w !! pid) as [l|] eqn:Hl; [|reflexivity].
    now rewrite lookup_insert_ne by done.
Qed.

Lemma cleanup_kind_NoDup futs w pid :
  lists_NoDup w -> lists_NoDup (cleanup_kind futs w pid).
Proof.
  intros Hw pid' l'. unfold cleanup_kind.
  destruct (w !! pid) as [l|] eqn:Hl; [|apply Hw].
  destruct (decide (pid' = pid)) as [->|Hne].
  - rewrite lookup_insert_eq. intros [= <-].
    rewrite remove_all_filter by eauto. apply NoDup_filter. eauto.
  - rewrite lookup_insert_ne by done. apply Hw.
Qed.

(** The [finally] block, kind by kind: the lists of the kinds the call
    waited for lose the call's futures and nothing else; the lists of all
    other kinds are not touched. *)
Lemma cleanup_get ids futs w pid :
  lists_NoDup w ->
  waiters_get (foldl (cleanup_kind futs) w ids) pid =
    if decide (pid ∈ ids)
    then filter (fun x => x ∉ futs) (waiters_get w pid)
    else waiters_get w pid.
Proof.
  revert w. induction ids as [|k ids IH]; intros w Hw.
  - cbn. rewrite decide_False by apply not_elem_of_nil. reflexivity.
  - cbn [foldl]. rewrite IH by now apply cleanup_kind_NoDup.
    rewrite cleanup_kind_get by exact Hw.
    destruct (decide (pid = k)) as [->|Hne].
    + rewrite (decide_True (P := k ∈ k :: ids)) by left.
      destruct (decide (k ∈ ids)); [|reflexivity].
      apply list_filter_filter_r. auto.
    + destruct (decide (pid ∈ ids)) as [Hin|Hnin].
      * rewrite decide_True by now right. reflexivity.
      * rewrite decide_False; [reflexivity|].
        intros [?|?]%elem_of_cons; contradiction.
Qed.

(** ** Registration *)

Lemma register_spec ids c c1 futs :
  register ids c = (c1, futs) ->
  futs = seq (next_fut c) (length ids) /\
  next_fut c1 = (next_fut c + length ids)%nat /\
  (forall pid, exists news,
     waiters_get (_waiters c1) pid = waiters_get (_waiters c) pid ++ news /\
     (forall f, f ∈ news -> f ∈ futs) /\ NoDup news /\
     (pid ∉ ids -> news = [])) /\
  (forall i pid f, ids !! i = Some pid -> futs !! i = Some f ->
     f ∈ waiters_get (_waiters c1) pid) /\
  (forall f, f ∈ futs -> futures c1 !! f = Some FPending) /\
  (forall f, (f < next_fut c)%nat -> futures c1 !! f = futures c !! f).
Proof.
  revert c c1 futs. induction ids as [|k ids IH]; intros c c1 futs.
  - cbn. intros [= <- <-]. split; [reflexivity|]. split; [lia|].
    split; [|split; [|split]].
    + intros pid. exists []. rewrite app_nil_r.
      repeat split; auto using NoDup_nil_2.
    + intros i pid f H. discriminate.
    + intros f Hf. now apply elem_of_nil in Hf.
    + reflexivity.
  - cbn [register].
    set (c' := {| _waiters := <[k := waiters_get (_waiters c) k ++ [next_fut c]]> (_waiters c);
                  futures := <[next_fut c := FPending]> (futures c);
                  next_fut := S (next_fut c) |}).
    destruct (register ids c') as [c2 futs'] eqn:Hreg.
    intros [= <- <-].
    destruct (IH _ _ _ Hreg) as (Hfuts & Hnext & Hlists & Hpos & Hpend & Hold).
    cbn [next_fut c'] in *.
    assert (Hfresh : forall f, f ∈ futs' -> (next_fut c < f)%nat).
    { intros f Hf. rewrite Hfuts in Hf. apply elem_of_seq in Hf. cbn in Hf. lia. }
    split; [cbn; now rewrite Hfuts|]. split; [cbn; lia|].
    split; [|split; [|split]].
    + intros pid. destruct (Hlists pid) as (news & Hget & Hsub & Hnd & Hout).
      destruct (decide (pid = k)) as [->|Hne].
      * exists (next_fut c :: news). split; [|split; [|split]].
        -- rewrite Hget. unfold waiters_get at 1. cbn.
           rewrite lookup_insert_eq. cbn. now rewrite <- app_assoc.
        -- intros f [->|Hf]%elem_of_cons; [left|right; auto].
        -- apply NoDup_cons. split; [|exact Hnd].
           intros Hin. apply Hsub, Hfresh in Hin. lia.
        -- intros Hnin. exfalso. apply Hnin. left.
      * exists news. split; [|split; [|split]].
        -- rewrite Hget. unfold waiters_get at 1. cbn.
           now rewrite lookup_insert_ne by done.
        -- intros f Hf. right. auto.
        -- exact Hnd.
        -- intros Hnin. apply Hout. intros Hin. apply Hnin. now right.
    + intros [|i] pid f; cbn.
      * intros [= <-] [= <-]. destruct (Hlists k) as (news & Hget & _).
        rewrite Hget. unfold waiters_get at 1. cbn. rewrite lookup_insert_eq. cbn.
        apply elem_of_app. left. apply elem_of_app. right. left.
      * apply Hpos.
    + intros f [->|Hf]%elem_of_cons.
      * rewrite Hold by lia. cbn. apply lookup_insert_eq.
      * auto.
    + intros f Hf. rewrite Hold by lia. cbn. apply lookup_insert_ne. lia.
Qed.

Lemma register_wf ids c c1 futs :
  register ids c = (c1, futs) -> wf c -> wf c1.
Proof.
  intros Hreg Hwf pid l Hl.
  destruct (register_spec _ _ _ _ Hreg) as (Hfuts & Hnext & Hlists & _).
  destruct (Hlists pid) as (news & Hget & Hsub & Hnd & _).
  destruct (wf_get c pid Hwf) as [Hnd0 Hlt0].
  assert (Hl' : waiters_get (_waiters c1) pid = l)
    by (unfold waiters_get; now rewrite Hl).
  rewrite Hl' in Hget. subst l.
  assert (Hnew : forall f, f ∈ news -> (next_fut c <= f < next_fut c1)%nat).
  { intros f Hf. apply Hsub in Hf. rewrite Hfuts in Hf.
    apply elem_of_seq in Hf. lia. }
  split.
  - apply NoDup_app. split; [exact Hnd0|]. split; [|exact Hnd].
    intros f Hf Hf'. apply Hlt0 in Hf. apply Hnew in Hf'. lia.
  - intros f [Hf|Hf]%elem_of_app.
    + apply Hlt0 in Hf. lia.
    + apply Hnew in Hf. lia.
Qed.

(** ** Dispatch *)

Lemma done_false c f : done c f = false <-> futures c !! f = Some FPending.
Proof.
  unfold done. destruct (futures c !! f) as [[]|]; split; congruence.
Qed.

Lemma fulfil_fold_frame pkt l c :
  _waiters (foldl (fulfil pkt) c l) = _waiters c /\
  next_fut (foldl (fulfil pkt) c l) = next_fut c.
Proof.
  revert c. induction l as [|x l IH]; intros c; [done|].
  cbn [foldl]. destruct (IH (fulfil pkt c x)) as [-> ->].
  unfold fulfil. now destruct (done c x).
Qed.

(** A pass of [_dispatch_waiter] over a list of futures gives the packet
    to every future of the list that is still pending, and to no other. *)
Lemma fulfil_fold_futures pkt l c f :
  futures (foldl (fulfil pkt) c l) !! f =
    if decide (f ∈ l /\ done c f = false)
    then Some (FResult pkt)
    else futures c !! f.
Proof.
  revert c. induction l as [|x l IH]; intros c.
  - cbn. rewrite decide_False; [reflexivity|].
    intros [H _]. now apply elem_of_nil in H.
  - cbn [foldl]. rewrite IH.
    assert (Hstep : futures (fulfil pkt c x) !! f =
              if decide (f = x /\ done c f = false)
              then Some (FResult pkt) else futures c !! f).
    { unfold fulfil. destruct (done c x) eqn:Hd.
      - rewrite decide_False; [reflexivity|]. intros [-> Hp]. congruence.
      - cbn. destruct (decide (f = x)) as [->|Hne].
        + rewrite lookup_insert_eq. now rewrite decide_True.
        + rewrite lookup_insert_ne by done.
          rewrite decide_False; [reflexivity|]. now intros [? _]. }
    assert (Hdone : done (fulfil pkt c x) f =
              if decide (f = x /\ done c f = false) then true else done c f).
    { unfold done at 1. rewrite Hstep.
      destruct (decide (f = x /\ done c f = false)); reflexivity. }
    rewrite Hstep, Hdone.
    destruct (decide (f = x /\ done c f = false)) as [[-> Hp]|Hn1].
    + rewrite decide_False by (intros [_ ?]; discriminate).
      rewrite decide_True; [reflexivity|]. split; [left|exact Hp].
    + destruct (decide (f ∈ l /\ done c f = false)) as [[Hin Hp]|Hn2].
      * rewrite decide_True; [reflexivity|]. split; [now right|exact Hp].
      * rewrite decide_False; [reflexivity|].
        intros [[->|Hin]%elem_of_cons Hp]; [apply Hn1|apply Hn2]; auto.
Qed.

Lemma dispatch_frame pkt c :
  _waiters (_dispatch_waiter pkt c) = _waiters c /\
  next_fut (_dispatch_waiter pkt c) = next_fut c.
Proof. apply fulfil_fold_frame. Qed.

Lemma dispatch_futures pkt c f :
  futures (_dispatch_waiter pkt c) !! f =
    if decide (f ∈ waiters_get (_waiters c) (packet_id pkt) /\ done c f = false)
    then Some (FResult pkt)
    else futures c !! f.
Proof. apply fulfil_fold_futures. Qed.

Lemma dispatch_all_frame arrivals c :
  _waiters (foldl (fun c pkt => _dispatch_waiter pkt c) c arrivals) = _waiters c /\
  next_fut (foldl (fun c pkt => _dispatch_waiter pkt c) c arrivals) = next_fut c.
Proof.
  revert c. induction arrivals as [|m arrivals IH]; intros c; [done|].
  cbn [foldl]. destruct (IH (_dispatch_waiter m c)) as [-> ->].
  apply dispatch_frame.
Qed.

(** In the receive loop, the guarded call of the any-packet callback is
    one [_dispatch_waiter], with nothing logged and nothing propagated. *)
Lemma guarded_waiter_callback pkt c err :
  Connection.guarded Packet MirClient waiter_callback pkt c err
  = (_dispatch_waiter pkt c, [], None).
Proof. reflexivity. Qed.

(** ** Resumption *)

Lemma cancel_fold_frame l c :
  _waiters (foldl (fun c f => cancel f c) c l) = _waiters c /\
  next_fut (foldl (fun c f => cancel f c) c l) = next_fut c.
Proof.
  revert c. induction l as [|x l IH]; intros c; [done|].
  cbn [foldl]. destruct (IH (cancel x c)) as [-> ->].
  unfold cancel. now destruct (done c x).
Qed.

(** Cancelling the pending futures leaves a result where it is. *)
Lemma cancel_fold_result l c f m :
  futures c !! f = Some (FResult m) ->
  futures (foldl (fun c f => cancel f c) c l) !! f = Some (FResult m).
Proof.
  revert c. induction l as [|x l IH]; intros c Hf; [exact Hf|].
  cbn [foldl]. apply IH. unfold cancel.
  destruct (done c x) eqn:Hd; [exact Hf|]. cbn.
  apply done_false in Hd.
  rewrite lookup_insert_ne; [exact Hf|]. intros ->. congruence.
Qed.

Lemma resume_waiters pick ids futs c :
  _waiters (fst (resume pick ids futs c))
  = foldl (cleanup_kind futs) (_waiters c) ids /\
  next_fut (fst (resume pick ids futs c)) = next_fut c.
Proof.
  unfold resume. cbn.
  now destruct (cancel_fold_frame (filter (fun f => done c f = false) futs) c)
    as [-> ->].
Qed.

Lemma filter_none (P : fut -> Prop) `{forall x, Decision (P x)} (l : list fut) :
  (forall x, x ∈ l -> ~ P x) -> filter P l = [].
Proof.
  induction l as [|x l IH]; [reflexivity|]. intros Hall.
  rewrite filter_cons_False by (apply Hall; left).
  apply IH. intros y Hy. apply Hall. now right.
Qed.

(** If none of the call's futures is done, the call raises
    [TimeoutError]. *)
Lemma resume_timeout pick ids futs c :
  (forall f, f ∈ futs -> futures c !! f = Some FPending) ->
  snd (resume pick ids futs c) = Raise (TimeoutError "Timed out waiting for packet").
Proof.
  intros Hp. unfold resume. cbn.
  rewrite (filter_none (fun f => done c f = true)); [reflexivity|].
  intros f Hf Hd. apply Hp, done_false in Hf. congruence.
Qed.

(** If every future of the call is pending or holds a packet of some set,
    and at least one holds a packet, the call returns a packet of that
    set. *)
Lemma resume_result pick ids futs c (Q : Packet -> Prop) :
  (forall f, f ∈ futs ->
     futures c !! f = Some FPending \/
     exists m, futures c !! f = Some (FResult m) /\ Q m) ->
  (exists f, f ∈ futs /\ done c f = true) ->
  exists m, snd (resume pick ids futs c) = Return m /\ Q m.
Proof.
  intros Hinv (f1 & Hf1 & Hd1). unfold resume. cbn.
  set (done_ := filter (fun f => done c f = true) futs).
  assert (Hne : f1 ∈ done_) by (apply list_elem_of_filter; auto).
  destruct done_ as [|f0 rest] eqn:Hdone; [now apply elem_of_nil in Hne|].
  assert (Hlt : (pick mod length (f0 :: rest) < length (f0 :: rest))%nat)
    by (apply Nat.mod_upper_bound; cbn; lia).
  set (fd := nth (pick mod length (f0 :: rest)) (f0 :: rest) f0).
  assert (Hfd : fd ∈ f0 :: rest).
  { apply list_elem_of_In. apply nth_In. exact Hlt. }
  rewrite <- Hdone in Hfd. apply list_elem_of_filter in Hfd as [Hd Hin].
  destruct (Hinv fd Hin) as [Hp|(m & Hm & HQ)].
  - apply done_false in Hp. congruence.
  - exists m. split; [|exact HQ]. unfold result.
    now rewrite (cancel_fold_result _ _ _ _ Hm).
Qed.

(** Whatever state a call resumes in (other calls may have registered
    and deregistered meanwhile), its [finally] block removes its own
    futures from the lists of its kinds and leaves every other waiter
    where it is. *)
Lemma resume_removes_own_futures pick ids futs c k :
  lists_NoDup (_waiters c) ->
  waiters_get (_waiters (fst (resume pick ids futs c))) k =
    if decide (k ∈ ids)
    then filter (fun x => x ∉ futs) (waiters_get (_waiters c) k)
    else waiters_get (_waiters c) k.
Proof.
  intros Hnd. rewrite (proj1 (resume_waiters pick ids futs c)).
  now apply cleanup_get.
Qed.

(** ** A call and the messages that arrive while it is suspended *)

Lemma dispatch_done_mono pkt c f :
  done c f = true -> done (_dispatch_waiter pkt c) f = true.
Proof.
  intros Hd. unfold done at 1. rewrite dispatch_futures.
  rewrite decide_False by (intros [_ ?]; congruence). exact Hd.
Qed.

Lemma dispatch_done_waiter pkt c f :
  f ∈ waiters_get (_waiters c) (packet_id pkt) ->
  done (_dispatch_waiter pkt c) f = true.
Proof.
  intros Hin. destruct (done c f) eqn:Hd; [now apply dispatch_done_mono|].
  unfold done. rewrite dispatch_futures. now rewrite decide_True.
Qed.

Section Suspended.

Variables (ids : list Z) (futs : list fut) (c1 : MirClient).

Hypothesis futs_pending : forall f, f ∈ futs -> futures c1 !! f = Some FPending.
Hypothesis futs_kinds :
  forall f k, f ∈ futs -> f ∈ waiters_get (_waiters c1) k -> k ∈ ids.
Hypothesis futs_registered :
  forall i pid f, ids !! i = Some pid -> futs !! i = Some f ->
    f ∈ waiters_get (_waiters c1) pid.
Hypothesis futs_length : length futs = length ids.

Let run (arrivals : list Packet) : MirClient :=
  foldl (fun c pkt => _dispatch_waiter pkt c) c1 arrivals.

(** Each future of the call is pending or holds one of the arrived
    packets, of a kind the call waits for. *)
Lemma suspended_states arrivals f :
  f ∈ futs ->
  futures (run arrivals) !! f = Some FPending \/
  exists m, futures (run arrivals) !! f = Some (FResult m) /\
            m ∈ arrivals /\ packet_id m ∈ ids.
Proof.
  intros Hf. induction arrivals as [|m arrivals IH] using rev_ind.
  - left. now apply futs_pending.
  - unfold run. rewrite foldl_snoc. fold (run arrivals).
    rewrite dispatch_futures.
    destruct (decide _) as [[Hin Hp]|Hn].
    + right. exists m. split; [reflexivity|]. split.
      * apply elem_of_app. right. left.
      * apply (futs_kinds f); [exact Hf|].
        unfold run in Hin.
        now rewrite (proj1 (dispatch_all_frame arrivals c1)) in Hin.
    + destruct IH as [IH|(m' & Hm' & Hin' & Hk)]; [now left|].
      right. exists m'. split; [exact Hm'|]. split; [|exact Hk].
      apply elem_of_app. now left.
Qed.

(** Once a packet of one of the call's kinds has arrived, one of its
    futures is done. *)
Lemma suspended_done arrivals :
  (exists m, m ∈ arrivals /\ packet_id m ∈ ids) ->
  exists f, f ∈ futs /\ done (run arrivals) f = true.
Proof.
  induction arrivals as [|m arrivals IH] using rev_ind.
  - intros (m & Hm & _). now apply elem_of_nil in Hm.
  - intros (m' & Hm' & Hk). unfold run. rewrite foldl_snoc. fold (run arrivals).
    apply elem_of_app in Hm' as [Hm'|Hm'].
    + destruct IH as (f & Hf & Hd); [eauto|].
      exists f. split; [exact Hf|]. now apply dispatch_done_mono.
    + apply list_elem_of_singleton in Hm' as ->.
      apply list_elem_of_lookup in Hk as [i Hi].
      destruct (lookup_lt_is_Some_2 futs i) as [f Hfi].
      { rewrite futs_length. eapply lookup_lt_Some; eauto. }
      exists f. split; [eapply list_elem_of_lookup_2; eauto|].
      apply dispatch_done_waiter. unfold run.
      rewrite (proj1 (dispatch_all_frame arrivals c1)).
      now apply (futs_registered i).
Qed.

End Suspended.

(** C2.  For a call [_wait_for(pid, timeout, alt_ids)] made in a
    well-formed client, whatever arrives while it is suspended and
    whichever way it ends:
    - afterwards the registry gives, for every kind, exactly the waiters
      it gave before the call: all futures the call registered, for [pid]
      and for every alternate, fired or not, are gone, and no other
      waiter has been removed (read with [self._waiters.get(kind, [])], as
      the code reads it; a kind the call added to the dict stays bound to
      the empty list);
    - if no packet of one of the kinds arrived, the call raises
      [TimeoutError];
    - if one did, the call returns a packet that arrived and whose kind
      is one of its kinds. *)
Theorem wait_for_cleans_up pick pid alt_ids arrivals (c c' : MirClient)
  (out : outcome Packet) :
  wf c ->
  _wait_for pick pid alt_ids arrivals c = (c', out) ->
  (forall k, waiters_get (_waiters c') k = waiters_get (_waiters c) k) /\
  wf c' /\
  ((forall m, m ∈ arrivals -> packet_id m ∉ pid :: alt_ids) ->
     out = Raise (TimeoutError "Timed out waiting for packet")) /\
  ((exists m, m ∈ arrivals /\ packet_id m ∈ pid :: alt_ids) ->
     exists m, out = Return m /\ m ∈ arrivals /\ packet_id m ∈ pid :: alt_ids).
Proof.
  intros Hwf. unfold _wait_for.
  set (ids := pid :: alt_ids).
  destruct (register ids c) as [c1 futs] eqn:Hreg.
  set (c2 := foldl (fun c pkt => _dispatch_waiter pkt c) c1 arrivals).
  intros Hres.
  assert (Hc' : c' = fst (resume pick ids futs c2)) by now rewrite Hres.
  assert (Hout : out = snd (resume pick ids futs c2)) by now rewrite Hres.
  clear Hres.
  destruct (register_spec _ _ _ _ Hreg)
    as (Hfuts & Hnext & Hlists & Hpos & Hpend & Hold).
  pose proof (register_wf _ _ _ _ Hreg Hwf) as Hwf1.
  assert (Hfresh : forall f, f ∈ futs -> (next_fut c <= f)%nat).
  { intros f Hf. rewrite Hfuts in Hf. apply elem_of_seq in Hf. lia. }
  assert (Hkinds : forall f k, f ∈ futs -> f ∈ waiters_get (_waiters c1) k -> k ∈ ids).
  { intros f k Hf Hin. destruct (decide (k ∈ ids)) as [|Hnin]; [done|exfalso].
    destruct (Hlists k) as (news & Hget & _ & _ & Hnone).
    rewrite Hget, (Hnone Hnin), app_nil_r in Hin.
    apply (proj2 (wf_get c k Hwf)) in Hin. apply Hfresh in Hf. lia. }
  assert (Hlen : length futs = length ids) by (rewrite Hfuts; apply length_seq).
  assert (Hget' : forall k, waiters_get (_waiters c') k = waiters_get (_waiters c) k).
  { intros k. rewrite Hc', (proj1 (resume_waiters _ _ _ _)).
    unfold c2. rewrite (proj1 (dispatch_all_frame arrivals c1)).
    rewrite cleanup_get by (intros k' l Hl; now apply (Hwf1 k')).
    destruct (Hlists k) as (news & Hget & Hsub & _ & Hnone). rewrite Hget.
    destruct (decide (k ∈ ids)) as [Hin|Hnin].
    - rewrite filter_app, filter_all, (filter_none _ news), app_nil_r; auto.
      intros f Hf Hnf. apply (proj2 (wf_get c k Hwf)) in Hf.
      apply Hfresh in Hnf. lia.
    - now rewrite (Hnone Hnin), app_nil_r. }
  split; [exact Hget'|]. split; [|split].
  - intros k l Hl.
    assert (Hl' : waiters_get (_waiters c') k = l)
      by (unfold waiters_get; now rewrite Hl).
    rewrite Hget' in Hl'. subst l.
    destruct (wf_get c k Hwf) as [Hnd Hlt]. split; [exact Hnd|].
    intros f Hf. apply Hlt in Hf.
    rewrite Hc', (proj2 (resume_waiters _ _ _ _)). unfold c2.
    rewrite (proj2 (dispatch_all_frame arrivals c1)). lia.
  - intros Hnone. rewrite Hout. apply resume_timeout. intros f Hf.
    destruct (suspended_states ids futs c1 Hpend Hkinds arrivals f Hf)
      as [Hp|(m & _ & Hm & Hk)]; [exact Hp|].
    now apply Hnone in Hm.
  - intros Hsome. rewrite Hout.
    destruct (resume_result pick ids futs c2
                (fun m => m ∈ arrivals /\ packet_id m ∈ ids)) as (m & Hm & HQ).
    + intros f Hf. apply (suspended_states ids futs c1 Hpend Hkinds arrivals f Hf).
    + now apply (suspended_done ids futs c1 Hpos Hlen).
    + exists m. split; [exact Hm|exact HQ].
Qed.

(** ** Two calls waiting for the same kind *)

Lemma resume_returns pick ids futs c m :
  futs <> [] ->
  (forall f, f ∈ futs -> futures c !! f = Some (FResult m)) ->
  snd (resume pick ids futs c) = Return m.
Proof.
  intros Hne Hall.
  destruct (resume_result pick ids futs c (fun x => x = m)) as (m' & Hm' & ->).
  - intros f Hf. right. exists m. auto.
  - destruct futs as [|f futs]; [done|]. exists f. split; [left|].
    unfold done. now rewrite (Hall f) by left.
  - exact Hm'.
Qed.

Lemma resume_keeps_result pick ids futs c f m :
  futures c !! f = Some (FResult m) ->
  futures (fst (resume pick ids futs c)) !! f = Some (FResult m).
Proof. intros Hf. unfold resume. cbn. now apply cancel_fold_result. Qed.

(** After a dispatch every waiter of the packet's kind is done, so an
    immediately following packet of the same kind finds nobody to
    fulfil. *)
Lemma dispatch_twice pkt pkt' c :
  packet_id pkt' = packet_id pkt ->
  futures (_dispatch_waiter pkt' (_dispatch_waiter pkt c))
  = futures (_dispatch_waiter pkt c).
Proof.
  intros Hk. apply map_eq. intros f. rewrite (dispatch_futures pkt').
  destruct (decide _) as [[Hin Hd]|]; [|reflexivity].
  rewrite (proj1 (dispatch_frame pkt c)), Hk in Hin.
  rewrite (dispatch_done_waiter pkt c f Hin) in Hd. discriminate.
Qed.

(** C1 (as amended).  Two calls [_wait_for(k)] are suspended at the same
    time, each with its own future in the list of kind [k]; two packets
    of kind [k] are dispatched one after the other.  The first packet is
    given to every pending waiter of the kind, hence to both calls; the
    second packet finds both futures done and fulfils neither (it changes
    no future at all).  Both calls return the first packet, whether they
    resume after both packets or right after the first one; neither
    future is fulfilled twice. *)
Theorem same_kind_waiters_share_first_message pickA pickB k m1 m2
  (c cA cB : MirClient) futsA futsB :
  packet_id m1 = k -> packet_id m2 = k ->
  register [k] c = (cA, futsA) ->
  register [k] cA = (cB, futsB) ->
  (forall f, f ∈ futsA ++ futsB ->
     futures cB !! f = Some FPending /\
     futures (_dispatch_waiter m1 cB) !! f = Some (FResult m1) /\
     futures (_dispatch_waiter m2 (_dispatch_waiter m1 cB)) !! f = Some (FResult m1)) /\
  futures (_dispatch_waiter m2 (_dispatch_waiter m1 cB))
    = futures (_dispatch_waiter m1 cB) /\
  snd (resume pickA [k] futsA (_dispatch_waiter m2 (_dispatch_waiter m1 cB)))
    = Return m1 /\
  snd (resume pickB [k] futsB
         (fst (resume pickA [k] futsA (_dispatch_waiter m2 (_dispatch_waiter m1 cB)))))
    = Return m1 /\
  snd (resume pickA [k] futsA (_dispatch_waiter m1 cB)) = Return m1 /\
  snd (resume pickB [k] futsB (fst (resume pickA [k] futsA (_dispatch_waiter m1 cB))))
    = Return m1.
Proof.
  intros Hk1 Hk2 HA HB.
  cbn in HA. injection HA as <- <-.
  cbn in HB. injection HB as <- <-.
  set (n := next_fut c) in *.
  set (cB := {| _waiters := _; futures := _; next_fut := S (S n) |}).
  assert (HgetB : waiters_get (_waiters cB) k
                  = (waiters_get (_waiters c) k ++ [n]) ++ [S n]).
  { unfold waiters_get at 1. cbn. rewrite lookup_insert_eq. cbn.
    unfold waiters_get at 1. rewrite lookup_insert_eq. reflexivity. }
  assert (Hboth : forall f, f ∈ [n] ++ [S n] ->
            f ∈ waiters_get (_waiters cB) k /\ futures cB !! f = Some FPending).
  { intros f Hf. split.
    - rewrite HgetB. rewrite <- app_assoc. apply elem_of_app. now right.
    - cbn in Hf. apply elem_of_cons in Hf as [->|Hf].
      + cbn. rewrite lookup_insert_ne by lia. apply lookup_insert_eq.
      + apply list_elem_of_singleton in Hf as ->. cbn. apply lookup_insert_eq. }
  assert (H1 : forall f, f ∈ [n] ++ [S n] ->
            futures (_dispatch_waiter m1 cB) !! f = Some (FResult m1)).
  { intros f Hf. destruct (Hboth f Hf) as [Hin Hp].
    rewrite dispatch_futures, Hk1. rewrite decide_True; [reflexivity|].
    split; [exact Hin|]. now apply done_false. }
  assert (H2 : futures (_dispatch_waiter m2 (_dispatch_waiter m1 cB))
               = futures (_dispatch_waiter m1 cB))
    by (apply dispatch_twice; congruence).
  split; [|split; [exact H2|]].
  { intros f Hf. split; [apply (Hboth f Hf)|]. split; [now apply H1|].
    rewrite H2. now apply H1. }
  assert (HA1 : forall cx, futures cx = futures (_dispatch_waiter m1 cB) ->
            snd (resume pickA [k] [n] cx) = Return m1 /\
            snd (resume pickB [k] [S n] (fst (resume pickA [k] [n] cx))) = Return m1).
  { intros cx Hcx. split.
    - apply resume_returns; [done|]. intros f Hf. rewrite Hcx. apply H1.
      apply elem_of_app. now left.
    - apply resume_returns; [done|]. intros f Hf. apply resume_keeps_result.
      rewrite Hcx. apply H1. apply elem_of_app. now right. }
  destruct (HA1 _ H2) as [Ha Hb]. destruct (HA1 _ eq_refl) as [Ha' Hb'].
  auto.
Qed.

End Waiters.

Arguments FPending {Packet}.
Arguments FResult {Packet} pkt.
Arguments FCancelled {Packet}.

(** ** A concrete run *)

(** Packets as pairs of a kind and a serial number. *)
Definition numbered : Type := Z * nat.

Definition two_waiters : MirClient numbered :=
  fst (register numbered [7] (fst (register numbered [7] (init numbered)))).

Example two_waiters_registry :
  _waiters numbered two_waiters = {[ 7 := [0%nat; 1%nat] ]}.
Proof. reflexivity. Qed.

(** C1 on two waiters of kind 7 and the packets (7, 1) and (7, 2). *)
Lemma same_kind_waiters_share_first_message_witness :
  register numbered [7] (init numbered)
    = (fst (register numbered [7] (init numbered)), [0%nat]) /\
  register numbered [7] (fst (register numbered [7] (init numbered)))
    = (two_waiters, [1%nat]) /\
  snd (resume numbered 0 [7] [0%nat]
         (_dispatch_waiter numbered fst (7, 2%nat)
            (_dispatch_waiter numbered fst (7, 1%nat) two_waiters)))
    = Return (7, 1%nat) /\
  snd (resume numbered 0 [7] [1%nat]
         (fst (resume numbered 0 [7] [0%nat]
                 (_dispatch_waiter numbered fst (7, 2%nat)
                    (_dispatch_waiter numbered fst (7, 1%nat) two_waiters)))))
    = Return (7, 1%nat).
Proof.
  split; [reflexivity|]. split; [reflexivity|].
  destruct (same_kind_waiters_share_first_message numbered fst 0 0 7
              (7, 1%nat) (7, 2%nat) (init numbered)
              (fst (register numbered [7] (init numbered))) two_waiters
              [0%nat] [1%nat] eq_refl eq_refl eq_refl eq_refl)
    as (_ & _ & Ha & Hb & _).
  split; [exact Ha | exact Hb].
Defined.

(** C1 (as stated) fails: of two calls waiting for kind 7, the second
    does not receive the second packet.  Both futures are fulfilled by the
    first packet, both calls return it, and the second packet reaches
    neither call. *)
Lemma same_kind_waiters_second_message_lost :
  futures numbered (_dispatch_waiter numbered fst (7, 1%nat) two_waiters)
    = {[ 0%nat := FResult (7, 1%nat); 1%nat := FResult (7, 1%nat) ]} /\
  futures numbered (_dispatch_waiter numbered fst (7, 2%nat)
                      (_dispatch_waiter numbered fst (7, 1%nat) two_waiters))
    = {[ 0%nat := FResult (7, 1%nat); 1%nat := FResult (7, 1%nat) ]} /\
  snd (resume numbered 0 [7] [0%nat]
         (_dispatch_waiter numbered fst (7, 2%nat)
            (_dispatch_waiter numbered fst (7, 1%nat) two_waiters)))
    = Return (7, 1%nat) /\
  snd (resume numbered 0 [7] [1%nat]
         (fst (resume numbered 0 [7] [0%nat]
                 (_dispatch_waiter numbered fst (7, 2%nat)
                    (_dispatch_waiter numbered fst (7, 1%nat) two_waiters)))))
    <> Return (7, 2%nat).
Proof.
  split; [vm_compute; reflexivity|]. split; [vm_compute; reflexivity|].
  split; [vm_compute; reflexivity|]. vm_compute. discriminate.
Qed.

(** C2 on a call that waits for kind 7 or 8 while only a packet of kind 9
    arrives: it raises [TimeoutError] and the registry reads as before. *)
Lemma wait_for_cleans_up_witness :
  wf numbered (init numbered) /\
  exists c' out,
    _wait_for numbered fst 0 7 [8] [(9, 1%nat)] (init numbered) = (c', out) /\
    (forall k, waiters_get (_waiters numbered c') k
               = waiters_get (_waiters numbered (init numbered)) k) /\
    out = Raise (TimeoutError "Timed out waiting for packet").
Proof.
  split; [apply registry_wf_init|].
  eexists _, _. split; [reflexivity|].
  destruct (wait_for_cleans_up numbered fst 0 7 [8] [(9, 1%nat)] (init numbered)
              _ _ (registry_wf_init numbered) eq_refl) as (Hget & _ & Htimeout & _).
  split; [exact Hget|]. apply Htimeout.
  intros m Hm. apply list_elem_of_singleton in Hm as ->. cbn.
  intros [H|H]%elem_of_cons; [discriminate|].
  apply list_elem_of_singleton in H. discriminate.
Defined.

(** When packets of both kinds arrive before the call resumes, both
    futures are done and [done.pop()] may take either. *)
Example wait_for_fulfilled_by_alternate :
  snd (_wait_for numbered fst 0 7 [8] [(9, 1%nat); (8, 2%nat)] (init numbered))
    = Return (8, 2%nat) /\
  snd (_wait_for numbered fst 0 7 [8] [(9, 1%nat); (8, 2%nat); (7, 3%nat)]
         (init numbered))
    = Return (7, 3%nat) /\
  snd (_wait_for numbered fst 1 7 [8] [(9, 1%nat); (8, 2%nat); (7, 3%nat)]
         (init numbered))
    = Return (8, 2%nat) /\
  _waiters numbered
    (fst (_wait_for numbered fst 0 7 [8] [(9, 1%nat); (8, 2%nat); (7, 3%nat)]
            (init numbered)))
    = {[ 7 := []; 8 := [] ]}.
Proof. repeat split; vm_compute; reflexivity. Qed.

End Client.

(* ===================================================================== *)
(** * codec.py: the rest of the reader and the writer                     *)
(* ===================================================================== *)

Module BinaryIO.
Import Py Codec.

(** ** The variable-length integer beyond the round trip *)

(** A continuation byte: [(b & 0x80) == 0] is false. *)
Definition continues (b : Z) : Prop := Z.land b 0x80 <> 0.

Lemma read_loop_continues s result shift :
  Forall continues s -> read_7bit_loop s result shift = None.
Proof.
  revert result shift. induction s as [|b s IH]; intros result shift Hs; [reflexivity|].
  apply Forall_cons in Hs as [Hb Hs]. cbn [read_7bit_loop].
  destruct (Z.eqb_spec (Z.land b 0x80) 0) as [Heq|_]; [contradiction|]. now apply IH.
Qed.

Lemma read_loop_stops pre b rest result shift :
  Forall continues pre -> Z.land b 0x80 = 0 -> 0 <= shift ->
  read_7bit_loop (pre ++ b :: rest) result shift
  = Some (Z.lor result (Z.shiftl (value_of (pre ++ [b])) shift), rest).
Proof.
  revert result shift. induction pre as [|x pre IH]; intros result shift Hpre Hb Hs.
  - cbn [app read_7bit_loop value_of]. rewrite Hb. cbn [Z.eqb].
    now rewrite Z.shiftl_0_l, Z.lor_0_r.
  - apply Forall_cons in Hpre as [Hx Hpre].
    change ((x :: pre) ++ b :: rest) with (x :: (pre ++ b :: rest)).
    change ((x :: pre) ++ [b]) with (x :: (pre ++ [b])).
    cbn [read_7bit_loop value_of].
    destruct (Z.eqb_spec (Z.land x 0x80) 0) as [Heq|_]; [contradiction|].
    rewrite IH by (auto; lia).
    rewrite Z.shiftl_lor, Z.shiftl_shiftl by lia.
    rewrite Z.lor_assoc. do 4 f_equal. lia.
Qed.

Lemma first_final_byte s :
  Forall continues s \/
  exists pre b rest, s = pre ++ b :: rest /\ Forall continues pre /\ Z.land b 0x80 = 0.
Proof.
  induction s as [|x s IH]; [left; constructor|].
  destruct (Z.eq_dec (Z.land x 0x80) 0) as [Hx|Hx].
  - right. exists [], x, s. repeat split; [constructor|exact Hx].
  - destruct IH as [IH|(pre & b & rest & -> & Hpre & Hb)].
    + left. now constructor.
    + right. exists (x :: pre), b, rest. repeat split; [now constructor|exact Hb].
Qed.

(** [_read_7bit_int] reads up to and including the first byte whose high
    bit is clear, however many continuation bytes come first, and returns
    the value those bytes denote; it fails (with [struct.error], from the
    [read_byte] at end of stream) exactly when the stream ends before such
    a byte. *)
Theorem read_7bit_int_stops_at_first_final_byte :
  (forall s, _read_7bit_int s = None <-> Forall continues s) /\
  (forall pre b rest, Forall continues pre -> Z.land b 0x80 = 0 ->
     _read_7bit_int (pre ++ b :: rest) = Some (value_of (pre ++ [b]), rest)).
Proof.
  assert (Hstop : forall pre b rest, Forall continues pre -> Z.land b 0x80 = 0 ->
            _read_7bit_int (pre ++ b :: rest) = Some (value_of (pre ++ [b]), rest)).
  { intros pre b rest Hpre Hb. unfold _read_7bit_int.
    rewrite read_loop_stops by (auto; lia).
    now rewrite Z.shiftl_0_r, Z.lor_0_l. }
  split; [|exact Hstop].
  intros s. split.
  - intros Hnone. destruct (first_final_byte s) as [H|(pre & b & rest & -> & Hpre & Hb)];
      [exact H|].
    rewrite Hstop in Hnone by assumption. discriminate.
  - intros Hs. now apply read_loop_continues.
Qed.

(** The encoder emits one byte per started group of seven bits: the
    encoding of [n >= 0] has at most [k >= 1] bytes exactly when
    [n < 2^(7k)]. *)
Theorem encode_7bit_int_length (k : nat) (n : Z) :
  0 <= n ->
  (length (_encode_7bit_int n) <= S k)%nat <-> n < 2 ^ (7 * Z.of_nat (S k)).
Proof.
  revert n. induction k as [|k IH]; intros n Hn.
  - rewrite encode_unfold. change (2 ^ (7 * Z.of_nat 1)) with 0x80.
    destruct (Z_ge_dec n 0x80) as [Hge|Hlt]; cbn [length].
    + rewrite (encode_unfold (Z.shiftr n 7)).
      destruct (Z_ge_dec _ _); cbn [length]; lia.
    + lia.
  - rewrite encode_unfold.
    assert (Hpow : 2 ^ (7 * Z.of_nat (S (S k))) = 0x80 * 2 ^ (7 * Z.of_nat (S k))).
    { replace (7 * Z.of_nat (S (S k))) with (7 + 7 * Z.of_nat (S k)) by lia.
      rewrite Z.pow_add_r by lia. reflexivity. }
    assert (Hpos : 0 < 2 ^ (7 * Z.of_nat (S k))) by (apply Z.pow_pos_nonneg; lia).
    destruct (Z_ge_dec n 0x80) as [Hge|Hlt]; cbn [length].
    + assert (Hshift : 0 <= Z.shiftr n 7) by (apply Z.shiftr_nonneg; lia).
      specialize (IH (Z.shiftr n 7) Hshift).
      rewrite Z.shiftr_div_pow2 in * by lia. change (2 ^ 7) with 0x80 in *.
      rewrite Hpow. split.
      * intros Hlen. assert (Hq : n / 0x80 < 2 ^ (7 * Z.of_nat (S k))) by (apply IH; lia).
        pose proof (Z.div_mod n 0x80 ltac:(lia)) as Hdm.
        pose proof (Z.mod_pos_bound n 0x80 ltac:(lia)) as Hmb. nia.
      * intros Hlt. assert (Hq : n / 0x80 < 2 ^ (7 * Z.of_nat (S k)))
          by (apply Z.div_lt_upper_bound; lia).
        apply IH in Hq. lia.
    + split; [|lia]. intros _. rewrite Hpow. nia.
Qed.

Lemma encode_7bit_int_length_witness :
  0 <= 2 ^ 32 - 1 /\
  ((length (_encode_7bit_int (2 ^ 32 - 1)) <= 5)%nat <-> 2 ^ 32 - 1 < 2 ^ (7 * Z.of_nat 5)).
Proof. split; [lia|]. apply (encode_7bit_int_length 4 (2 ^ 32 - 1)). lia. Defined.

(** Below [0x80] the [while] loop is not entered, also for a negative
    argument: the output is the single byte [value & 0x7F].  A negative
    value therefore does not survive the round trip: the decoder returns
    [value mod 128]. *)
Theorem encode_7bit_int_negative (value : Z) (rest : list Z) :
  value < 0 ->
  _encode_7bit_int value = [value mod 0x80] /\
  _read_7bit_int (_encode_7bit_int value ++ rest) = Some (value mod 0x80, rest) /\
  value mod 0x80 <> value.
Proof.
  intros Hneg. pose proof (Z.mod_pos_bound value 0x80 ltac:(lia)) as Hm.
  assert (Henc : _encode_7bit_int value = [value mod 0x80]).
  { rewrite encode_unfold. destruct (Z_ge_dec value 0x80); [lia|].
    change 0x7F with (Z.ones 7). now rewrite Z.land_ones by lia. }
  split; [exact Henc|]. split; [|lia].
  rewrite Henc. unfold _read_7bit_int. cbn [app read_7bit_loop].
  rewrite flag_clear, low7_small by lia. cbn [Z.eqb].
  now rewrite Z.shiftl_0_r, Z.lor_0_l.
Qed.

Lemma encode_7bit_int_negative_witness :
  -1 < 0 /\
  _encode_7bit_int (-1) = [0x7F] /\
  _read_7bit_int (_encode_7bit_int (-1) ++ [0x41]) = Some (0x7F, [0x41]).
Proof.
  split; [lia|].
  destruct (encode_7bit_int_negative (-1) [0x41] ltac:(lia)) as (H1 & H2 & _).
  split; [exact H1 | exact H2].
Defined.


(** ** [struct.pack] and [struct.unpack], little-endian *)

Definition struct_error : exn := OtherException "struct.error".

(** The [n] low bytes of [v], least significant first. *)
Fixpoint le_bytes (n : nat) (v : Z) : list Z :=
  match n with
  | O => []
  | S n => v mod 256 :: le_bytes n (v / 256)
  end.

Fixpoint le_value (b : list Z) : Z :=
  match b with
  | [] => 0
  | x :: b => x + 256 * le_value b
  end.

(** [struct.pack] with one of the formats [<B], [<H], [<I], [<Q] ([n]
    bytes, unsigned) and [<b], [<h], [<i], [<q] ([n] bytes, signed, two's
    complement): an integer outside the format's range raises
    [struct.error]. *)
Definition pack_unsigned (n : nat) (v : Z) : outcome (list Z) :=
  if decide (0 <= v < 256 ^ Z.of_nat n) then Return (le_bytes n v)
  else Raise struct_error.

Definition pack_signed (n : nat) (v : Z) : outcome (list Z) :=
  if decide (- (256 ^ Z.of_nat n / 2) <= v < 256 ^ Z.of_nat n / 2)
  then Return (le_bytes n (v mod 256 ^ Z.of_nat n))
  else Raise struct_error.

(** [struct.unpack(fmt, b)[0]]: a buffer whose length is not the size of
    the format raises [struct.error]. *)
Definition unpack_unsigned (n : nat) (b : list Z) : outcome Z :=
  if decide (length b = n) then Return (le_value b) else Raise struct_error.

Definition unpack_signed (n : nat) (b : list Z) : outcome Z :=
  if decide (length b = n) then
    let u := le_value b in
    Return (if u <? 256 ^ Z.of_nat n / 2 then u else u - 256 ^ Z.of_nat n)
  else Raise struct_error.

(** ** Code that runs on a [BytesIO] and may raise

    The state is the contents of the [io.BytesIO]: for a reader the bytes
    not yet consumed, for a writer the bytes written so far.  A raising
    call leaves the state as it was at the raise. *)
Definition M (S A : Type) : Type := S -> outcome A * S.

#[export] Instance M_ret {S} : MRet (M S) := fun A (a : A) s => (Return a, s).

#[export] Instance M_bind {S} : MBind (M S) :=
  fun A B (f : A -> M S B) (m : M S A) s =>
    match m s with
    | (Return a, s') => f a s'
    | (Raise e, s') => (Raise e, s')
    end.

Definition lift {S A} (o : outcome A) : M S A := fun s => (o, s).

(** ** [BinaryReader] *)

(** [self._stream.read(count)]: the next [count] bytes, or the ones that
    are left when there are fewer; everything that is left for a negative
    [count].  [io.BytesIO.read] converts [count] to a C [Py_ssize_t], 64
    bits on the platforms CPython supports the [X | None] annotations of
    these sources on: a [count] outside [-2^63, 2^63) raises
    [OverflowError], and nothing is consumed. *)
Definition OverflowError : exn := OtherException "OverflowError".

Definition stream_read (count : Z) : M stream (list Z) :=
  fun s =>
    if decide (- 2 ^ 63 <= count < 2 ^ 63) then
      if count <? 0 then (Return s, [])
      else (Return (take (Z.to_nat count) s), drop (Z.to_nat count) s)
    else (Raise OverflowError, s).

Definition read_unsigned (n : nat) : M stream Z :=
  b ← stream_read (Z.of_nat n); lift (unpack_unsigned n b).

Definition read_signed (n : nat) : M stream Z :=
  b ← stream_read (Z.of_nat n); lift (unpack_signed n b).

Definition read_byte : M stream Z := read_unsigned 1.
Definition read_sbyte : M stream Z := read_signed 1.
Definition read_bool : M stream bool := b ← read_byte; mret (negb (b =? 0)).
Definition read_int16 : M stream Z := read_signed 2.
Definition read_uint16 : M stream Z := read_unsigned 2.
Definition read_int32 : M stream Z := read_signed 4.
Definition read_uint32 : M stream Z := read_unsigned 4.
Definition read_int64 : M stream Z := read_signed 8.
Definition read_uint64 : M stream Z := read_unsigned 8.
Definition read_bytes (count : Z) : M stream (list Z) := stream_read count.

(** [_read_7bit_int] as a step of the reader: the loop of
    [Codec._read_7bit_int] raises only from a [read_byte] at the end of
    the stream, when every byte has been consumed. *)
Definition read_7bit_int : M stream Z :=
  fun s =>
    match _read_7bit_int s with
    | Some (v, rest) => (Return v, rest)
    | None => (Raise struct_error, [])
    end.

(** [remaining]: the three [seek]/[tell] calls restore the position. *)
Definition remaining : M stream Z := fun s => (Return (Z.of_nat (length s)), s).

(** ** [BinaryWriter] *)

Definition stream_write (data : list Z) : M (list Z) unit :=
  fun w => (Return tt, w ++ data).

Definition write_unsigned (n : nat) (v : Z) : M (list Z) unit :=
  b ← lift (pack_unsigned n v); stream_write b.

Definition write_signed (n : nat) (v : Z) : M (list Z) unit :=
  b ← lift (pack_signed n v); stream_write b.

Definition write_byte (value : Z) : M (list Z) unit :=
  write_unsigned 1 (Z.land value 0xFF).
Definition write_sbyte (value : Z) : M (list Z) unit := write_signed 1 value.
Definition write_bool (value : bool) : M (list Z) unit :=
  write_byte (if value then 1 else 0).
Definition write_int16 (value : Z) : M (list Z) unit := write_signed 2 value.
Definition write_uint16 (value : Z) : M (list Z) unit :=
  write_unsigned 2 (Z.land value 0xFFFF).
Definition write_int32 (value : Z) : M (list Z) unit := write_signed 4 value.
Definition write_uint32 (value : Z) : M (list Z) unit :=
  write_unsigned 4 (Z.land value 0xFFFFFFFF).
Definition write_int64 (value : Z) : M (list Z) unit := write_signed 8 value.
Definition write_uint64 (value : Z) : M (list Z) unit :=
  write_unsigned 8 (Z.land value 0xFFFFFFFFFFFFFFFF).
Definition write_bytes (data : list Z) : M (list Z) unit := stream_write data.

(** [BinaryWriter.to_bytes] of a fresh writer after running [body]. *)
Definition written (body : M (list Z) unit) : outcome (list Z) :=
  match body [] with
  | (Return _, w) => Return w
  | (Raise e, _) => Raise e
  end.

(** ** Strings *)

Section Strings.

(** [str.encode("utf-8")] and [bytes.decode("utf-8")], of the Python
    standard library. *)
Variable utf8_encode : string -> list Z.
Variable utf8_decode : list Z -> outcome string.

(** [read_string]:
<<
    length = self._read_7bit_int()
    if length == 0:
        return ""
    return self.read_bytes(length).decode("utf-8")
>> *)
Definition read_string : M stream string :=
  len ← read_7bit_int;
  if len =? 0 then mret ""%string
  else b ← read_bytes len; lift (utf8_decode b).

(** [write_string]:
<<
    encoded = value.encode("utf-8")
    self.write_bytes(self._encode_7bit_int(len(encoded)))
    self.write_bytes(encoded)
>> *)
Definition write_string (value : string) : M (list Z) unit :=
  let encoded := utf8_encode value in
  _ ← write_bytes (_encode_7bit_int (Z.of_nat (length encoded)));
  write_bytes encoded.

End Strings.

(** ** Little-endian arithmetic *)

Lemma le_bytes_length n v : length (le_bytes n v) = n.
Proof. revert v. induction n as [|n IH]; intros v; cbn; [reflexivity|]. now rewrite IH. Qed.

Lemma le_bytes_bytes n v : Forall is_byte (le_bytes n v).
Proof.
  revert v. induction n as [|n IH]; intros v; cbn; constructor; [|apply IH].
  unfold is_byte. apply Z.mod_pos_bound. lia.
Qed.

Lemma pow256_succ n : 256 ^ Z.of_nat (S n) = 256 * 256 ^ Z.of_nat n.
Proof. rewrite Nat2Z.inj_succ, Z.pow_succ_r by lia. reflexivity. Qed.

Lemma pow256_pos n : 0 < 256 ^ Z.of_nat n.
Proof. apply Z.pow_pos_nonneg; lia. Qed.

Lemma le_value_le_bytes n v : le_value (le_bytes n v) = v mod 256 ^ Z.of_nat n.
Proof.
  revert v. induction n as [|n IH]; intros v.
  - cbn. now rewrite Z.mod_1_r.
  - cbn [le_bytes le_value]. rewrite IH, pow256_succ.
    pose proof (pow256_pos n). rewrite Z.rem_mul_r by lia. reflexivity.
Qed.

Lemma le_value_range b : Forall is_byte b -> 0 <= le_value b < 256 ^ Z.of_nat (length b).
Proof.
  induction 1 as [|x b Hx _ IH].
  - cbn. lia.
  - cbn [le_value length]. rewrite pow256_succ. unfold is_byte in Hx. lia.
Qed.

Lemma pow256_even n : n <> O -> 256 ^ Z.of_nat n = 2 * (256 ^ Z.of_nat n / 2).
Proof.
  destruct n as [|n]; [easy|]. intros _. rewrite pow256_succ.
  replace (256 * 256 ^ Z.of_nat n) with (128 * 256 ^ Z.of_nat n * 2) by lia.
  rewrite Z.div_mul by lia. lia.
Qed.

(** ** Running single calls *)

Lemma stream_read_width n s :
  (n <= 8)%nat -> stream_read (Z.of_nat n) s = (Return (take n s), drop n s).
Proof.
  intros Hn. unfold stream_read. rewrite decide_True by lia.
  destruct (Z.ltb_spec (Z.of_nat n) 0) as [Hneg|_]; [lia|].
  now rewrite Nat2Z.id.
Qed.

Lemma read_unsigned_run n s :
  (n <= 8)%nat ->
  read_unsigned n s =
  if decide (n <= length s)%nat then (Return (le_value (take n s)), drop n s)
  else (Raise struct_error, []).
Proof.
  intros Hn. unfold read_unsigned, mbind, M_bind. rewrite stream_read_width by exact Hn.
  unfold lift, unpack_unsigned.
  destruct (decide (n <= length s)%nat) as [Hle|Hgt].
  - rewrite decide_True by (rewrite length_take; lia). reflexivity.
  - rewrite decide_False by (rewrite length_take; lia).
    rewrite drop_ge by lia. reflexivity.
Qed.

Lemma read_signed_run n s :
  (n <= 8)%nat ->
  read_signed n s =
  if decide (n <= length s)%nat then
    let u := le_value (take n s) in
    (Return (if u <? 256 ^ Z.of_nat n / 2 then u else u - 256 ^ Z.of_nat n), drop n s)
  else (Raise struct_error, []).
Proof.
  intros Hn. unfold read_signed, mbind, M_bind. rewrite stream_read_width by exact Hn.
  unfold lift, unpack_signed.
  destruct (decide (n <= length s)%nat) as [Hle|Hgt].
  - rewrite decide_True by (rewrite length_take; lia). reflexivity.
  - rewrite decide_False by (rewrite length_take; lia).
    rewrite drop_ge by lia. reflexivity.
Qed.

Lemma write_unsigned_run n v w :
  write_unsigned n v w =
  if decide (0 <= v < 256 ^ Z.of_nat n) then (Return tt, w ++ le_bytes n v)
  else (Raise struct_error, w).
Proof.
  unfold write_unsigned, mbind, M_bind, lift, pack_unsigned, stream_write.
  now destruct (decide _).
Qed.

Lemma write_signed_run n v w :
  write_signed n v w =
  if decide (- (256 ^ Z.of_nat n / 2) <= v < 256 ^ Z.of_nat n / 2)
  then (Return tt, w ++ le_bytes n (v mod 256 ^ Z.of_nat n))
  else (Raise struct_error, w).
Proof.
  unfold write_signed, mbind, M_bind, lift, pack_signed, stream_write.
  now destruct (decide _).
Qed.

Lemma take_drop_app_length {A} (b rest : list A) :
  take (length b) (b ++ rest) = b /\ drop (length b) (b ++ rest) = rest.
Proof. split; [apply take_app_length | apply drop_app_length]. Qed.

Lemma read_unsigned_le_bytes n v rest :
  (n <= 8)%nat ->
  read_unsigned n (le_bytes n v ++ rest) = (Return (v mod 256 ^ Z.of_nat n), rest).
Proof.
  intros Hn8. rewrite read_unsigned_run by exact Hn8.
  rewrite decide_True by (rewrite length_app, le_bytes_length; lia).
  destruct (take_drop_app_length (le_bytes n v) rest) as [Ht Hd].
  rewrite le_bytes_length in Ht, Hd. now rewrite Ht, Hd, le_value_le_bytes.
Qed.

Lemma read_signed_le_bytes n v rest :
  (n <= 8)%nat ->
  n <> O -> - (256 ^ Z.of_nat n / 2) <= v < 256 ^ Z.of_nat n / 2 ->
  read_signed n (le_bytes n (v mod 256 ^ Z.of_nat n) ++ rest) = (Return v, rest).
Proof.
  intros Hn8 Hn Hv. rewrite read_signed_run by exact Hn8.
  rewrite decide_True by (rewrite length_app, le_bytes_length; lia).
  destruct (take_drop_app_length (le_bytes n (v mod 256 ^ Z.of_nat n)) rest) as [Ht Hd].
  rewrite le_bytes_length in Ht, Hd. rewrite Ht, Hd, le_value_le_bytes. cbv zeta.
  pose proof (pow256_even n Hn) as Heven. pose proof (pow256_pos n) as Hpos.
  rewrite Z.mod_mod by lia.
  set (P := 256 ^ Z.of_nat n) in *. set (H := P / 2) in *.
  destruct (Z_lt_dec v 0) as [Hneg|Hnn].
  - assert (Hm : v mod P = v + P).
    { symmetry. apply (Z.mod_unique v P (-1)); lia. }
    rewrite Hm. destruct (Z.ltb_spec (v + P) H); [lia|]. do 2 f_equal. lia.
  - rewrite Z.mod_small by lia. destruct (Z.ltb_spec v H); [reflexivity|lia].
Qed.

(** ** Fixed-width integers *)

(** A writer and a reader of [width] bytes such that reading back what
    was written gives the value reduced modulo [2^(8 width)]; the write
    never raises. *)
Definition wraps (width : nat) (write : Z -> M (list Z) unit) (read : M stream Z) : Prop :=
  forall (v : Z) (w rest : list Z),
    exists b, write v w = (Return tt, w ++ b) /\
              length b = width /\ Forall is_byte b /\
              read (b ++ rest) = (Return (v mod 2 ^ (8 * Z.of_nat width)), rest).

Lemma pow256_pow2 n : 256 ^ Z.of_nat n = 2 ^ (8 * Z.of_nat n).
Proof. change 256 with (2 ^ 8). rewrite <- Z.pow_mul_r by lia. reflexivity. Qed.

Lemma masked_wraps width mask :
  (width <= 8)%nat ->
  mask = Z.ones (8 * Z.of_nat width) ->
  wraps width (fun v => write_unsigned width (Z.land v mask)) (read_unsigned width).
Proof.
  intros Hw8 -> v w rest. exists (le_bytes width (v mod 2 ^ (8 * Z.of_nat width))).
  rewrite Z.land_ones by lia. rewrite write_unsigned_run.
  pose proof (Z.mod_pos_bound v (2 ^ (8 * Z.of_nat width))
                ltac:(apply Z.pow_pos_nonneg; lia)) as Hm.
  rewrite decide_True by (rewrite pow256_pow2; exact Hm).
  split; [reflexivity|]. split; [apply le_bytes_length|]. split; [apply le_bytes_bytes|].
  rewrite read_unsigned_le_bytes by exact Hw8.
  rewrite pow256_pow2, Z.mod_mod; [reflexivity|lia].
Qed.

(** The unsigned writers mask their argument, so they accept every
    integer and never raise; what [read_byte], [read_uint16],
    [read_uint32] and [read_uint64] read back from the bytes of the
    matching writer is the value modulo 2^8, 2^16, 2^32 and 2^64. *)
Theorem unsigned_write_read_wraps :
  wraps 1 write_byte read_byte /\
  wraps 2 write_uint16 read_uint16 /\
  wraps 4 write_uint32 read_uint32 /\
  wraps 8 write_uint64 read_uint64.
Proof. repeat split; apply masked_wraps; solve [lia | reflexivity]. Qed.

(** A writer and a reader of [width] bytes for signed values: inside the
    two's-complement range the value is read back unchanged; outside it
    the write raises [struct.error] and writes nothing. *)
Definition fits (width : nat) (write : Z -> M (list Z) unit) (read : M stream Z) : Prop :=
  forall (v : Z) (w rest : list Z),
    if decide (- 2 ^ (8 * Z.of_nat width - 1) <= v < 2 ^ (8 * Z.of_nat width - 1))
    then exists b, write v w = (Return tt, w ++ b) /\
                   length b = width /\ Forall is_byte b /\
                   read (b ++ rest) = (Return v, rest)
    else write v w = (Raise struct_error, w).

Lemma pow256_half n : n <> O -> 256 ^ Z.of_nat n / 2 = 2 ^ (8 * Z.of_nat n - 1).
Proof.
  intros Hn. rewrite pow256_pow2.
  replace (8 * Z.of_nat n) with (Z.succ (8 * Z.of_nat n - 1)) at 1 by lia.
  rewrite Z.pow_succ_r by lia. rewrite Z.mul_comm, Z.div_mul by lia. reflexivity.
Qed.

Lemma signed_fits width :
  (width <= 8)%nat ->
  width <> O -> fits width (write_signed width) (read_signed width).
Proof.
  intros Hw8 Hn v w rest. rewrite write_signed_run, (pow256_half width Hn).
  destruct (decide _) as [Hv|Hv]; [|reflexivity].
  exists (le_bytes width (v mod 256 ^ Z.of_nat width)).
  split; [reflexivity|]. split; [apply le_bytes_length|]. split; [apply le_bytes_bytes|].
  apply read_signed_le_bytes; [exact Hw8|exact Hn|]. now rewrite (pow256_half width Hn).
Qed.

(** The signed writers pass their argument to [struct.pack] unmasked:
    [write_sbyte], [write_int16], [write_int32] and [write_int64] raise
    [struct.error], leaving the buffer as it was, exactly for a value
    outside the two's-complement range of the width; inside the range the
    matching reader returns the value written. *)
Theorem signed_write_read_fits :
  fits 1 write_sbyte read_sbyte /\
  fits 2 write_int16 read_int16 /\
  fits 4 write_int32 read_int32 /\
  fits 8 write_int64 read_int64.
Proof. repeat split; apply signed_fits; lia. Qed.

(** A reader of [width] bytes: with fewer bytes left it raises
    [struct.error], having consumed what was left; otherwise it consumes
    exactly [width] bytes and returns a value in [lo, hi). *)
Definition reads (width : nat) (lo hi : Z) (read : M stream Z) : Prop :=
  forall s : stream,
    if decide (width <= length s)%nat
    then exists v, read s = (Return v, drop width s) /\
                   (Forall is_byte s -> lo <= v < hi)
    else read s = (Raise struct_error, []).

Lemma read_unsigned_reads width :
  (width <= 8)%nat ->
  reads width 0 (2 ^ (8 * Z.of_nat width)) (read_unsigned width).
Proof.
  intros Hw8 s. rewrite read_unsigned_run by exact Hw8. destruct (decide _) as [Hle|]; [|reflexivity].
  eexists. split; [reflexivity|]. intros Hs.
  pose proof (le_value_range (take width s) ltac:(apply Forall_take, Hs)) as Hr.
  rewrite length_take, Nat.min_l, pow256_pow2 in Hr by lia. exact Hr.
Qed.

Lemma read_signed_reads width :
  (width <= 8)%nat ->
  width <> O ->
  reads width (- 2 ^ (8 * Z.of_nat width - 1)) (2 ^ (8 * Z.of_nat width - 1))
        (read_signed width).
Proof.
  intros Hw8 Hn s. rewrite read_signed_run by exact Hw8. destruct (decide _) as [Hle|]; [|reflexivity].
  eexists. split; [reflexivity|]. intros Hs. cbv zeta.
  pose proof (le_value_range (take width s) ltac:(apply Forall_take, Hs)) as Hr.
  rewrite length_take, Nat.min_l in Hr by lia.
  pose proof (pow256_even width Hn) as Heven.
  rewrite <- (pow256_half width Hn).
  destruct (Z.ltb_spec (le_value (take width s)) (256 ^ Z.of_nat width / 2)); lia.
Qed.

(** Every fixed-width read raises [struct.error] exactly when fewer bytes
    are left than its width, and the failed read has consumed the bytes
    that were left; otherwise it consumes exactly its width and the value
    is within the range of its type. *)
Theorem fixed_width_reads :
  reads 1 0 (2 ^ 8) read_byte /\
  reads 1 (- 2 ^ 7) (2 ^ 7) read_sbyte /\
  reads 2 (- 2 ^ 15) (2 ^ 15) read_int16 /\
  reads 2 0 (2 ^ 16) read_uint16 /\
  reads 4 (- 2 ^ 31) (2 ^ 31) read_int32 /\
  reads 4 0 (2 ^ 32) read_uint32 /\
  reads 8 (- 2 ^ 63) (2 ^ 63) read_int64 /\
  reads 8 0 (2 ^ 64) read_uint64.
Proof.
  repeat split;
    solve [ apply (read_unsigned_reads 1); lia | apply (read_unsigned_reads 2); lia
          | apply (read_unsigned_reads 4); lia | apply (read_unsigned_reads 8); lia
          | apply (read_signed_reads 1); lia | apply (read_signed_reads 2); lia
          | apply (read_signed_reads 4); lia | apply (read_signed_reads 8); lia ].
Qed.

(** [read_byte] here and the [read_byte] inside the loop of
    [Codec._read_7bit_int] are the same call. *)
Lemma read_byte_option s :
  read_byte s = match Codec.read_byte s with
                | Some (b, rest) => (Return b, rest)
                | None => (Raise struct_error, [])
                end.
Proof.
  unfold read_byte. rewrite read_unsigned_run by lia. destruct s as [|b s]; [reflexivity|].
  rewrite decide_True by (cbn; lia). cbn [take drop le_value Codec.read_byte].
  now rewrite Z.mul_0_r, Z.add_0_r.
Qed.

(** ** Strings *)

Section StringFacts.

Variable utf8_encode : string -> list Z.
Variable utf8_decode : list Z -> outcome string.

Lemma read_7bit_int_prefix n rest :
  0 <= n -> read_7bit_int (_encode_7bit_int n ++ rest) = (Return n, rest).
Proof.
  intros Hn. unfold read_7bit_int.
  rewrite read_well_formed by (apply encode_minimal, Hn).
  now rewrite value_of_encode.
Qed.

(** What [write_string] writes for [value], [read_string] reads back as
    [value], consuming exactly those bytes, given that the UTF-8 codec
    decodes what it encoded (and the empty buffer to the empty string):
    strings of every length a [bytes] object can have (its [len] is a
    [Py_ssize_t], below 2^63), also beyond 127 bytes where the length
    prefix takes more than one byte. *)
Theorem string_round_trip (value : string) (w rest : list Z) :
  (forall s, utf8_decode (utf8_encode s) = Return s) ->
  utf8_decode [] = Return ""%string ->
  Z.of_nat (length (utf8_encode value)) < 2 ^ 63 ->
  exists b, write_string utf8_encode value w = (Return tt, w ++ b) /\
            read_string utf8_decode (b ++ rest) = (Return value, rest).
Proof.
  intros Hcodec Hempty Hlen.
  exists (_encode_7bit_int (Z.of_nat (length (utf8_encode value))) ++ utf8_encode value).
  split.
  - unfold write_string, write_bytes, stream_write, mbind, M_bind.
    now rewrite app_assoc.
  - unfold read_string, mbind, M_bind. rewrite <- app_assoc.
    rewrite read_7bit_int_prefix by lia.
    destruct (Z.eqb_spec (Z.of_nat (length (utf8_encode value))) 0) as [Hz|Hnz].
    + assert (Hnil : utf8_encode value = []) by (apply length_zero_iff_nil; lia).
      pose proof (Hcodec value) as Hv. rewrite Hnil in Hv. rewrite Hempty in Hv.
      injection Hv as <-. rewrite Hnil. reflexivity.
    + unfold read_bytes, stream_read, lift. rewrite decide_True by lia.
      destruct (Z.ltb_spec (Z.of_nat (length (utf8_encode value))) 0); [lia|].
      rewrite Nat2Z.id, take_app_length, drop_app_length, Hcodec. reflexivity.
Qed.

(** A length prefix that promises more bytes than are left is no
    [struct.error]: as long as the promised length is below 2^63,
    [read_bytes] returns the bytes that are there, and [read_string]
    returns whatever they decode to, leaving the stream empty.  A prefix of
    ten bytes can promise 2^63 or more; then [read_bytes] raises
    [OverflowError] and the body is not consumed.  [prefix] is any
    encoding of the promised length. *)
Theorem read_string_short_body (prefix body : list Z) :
  well_formed prefix ->
  (length body < Z.to_nat (value_of prefix))%nat ->
  read_string utf8_decode (prefix ++ body)
  = if decide (value_of prefix < 2 ^ 63) then (utf8_decode body, [])
    else (Raise OverflowError, body).
Proof.
  intros Hwf Hshort. unfold read_string, mbind, M_bind, read_7bit_int.
  rewrite read_well_formed by exact Hwf.
  destruct (Z.eqb_spec (value_of prefix) 0) as [Hz|Hnz]; [rewrite Hz in Hshort; cbn in Hshort; lia|].
  unfold read_bytes, stream_read, lift.
  assert (Hpos : 0 < value_of prefix) by lia.
  destruct (decide (value_of prefix < 2 ^ 63)) as [Hsmall|Hbig].
  - rewrite decide_True by lia.
    destruct (Z.ltb_spec (value_of prefix) 0); [lia|].
    rewrite take_ge, drop_ge by lia. reflexivity.
  - rewrite decide_False by lia. reflexivity.
Qed.

End StringFacts.

(** A codec for the witnesses: the strings of Rocq are byte strings, and
    a literal holds the UTF-8 bytes of its text. *)
Definition bytes_of_string (s : string) : list Z :=
  map (fun a => Z.of_N (Ascii.N_of_ascii a)) (String.list_ascii_of_string s).

Definition string_of_bytes (b : list Z) : outcome string :=
  Return (String.string_of_list_ascii (map (fun x => Ascii.ascii_of_N (Z.to_N x)) b)).

Lemma string_of_bytes_of_string s : string_of_bytes (bytes_of_string s) = Return s.
Proof.
  unfold string_of_bytes, bytes_of_string. rewrite map_map.
  rewrite (map_ext _ id), map_id, String.string_of_list_ascii_of_string; [reflexivity|].
  intros a. now rewrite N2Z.id, Ascii.ascii_N_embedding.
Qed.

Lemma string_round_trip_witness :
  exists b, write_string bytes_of_string "Taoist" [] = (Return tt, [] ++ b) /\
            read_string string_of_bytes (b ++ [7]) = (Return "Taoist"%string, [7]).
Proof.
  apply (string_round_trip bytes_of_string string_of_bytes "Taoist" [] [7]).
  - exact string_of_bytes_of_string.
  - reflexivity.
  - vm_compute. reflexivity.
Defined.

(** A prefix promising five bytes before a body of three, and the
    ten-byte prefix of 2^63 before a body of one. *)
Lemma read_string_short_body_witness :
  read_string string_of_bytes ([5] ++ [0x4D; 0x69; 0x72])
  = (string_of_bytes [0x4D; 0x69; 0x72], []) /\
  read_string string_of_bytes
    ([0x80; 0x80; 0x80; 0x80; 0x80; 0x80; 0x80; 0x80; 0x80; 0x01] ++ [0x41])
  = (Raise OverflowError, [0x41]).
Proof.
  split.
  - apply (read_string_short_body string_of_bytes [5] [0x4D; 0x69; 0x72]).
    + cbn. lia.
    + vm_compute. lia.
  - apply (read_string_short_body string_of_bytes
             [0x80; 0x80; 0x80; 0x80; 0x80; 0x80; 0x80; 0x80; 0x80; 0x01] [0x41]).
    + cbn. lia.
    + apply Nat2Z.inj_lt. rewrite Z2Nat.id; vm_compute; [reflexivity|discriminate].
Defined.

End BinaryIO.

(* ===================================================================== *)
(** * packets.py: packet classes on the codec                             *)
(* ===================================================================== *)

Module PacketClasses.
Import Py Codec BinaryIO ServerPackets State.

(** ** [Packet.to_bytes] *)

Section ToBytes.

(** [gzip.compress], of the Python standard library. *)
Variable gzip_compress : list Z -> list Z.

(** [Packet.to_bytes], for a class with the attributes [packet_id] and
    [compressed] and the method [write_packet]:
<<
    w = BinaryWriter()
    self.write_packet(w)
    payload = w.to_bytes()
    if self.compressed:
        payload = gzip.compress(payload)
    total_len = 2 + 2 + len(payload)
    header = struct.pack("<Hh", total_len, self.packet_id)
    return header + payload
>>
    The last three lines are [Packets.to_bytes]. *)
Definition to_bytes (packet_id : Z) (compressed : bool)
    (write_packet : M (list Z) unit) : outcome (list Z) :=
  match written write_packet with
  | Raise e => Raise e
  | Return payload =>
      let payload := if compressed then gzip_compress payload else payload in
      Packets.to_bytes packet_id payload
  end.

End ToBytes.

(** ** Client packets *)

(** The packet identifiers are members of [ClientPacketIds] in [enums.py];
    the classes below take theirs as an argument. *)

Module C_KeepAlive.
Record t := { time : Z }.
Definition write_packet (self : t) : M (list Z) unit := write_int64 (time self).
End C_KeepAlive.

Module C_Turn.
Record t := { direction : Z }.
Definition write_packet (self : t) : M (list Z) unit := write_byte (direction self).
End C_Turn.

Module C_Walk.
Record t := { direction : Z }.
Definition write_packet (self : t) : M (list Z) unit := write_byte (direction self).
End C_Walk.

Module C_Run.
Record t := { direction : Z }.
Definition write_packet (self : t) : M (list Z) unit := write_byte (direction self).
End C_Run.

(** ** Server packets: [read_packet] *)

(** [pkt.read_packet(BinaryReader(data))] as [parse_server_packet] calls
    it: the packet when every read succeeds, whatever is left of [data]
    being ignored. *)
Definition parsed {A} (read_packet : M stream A) (data : list Z) : outcome A :=
  fst (read_packet data).

Definition S_GainedGold_read_packet : M stream S_GainedGold.t :=
  gold ← read_uint32;
  mret {| S_GainedGold.gold := gold |}.

Definition S_LoseGold_read_packet : M stream S_LoseGold.t :=
  gold ← read_uint32;
  mret {| S_LoseGold.gold := gold |}.

(** [S_ObjectTurn], [S_ObjectWalk], [S_ObjectRun]:
<<
    self.object_id = r.read_uint32()
    self.location = (r.read_int32(), r.read_int32())
    self.direction = r.read_byte()
>> *)
Definition S_ObjectTurn_read_packet : M stream S_ObjectTurn.t :=
  object_id ← read_uint32;
  x ← read_int32;
  y ← read_int32;
  direction ← read_byte;
  mret {| S_ObjectTurn.object_id := object_id;
          S_ObjectTurn.location := (x, y);
          S_ObjectTurn.direction := direction |}.

Definition S_ObjectWalk_read_packet : M stream S_ObjectWalk.t :=
  object_id ← read_uint32;
  x ← read_int32;
  y ← read_int32;
  direction ← read_byte;
  mret {| S_ObjectWalk.object_id := object_id;
          S_ObjectWalk.location := (x, y);
          S_ObjectWalk.direction := direction |}.

Definition S_ObjectRun_read_packet : M stream S_ObjectRun.t :=
  object_id ← read_uint32;
  x ← read_int32;
  y ← read_int32;
  direction ← read_byte;
  mret {| S_ObjectRun.object_id := object_id;
          S_ObjectRun.location := (x, y);
          S_ObjectRun.direction := direction |}.

(** ** Running the monad *)

Lemma bind_run {S A B} (m : M S A) (f : A -> M S B) (s : S) :
  (m ≫= f) s = match m s with
               | (Return a, s') => f a s'
               | (Raise e, s') => (Raise e, s')
               end.
Proof. reflexivity. Qed.

Lemma bind_Return {S A B} (m : M S A) (f : A -> M S B) s a s' :
  m s = (Return a, s') -> (m ≫= f) s = f a s'.
Proof. intros H. now rewrite bind_run, H. Qed.

Lemma bind_Raise {S A B} (m : M S A) (f : A -> M S B) s e s' :
  m s = (Raise e, s') -> (m ≫= f) s = (Raise e, s').
Proof. intros H. now rewrite bind_run, H. Qed.

(** The two's-complement bytes of a signed value. *)
Definition signed_bytes (n : nat) (v : Z) : list Z := le_bytes n (v mod 256 ^ Z.of_nat n).

Lemma read_int32_signed_bytes v rest :
  - 2 ^ 31 <= v < 2 ^ 31 ->
  read_int32 (signed_bytes 4 v ++ rest) = (Return v, rest).
Proof. intros Hv. apply read_signed_le_bytes; [lia|lia|]. exact Hv. Qed.

Lemma read_uint32_le_bytes v rest :
  0 <= v < 2 ^ 32 -> read_uint32 (le_bytes 4 v ++ rest) = (Return v, rest).
Proof.
  intros Hv. unfold read_uint32. rewrite read_unsigned_le_bytes by lia.
  now rewrite Z.mod_small by exact Hv.
Qed.

Lemma read_uint16_le_bytes v rest :
  0 <= v < 2 ^ 16 -> read_uint16 (le_bytes 2 v ++ rest) = (Return v, rest).
Proof.
  intros Hv. unfold read_uint16. rewrite read_unsigned_le_bytes by lia.
  now rewrite Z.mod_small by exact Hv.
Qed.

Lemma read_byte_cons b rest : read_byte (b :: rest) = (Return b, rest).
Proof. rewrite read_byte_option. reflexivity. Qed.

(** ** The frame of a packet *)

Lemma pack_H_le_bytes n :
  pack_H n = if decide (0 <= n < 65536) then Return (le_bytes 2 n) else Raise struct_error.
Proof.
  unfold pack_H. destruct (decide _) as [Hn|]; [|reflexivity].
  cbn [le_bytes]. do 3 f_equal. symmetry. apply Z.mod_small.
  split; [apply Z.div_pos; lia | apply Z.div_lt_upper_bound; lia].
Qed.

Lemma framing_run packet_id payload :
  Packets.to_bytes packet_id payload =
  if decide (Z.of_nat (length payload) <= 65531 /\ -32768 <= packet_id < 32768)
  then Return (le_bytes 2 (4 + Z.of_nat (length payload)) ++
               signed_bytes 2 packet_id ++ payload)
  else Raise struct_error.
Proof.
  unfold Packets.to_bytes, pack_h. rewrite !pack_H_le_bytes.
  pose proof (Z.mod_pos_bound packet_id 65536 ltac:(lia)) as Hm.
  destruct (decide (0 <= 2 + 2 + Z.of_nat (length payload) < 65536)) as [Hl|Hl];
    destruct (decide (-32768 <= packet_id < 32768)) as [Hi|Hi];
    try rewrite (decide_True (P := 0 <= packet_id mod 65536 < 65536)) by exact Hm;
    destruct (decide (Z.of_nat (length payload) <= 65531 /\ -32768 <= packet_id < 32768))
      as [[Hlen Hid]|Hno]; try reflexivity; try lia.
Qed.

(** [to_bytes] of a packet class that is not compressed, whose
    [write_packet] leaves [payload] in the writer: the result is the frame
    [uint16 total length, int16 packet id, payload] of [4 + len(payload)]
    bytes when the payload has at most 65531 bytes and the identifier fits
    16 signed bits; otherwise [struct.pack] raises [struct.error] and no
    frame is produced. *)
Theorem to_bytes_frame gzip_compress packet_id write_packet payload :
  written write_packet = Return payload ->
  if decide (Z.of_nat (length payload) <= 65531 /\ -32768 <= packet_id < 32768)
  then exists frame,
      to_bytes gzip_compress packet_id false write_packet = Return frame /\
      frame = le_bytes 2 (4 + Z.of_nat (length payload)) ++
              signed_bytes 2 packet_id ++ payload /\
      length frame = (4 + length payload)%nat /\
      unpack_H (take 2 frame) = Z.of_nat (length frame)
  else to_bytes gzip_compress packet_id false write_packet = Raise struct_error.
Proof.
  intros Hw. unfold to_bytes. rewrite Hw. cbv zeta. rewrite framing_run.
  destruct (decide _) as [[Hlen Hid]|Hno]; [|reflexivity].
  eexists. split; [reflexivity|]. split; [reflexivity|].
  split.
  - rewrite !length_app. unfold signed_bytes. rewrite !le_bytes_length. lia.
  - rewrite !length_app. unfold signed_bytes. rewrite !le_bytes_length.
    cbn [le_bytes app take unpack_H].
    pose proof (Z.div_mod (4 + Z.of_nat (length payload)) 256 ltac:(lia)) as Hdm.
    rewrite (Z.mod_small (_ / 256)).
    + lia.
    + split; [apply Z.div_pos; lia | apply Z.div_lt_upper_bound; lia].
Qed.

Lemma to_bytes_frame_witness :
  exists frame,
    to_bytes id 24 false (C_Walk.write_packet {| C_Walk.direction := 3 |}) = Return frame /\
    frame = le_bytes 2 (4 + Z.of_nat (length [3])) ++ signed_bytes 2 24 ++ [3] /\
    length frame = (4 + length [3])%nat /\
    unpack_H (take 2 frame) = Z.of_nat (length frame).
Proof.
  exact (to_bytes_frame id 24 (C_Walk.write_packet {| C_Walk.direction := 3 |}) [3] eq_refl).
Defined.

Lemma write_byte_written v : written (write_byte v) = Return [v mod 256].
Proof.
  unfold written, write_byte. rewrite write_unsigned_run.
  change 0xFF with (Z.ones 8). rewrite Z.land_ones by lia. change (2 ^ 8) with 256.
  pose proof (Z.mod_pos_bound v 256 ltac:(lia)) as Hm.
  rewrite decide_True by (change (256 ^ Z.of_nat 1) with 256; lia).
  cbn [app le_bytes]. now rewrite Z.mod_mod by lia.
Qed.

(** The movement packets mask their direction: for every integer
    [direction], also one that is no [MirDirection] (8, 255, -1),
    [C_Turn], [C_Walk] and [C_Run] serialise to the five-byte frame
    [05 00, packet id, direction mod 256] and never raise, as long as the
    identifier fits 16 signed bits. *)
Theorem movement_packets_mask_direction gzip_compress packet_id direction :
  -32768 <= packet_id < 32768 ->
  let frame := [5; 0] ++ signed_bytes 2 packet_id ++ [direction mod 256] in
  to_bytes gzip_compress packet_id false
    (C_Turn.write_packet {| C_Turn.direction := direction |}) = Return frame /\
  to_bytes gzip_compress packet_id false
    (C_Walk.write_packet {| C_Walk.direction := direction |}) = Return frame /\
  to_bytes gzip_compress packet_id false
    (C_Run.write_packet {| C_Run.direction := direction |}) = Return frame.
Proof.
  intros Hid frame.
  assert (H : to_bytes gzip_compress packet_id false (write_byte direction) = Return frame).
  { unfold to_bytes. rewrite write_byte_written. cbv zeta. rewrite framing_run.
    rewrite decide_True by (cbn [length]; lia). reflexivity. }
  repeat split; exact H.
Qed.

Lemma movement_packets_mask_direction_witness :
  to_bytes id 24 false (C_Walk.write_packet {| C_Walk.direction := -1 |})
  = Return [5; 0; 24; 0; 255].
Proof.
  destruct (movement_packets_mask_direction id 24 (-1) ltac:(lia)) as (_ & H & _).
  exact H.
Defined.

(** [C_KeepAlive] writes its [time] with [write_int64]: a time within 64
    signed bits gives a frame of twelve bytes whose payload reads back as
    the time; any other integer makes [to_bytes] raise [struct.error]. *)
Theorem keepalive_frame gzip_compress packet_id time :
  -32768 <= packet_id < 32768 ->
  if decide (- 2 ^ 63 <= time < 2 ^ 63)
  then exists frame,
      to_bytes gzip_compress packet_id false
        (C_KeepAlive.write_packet {| C_KeepAlive.time := time |}) = Return frame /\
      length frame = 12%nat /\
      parsed read_int64 (drop 4 frame) = Return time
  else to_bytes gzip_compress packet_id false
         (C_KeepAlive.write_packet {| C_KeepAlive.time := time |}) = Raise struct_error.
Proof.
  intros Hid. unfold to_bytes, written, C_KeepAlive.write_packet, write_int64.
  cbn [C_KeepAlive.time]. rewrite write_signed_run.
  change (256 ^ Z.of_nat 8 / 2) with (2 ^ 63).
  destruct (decide _) as [Ht|Ht]; [|reflexivity].
  cbv zeta. rewrite framing_run. cbn [app].
  rewrite decide_True by (rewrite le_bytes_length; lia).
  eexists. split; [reflexivity|]. split.
  - rewrite !length_app. unfold signed_bytes. rewrite !le_bytes_length. reflexivity.
  - rewrite app_assoc.
    rewrite drop_app_length' by (rewrite length_app; unfold signed_bytes; now rewrite !le_bytes_length).
    unfold parsed, read_int64.
    rewrite <- (app_nil_r (le_bytes 8 _)).
    rewrite read_signed_le_bytes; [reflexivity|lia|lia|exact Ht].
Qed.

Lemma keepalive_frame_witness :
  exists frame,
    to_bytes id 2 false (C_KeepAlive.write_packet {| C_KeepAlive.time := 1730000000000 |})
    = Return frame /\
    length frame = 12%nat /\
    parsed read_int64 (drop 4 frame) = Return 1730000000000.
Proof.
  exact (keepalive_frame id 2 1730000000000 ltac:(lia)).
Defined.

(** ** The layout of the position packets *)

(** The reader shared by the three classes, for the proofs. *)
Definition position_reader {A} (mk : Z -> Z * Z -> Z -> A) : M stream A :=
  object_id ← read_uint32;
  x ← read_int32;
  y ← read_int32;
  direction ← read_byte;
  mret (mk object_id (x, y) direction).

Lemma position_reader_layout {A} (mk : Z -> Z * Z -> Z -> A) object_id x y direction rest :
  0 <= object_id < 2 ^ 32 -> - 2 ^ 31 <= x < 2 ^ 31 -> - 2 ^ 31 <= y < 2 ^ 31 ->
  position_reader mk
    (le_bytes 4 object_id ++ signed_bytes 4 x ++ signed_bytes 4 y ++ direction :: rest)
  = (Return (mk object_id (x, y) direction), rest).
Proof.
  intros Hid Hx Hy. unfold position_reader.
  rewrite (bind_Return _ _ _ _ _ (read_uint32_le_bytes _ _ Hid)).
  rewrite (bind_Return _ _ _ _ _ (read_int32_signed_bytes _ _ Hx)).
  rewrite (bind_Return _ _ _ _ _ (read_int32_signed_bytes _ _ Hy)).
  rewrite (bind_Return _ _ _ _ _ (read_byte_cons _ _)).
  reflexivity.
Qed.

Lemma read_unsigned_short n s :
  (n <= 8)%nat -> (length s < n)%nat -> read_unsigned n s = (Raise struct_error, []).
Proof. intros Hn H. rewrite read_unsigned_run by exact Hn. now rewrite decide_False by lia. Qed.

Lemma read_signed_short n s :
  (n <= 8)%nat -> (length s < n)%nat -> read_signed n s = (Raise struct_error, []).
Proof. intros Hn H. rewrite read_signed_run by exact Hn. now rewrite decide_False by lia. Qed.

Lemma read_unsigned_enough n s :
  (n <= 8)%nat -> (n <= length s)%nat ->
  exists v, read_unsigned n s = (Return v, drop n s).
Proof.
  intros Hn H. rewrite read_unsigned_run by exact Hn. rewrite decide_True by lia. eauto.
Qed.

Lemma read_signed_enough n s :
  (n <= 8)%nat -> (n <= length s)%nat ->
  exists v, read_signed n s = (Return v, drop n s).
Proof.
  intros Hn H. rewrite read_signed_run by exact Hn. rewrite decide_True by lia.
  cbv zeta. eauto.
Qed.

Lemma position_reader_short {A} (mk : Z -> Z * Z -> Z -> A) (payload : list Z) :
  (length payload < 13)%nat ->
  position_reader mk payload = (Raise struct_error, []).
Proof.
  intros Hlen. unfold position_reader.
  destruct (decide (4 <= length payload)%nat) as [H1|H1];
    [|apply bind_Raise, read_unsigned_short; lia].
  destruct (read_unsigned_enough 4 payload ltac:(lia) H1) as [v1 E1].
  rewrite (bind_Return _ _ _ _ _ E1).
  destruct (decide (4 <= length (drop 4 payload))%nat) as [H2|H2];
    [|apply bind_Raise, read_signed_short; lia].
  destruct (read_signed_enough 4 _ ltac:(lia) H2) as [v2 E2].
  rewrite (bind_Return _ _ _ _ _ E2).
  destruct (decide (4 <= length (drop 4 (drop 4 payload)))%nat) as [H3|H3];
    [|apply bind_Raise, read_signed_short; lia].
  destruct (read_signed_enough 4 _ ltac:(lia) H3) as [v3 E3].
  rewrite (bind_Return _ _ _ _ _ E3).
  apply bind_Raise, read_unsigned_short; [lia|]. rewrite !length_drop in *. lia.
Qed.

(** [S_ObjectTurn], [S_ObjectWalk] and [S_ObjectRun] have one layout of
    thirteen bytes: object id (uint32), x and y (int32, two's
    complement), direction (one byte, of any value).  Such a payload
    parses to exactly these attributes, bytes after the thirteenth being
    ignored; a payload of fewer than thirteen bytes raises
    [struct.error]. *)
Theorem position_packets_layout object_id x y direction (rest short : list Z) :
  0 <= object_id < 2 ^ 32 -> - 2 ^ 31 <= x < 2 ^ 31 -> - 2 ^ 31 <= y < 2 ^ 31 ->
  (length short < 13)%nat ->
  let payload :=
    le_bytes 4 object_id ++ signed_bytes 4 x ++ signed_bytes 4 y ++ direction :: rest in
  parsed S_ObjectTurn_read_packet payload
  = Return {| S_ObjectTurn.object_id := object_id; S_ObjectTurn.location := (x, y);
              S_ObjectTurn.direction := direction |} /\
  parsed S_ObjectWalk_read_packet payload
  = Return {| S_ObjectWalk.object_id := object_id; S_ObjectWalk.location := (x, y);
              S_ObjectWalk.direction := direction |} /\
  parsed S_ObjectRun_read_packet payload
  = Return {| S_ObjectRun.object_id := object_id; S_ObjectRun.location := (x, y);
              S_ObjectRun.direction := direction |} /\
  parsed S_ObjectTurn_read_packet short = Raise struct_error /\
  parsed S_ObjectWalk_read_packet short = Raise struct_error /\
  parsed S_ObjectRun_read_packet short = Raise struct_error.
Proof.
  intros Hid Hx Hy Hshort payload. unfold parsed.
  change S_ObjectTurn_read_packet with (position_reader S_ObjectTurn.Build_t).
  change S_ObjectWalk_read_packet with (position_reader S_ObjectWalk.Build_t).
  change S_ObjectRun_read_packet with (position_reader S_ObjectRun.Build_t).
  unfold payload. rewrite !position_reader_layout by assumption.
  rewrite !position_reader_short by assumption.
  repeat split.
Qed.

Lemma position_packets_layout_witness :
  parsed S_ObjectWalk_read_packet [5; 0; 0; 0;  0x2C; 1; 0; 0;  0xFE; 0xFF; 0xFF; 0xFF;  9;  0xAA]
  = Return {| S_ObjectWalk.object_id := 5; S_ObjectWalk.location := (300, -2);
              S_ObjectWalk.direction := 9 |} /\
  parsed S_ObjectWalk_read_packet [5; 0; 0; 0;  0x2C; 1; 0; 0;  0xFE; 0xFF; 0xFF; 0xFF]
  = Raise struct_error.
Proof.
  destruct (position_packets_layout 5 300 (-2) 9 [0xAA]
              [5; 0; 0; 0;  0x2C; 1; 0; 0;  0xFE; 0xFF; 0xFF; 0xFF]
              ltac:(lia) ltac:(lia) ltac:(lia) ltac:(cbn; lia))
    as (_ & Hwalk & _ & _ & Hshort & _).
  split; [exact Hwalk | exact Hshort].
Defined.

(** ** Gold packets, from the wire to the state *)

Lemma read_uint32_parsed payload v :
  parsed read_uint32 payload = Return v -> Forall is_byte payload -> 0 <= v < 2 ^ 32.
Proof.
  unfold parsed, read_uint32. rewrite read_unsigned_run by lia.
  destruct (decide _) as [Hlen|]; [|discriminate]. cbn [fst]. intros [= <-] Hb.
  pose proof (le_value_range (take 4 payload) ltac:(apply Forall_take, Hb)) as Hr.
  rewrite length_take, Nat.min_l in Hr by lia. exact Hr.
Qed.

Lemma gold_parsed {A} (mk : Z -> A) payload pkt :
  parsed (gold ← read_uint32; mret (mk gold)) payload = Return pkt ->
  exists v, parsed read_uint32 payload = Return v /\ pkt = mk v.
Proof.
  unfold parsed. rewrite bind_run.
  destruct (read_uint32 payload) as [[v|e] rest]; [|discriminate].
  cbn. intros [= <-]. eauto.
Qed.

(** The amount of a gold packet is read with [read_uint32], so it is
    never negative.  Hence for packets parsed from bytes, on a state whose
    gold is not negative: [on_gained_gold] never lowers the gold,
    [on_lose_gold] never raises it, and the gold is not negative
    afterwards. *)
Theorem wire_gold_keeps_gold_nonnegative (s : GameState) (payload : list Z) :
  0 <= State.gold s -> Forall is_byte payload ->
  (forall pkt, parsed S_GainedGold_read_packet payload = Return pkt ->
     State.gold s <= State.gold (on_gained_gold pkt s)) /\
  (forall pkt, parsed S_LoseGold_read_packet payload = Return pkt ->
     0 <= State.gold (on_lose_gold pkt s) <= State.gold s).
Proof.
  intros Hgold Hbytes. split; intros pkt Hpkt.
  - apply (gold_parsed S_GainedGold.Build_t) in Hpkt as (v & Hv & ->).
    apply read_uint32_parsed in Hv; [|exact Hbytes]. cbn. lia.
  - apply (gold_parsed S_LoseGold.Build_t) in Hpkt as (v & Hv & ->).
    apply read_uint32_parsed in Hv; [|exact Hbytes]. cbn. lia.
Qed.

Lemma wire_gold_keeps_gold_nonnegative_witness :
  State.gold (on_gained_gold {| S_GainedGold.gold := 300 |} State.init) = 300 /\
  0 <= State.gold (on_lose_gold {| S_LoseGold.gold := 4294967295 |}
                     (on_gained_gold {| S_GainedGold.gold := 300 |} State.init)) <= 300.
Proof.
  split; [reflexivity|].
  apply (wire_gold_keeps_gold_nonnegative
           (on_gained_gold {| S_GainedGold.gold := 300 |} State.init)
           [0xFF; 0xFF; 0xFF; 0xFF]).
  - cbn. lia.
  - repeat constructor; unfold is_byte; lia.
  - reflexivity.
Defined.

End PacketClasses.

(* ===================================================================== *)
(** * connection.py: sending, and the receive loop on a whole stream      *)
(* ===================================================================== *)

Module Link.
Import Py Connection.

Section Link.

Variable Packet : Type.
Variable W : Type.
Variable gzip_decompress : list Z -> outcome (list Z).
Variable _SERVER_PACKETS : gmap Z (Packets.packet_class Packet).

#[local] Abbreviation MirConnection := (Connection.MirConnection Packet W).
#[local] Abbreviation Callable := (Connection.Callable Packet W).
#[local] Abbreviation guarded := (Connection.guarded Packet W).
#[local] Abbreviation run_handlers := (Connection.run_handlers Packet W).
#[local] Abbreviation dispatch := (Connection.dispatch Packet W).
#[local] Abbreviation on_packet := (Connection.on_packet Packet W).
#[local] Abbreviation connect := (Connection.connect Packet W).
#[local] Abbreviation init := (Connection.init Packet W).
#[local] Abbreviation disconnect := (Connection.disconnect Packet W).
#[local] Abbreviation mark_disconnected := (Connection.mark_disconnected Packet W).
#[local] Abbreviation set_receive_task := (Connection.set_receive_task Packet W).
#[local] Abbreviation parse_server_packet :=
  (Connection.parse_server_packet Packet gzip_decompress _SERVER_PACKETS).
#[local] Abbreviation receive_iteration :=
  (Connection.receive_iteration Packet W gzip_decompress _SERVER_PACKETS).
#[local] Abbreviation receive_while :=
  (Connection.receive_while Packet W gzip_decompress _SERVER_PACKETS).
#[local] Abbreviation _receive_loop :=
  (Connection._receive_loop Packet W gzip_decompress _SERVER_PACKETS).

(** ** [send] *)

(** The packets the bot sends: what [to_bytes] makes of one. *)
Variable Outgoing : Type.
Variable to_bytes : Outgoing -> outcome (list Z).

(** [send]:
<<
    if not self._connected or self._writer is None:
        raise ConnectionError("Not connected")
    data = packet.to_bytes()
    self._writer.write(data)
    await self._writer.drain()
    log.debug("Sent %s (%d bytes)", type(packet).__name__, len(data))
>>
    [sent] is what has been written to the stream so far, [drain] how
    [StreamWriter.drain] ends.  The result is how the call ends, the
    bytes written to the stream, and the length logged, if the call got
    that far. *)
Definition send (drain : outcome unit) (packet : Outgoing) (c : MirConnection)
    (sent : list Z) : outcome unit * list Z * option nat :=
  if negb (_connected _ _ c) || negb (_writer _ _ c) then
    (Raise (ConnectionError "Not connected"), sent, None)
  else
    match to_bytes packet with
    | Raise e => (Raise e, sent, None)
    | Return data =>
        match drain with
        | Raise e => (Raise e, sent ++ data, None)
        | Return _ => (Return tt, sent ++ data, Some (length data))
        end
    end.

Lemma disconnect_connected wait_closed (c : MirConnection) :
  _connected _ _ (disconnect wait_closed c).1.1 = false.
Proof.
  unfold Connection.disconnect. destruct c as [r wr hs dh rt kt cn ev]. cbn.
  destruct kt as [[]|], rt as [[]|], wr; cbn;
    try destruct (except_Exception_pass wait_closed); reflexivity.
Qed.

Lemma receive_loop_connected (c : MirConnection) input w :
  _connected _ _ (_receive_loop c input w).1.1 = false.
Proof.
  unfold Connection._receive_loop.
  destruct (_connected _ _ c && _reader _ _ c); [|reflexivity].
  destruct (receive_while c input w []) as [[e w'] l]. now destruct e.
Qed.

Lemma send_not_connected drain packet (c : MirConnection) sent :
  _connected _ _ c = false ->
  send drain packet c sent = (Raise (ConnectionError "Not connected"), sent, None).
Proof. intros H. unfold send. now rewrite H. Qed.

(** [send] needs a live connection: on a connection that was never
    connected, on the one [disconnect] leaves (however [disconnect]
    ended) and on the one the receive loop leaves when it ends (for
    whatever reason, the peer closing the stream included), [send] raises
    [ConnectionError("Not connected")] before the packet is serialised,
    and writes nothing. *)
Theorem send_needs_connection drain packet (c : MirConnection) wait_closed input w sent :
  let refused := (Raise (ConnectionError "Not connected"), sent, None) in
  send drain packet init sent = refused /\
  send drain packet (disconnect wait_closed c).1.1 sent = refused /\
  send drain packet (_receive_loop c input w).1.1 sent = refused.
Proof.
  intros refused. split; [reflexivity|]. split.
  - apply send_not_connected, disconnect_connected.
  - apply send_not_connected, receive_loop_connected.
Qed.

(** ** Registration by kind *)

(** [on_packet] touches the list of one kind only: two registrations for
    a kind are called in the order they were made, after the callbacks the
    kind already had; the callbacks of every other kind and the
    any-packet callback stay as they were, so a message of another kind
    is dispatched exactly as before. *)
Theorem on_packet_registration (c : MirConnection) (k k' : Z) (h1 h2 : Callable) :
  _handlers _ _ (on_packet k h2 (on_packet k h1 c)) !! k
    = Some (default [] (_handlers _ _ c !! k) ++ [h1; h2]) /\
  _default_handler _ _ (on_packet k h1 c) = _default_handler _ _ c /\
  (k' <> k ->
   _handlers _ _ (on_packet k h1 c) !! k' = _handlers _ _ c !! k' /\
   forall pkt w, dispatch (on_packet k h1 c) k' pkt w = dispatch c k' pkt w).
Proof.
  split; [|split].
  - rewrite on_packet_appends, on_packet_appends. cbn [default id].
    now rewrite <- app_assoc.
  - reflexivity.
  - intros Hk.
    assert (H : _handlers _ _ (on_packet k h1 c) !! k' = _handlers _ _ c !! k').
    { unfold Connection.on_packet. cbn. now rewrite lookup_insert_ne. }
    split; [exact H|]. intros pkt w. unfold Connection.dispatch.
    rewrite H. reflexivity.
Qed.

(** ** Callbacks do not stop one another *)

(** How many of the callbacks [hs] raise, each called on the world its
    predecessors left. *)
Fixpoint raising (hs : list Callable) (pkt : Packet) (w : W) : nat :=
  match hs with
  | [] => 0
  | h :: hs =>
      match (h pkt w).2 with
      | Raise _ => S (raising hs pkt (h pkt w).1)
      | Return _ => raising hs pkt (h pkt w).1
      end
  end.

Lemma guarded_caught (h : Callable) pkt w on_error :
  (h pkt w).2 <> Raise CancelledError ->
  guarded h pkt w on_error
  = ((h pkt w).1,
     match (h pkt w).2 with Raise _ => [on_error] | Return _ => [] end,
     None).
Proof.
  unfold Connection.guarded. destruct (h pkt w) as [w' [u|e]]; cbn.
  - reflexivity.
  - intros He. destruct e; cbn; congruence.
Qed.

(** As long as no callback lets a [CancelledError] out, every callback of
    the kind runs, in registration order, each on the world its
    predecessor left, also when predecessors raised; no exception leaves
    the loop over the callbacks; and the log gets exactly one
    [Error_handler] entry for each callback that raised, and nothing
    else. *)
Theorem handlers_isolated (hs : list Callable) packet_id pkt w :
  (forall h w, h ∈ hs -> (h pkt w).2 <> Raise CancelledError) ->
  run_handlers hs packet_id pkt w
  = (foldl (fun w h => (h pkt w).1) w hs,
     replicate (raising hs pkt w) (Error_handler packet_id),
     None).
Proof.
  revert w. induction hs as [|h hs IH]; intros w Hsafe; [reflexivity|].
  cbn [Connection.run_handlers foldl raising].
  rewrite (guarded_caught h pkt w (Error_handler packet_id)) by (apply Hsafe; left).
  rewrite IH by (intros h' w' Hin; apply Hsafe; now right).
  now destruct (h pkt w).2.
Qed.

(** ** The receive loop on a stream of frames *)







End Link.

(** ** On the one-kind catalogue *)

(** Three callbacks of which the second raises: all three have run, and
    the log has the one entry. *)
Lemma handlers_isolated_witness :
  Connection.run_handlers Z (list nat) [note 1; failing 2; note 3] 7 5 []
  = ([1; 2; 3]%nat, [Error_handler 7], None).
Proof.
  apply (handlers_isolated Z (list nat) [note 1; failing 2; note 3] 7 5 []).
  intros h w Hin. repeat (apply elem_of_cons in Hin as [->|Hin]); try discriminate.
  now apply elem_of_nil in Hin.
Defined.


End Link.

(* ===================================================================== *)
(** * state.py: the other reducers, and every state the reducers reach    *)
(* ===================================================================== *)

Module Reducers.
Import Py ServerPackets State.

(** ** The packets these reducers read *)

Module S_LoginSuccess.
Record t := { characters : list pyval }.
End S_LoginSuccess.

Module S_StartGame.
Record t := { result : Z (* read_byte *); resolution : Z (* read_int32 *) }.
End S_StartGame.

Module S_UserLocation.
Record t := { location : Z * Z; direction : Z (* read_byte *) }.
End S_UserLocation.

Module S_Death.
Record t := { location : Z * Z; direction : Z (* read_byte *) }.
End S_Death.

Module S_Pushed.
Record t := { location : Z * Z; direction : Z (* read_byte *) }.
End S_Pushed.

Module S_HealthChanged.
Record t := { hp : Z; mp : Z }.
End S_HealthChanged.

Module S_GainExperience.
Record t := { amount : Z (* read_uint32 *) }.
End S_GainExperience.

Module S_LevelChanged.
Record t := { level : Z; experience : Z; max_experience : Z }.
End S_LevelChanged.

(** [item] is the dict [_read_user_item] builds, [None] before
    [read_packet] has run. *)
Module S_GainedItem.
Record t := { item : pyval }.
End S_GainedItem.

Module S_DeleteItem.
Record t := { unique_id : Z (* read_uint64 *); count : Z (* read_uint16 *) }.
End S_DeleteItem.

(** The attributes [on_user_info] reads.  The class and the gender are
    read with [read_byte], the gold with [read_uint32]; the three lists
    are built by [_read_user_item_array] and [_read_client_magic]. *)
Module S_UserInformation.
Record t := {
  object_id : Z; name : string; class_ : Z; gender : Z; level : Z;
  location : Z * Z; direction : Z; hp : Z; mp : Z; experience : Z;
  max_experience : Z; gold : Z; inventory : list pyval;
  equipment : list pyval; magics : list pyval
}.
End S_UserInformation.

(** [info] is [None] until [read_packet] has run, and then the dict
    [_read_item_info] builds: the key ["index"] (from [read_int32]) first,
    followed by the other keys, [fields]. *)
Module S_NewItemInfo.
Record item_info := { index : Z; fields : list (string * pyval) }.
Record t := { info : option item_info }.
Definition dict (i : item_info) : pyval :=
  PDict (("index", PInt (index i)) :: fields i).
End S_NewItemInfo.

(** [buff] is [None] until [read_packet] has run, and then the dict
    [_read_client_buff] builds: the key ["type"] (from [read_byte]) first,
    followed by the other keys, [fields]. *)
Module S_AddBuff.
Record client_buff := { type : Z; fields : list (string * pyval) }.
Record t := { buff : option client_buff }.
Definition dict (b : client_buff) : pyval :=
  PDict (("type", PInt (type b)) :: fields b).
End S_AddBuff.

Module S_RemoveBuff.
Record t := { type : Z (* read_byte *); object_id : Z (* read_uint32 *) }.
End S_RemoveBuff.

Module S_NPCResponse.
Record t := { page : list string }.
End S_NPCResponse.

(** The attributes of [S_NPCGoods] but [rate], a float; the reducer reads
    none of them. *)
Module S_NPCGoods.
Record t := { items : list pyval; panel_type : Z; hide_added_stats : bool }.
End S_NPCGoods.

(** ** Attribute assignments *)

(** [state.hp = v]. *)
Definition set_hp (v : Z) (s : GameState) : GameState := {|
  stage := State.stage s; object_id := State.object_id s;
  name := State.name s; level := State.level s; class_ := State.class_ s;
  gender := State.gender s; location := State.location s;
  direction := State.direction s; hp := v; mp := State.mp s;
  max_hp := State.max_hp s; max_mp := State.max_mp s;
  experience := State.experience s; max_experience := State.max_experience s;
  gold := State.gold s; credit := State.credit s; dead := State.dead s;
  map_index := State.map_index s; map_title := State.map_title s;
  map_file := State.map_file s; inventory := State.inventory s;
  equipment := State.equipment s; magics := State.magics s;
  item_infos := State.item_infos s; players := State.players s;
  monsters := State.monsters s; npcs := State.npcs s;
  ground_items := State.ground_items s; buffs := State.buffs s;
  characters := State.characters s; npc_page := State.npc_page s;
  objects := State.objects s; next_ref := State.next_ref s
|}.

(** [state.mp = v]. *)
Definition set_mp (v : Z) (s : GameState) : GameState := {|
  stage := State.stage s; object_id := State.object_id s;
  name := State.name s; level := State.level s; class_ := State.class_ s;
  gender := State.gender s; location := State.location s;
  direction := State.direction s; hp := State.hp s; mp := v;
  max_hp := State.max_hp s; max_mp := State.max_mp s;
  experience := State.experience s; max_experience := State.max_experience s;
  gold := State.gold s; credit := State.credit s; dead := State.dead s;
  map_index := State.map_index s; map_title := State.map_title s;
  map_file := State.map_file s; inventory := State.inventory s;
  equipment := State.equipment s; magics := State.magics s;
  item_infos := State.item_infos s; players := State.players s;
  monsters := State.monsters s; npcs := State.npcs s;
  ground_items := State.ground_items s; buffs := State.buffs s;
  characters := State.characters s; npc_page := State.npc_page s;
  objects := State.objects s; next_ref := State.next_ref s
|}.

(** [state.experience = v]. *)
Definition set_experience (v : Z) (s : GameState) : GameState := {|
  stage := State.stage s; object_id := State.object_id s;
  name := State.name s; level := State.level s; class_ := State.class_ s;
  gender := State.gender s; location := State.location s;
  direction := State.direction s; hp := State.hp s; mp := State.mp s;
  max_hp := State.max_hp s; max_mp := State.max_mp s; experience := v;
  max_experience := State.max_experience s; gold := State.gold s;
  credit := State.credit s; dead := State.dead s;
  map_index := State.map_index s; map_title := State.map_title s;
  map_file := State.map_file s; inventory := State.inventory s;
  equipment := State.equipment s; magics := State.magics s;
  item_infos := State.item_infos s; players := State.players s;
  monsters := State.monsters s; npcs := State.npcs s;
  ground_items := State.ground_items s; buffs := State.buffs s;
  characters := State.characters s; npc_page := State.npc_page s;
  objects := State.objects s; next_ref := State.next_ref s
|}.

(** [state.level = v]. *)
Definition set_level (v : Z) (s : GameState) : GameState := {|
  stage := State.stage s; object_id := State.object_id s;
  name := State.name s; level := v; class_ := State.class_ s;
  gender := State.gender s; location := State.location s;
  direction := State.direction s; hp := State.hp s; mp := State.mp s;
  max_hp := State.max_hp s; max_mp := State.max_mp s;
  experience := State.experience s; max_experience := State.max_experience s;
  gold := State.gold s; credit := State.credit s; dead := State.dead s;
  map_index := State.map_index s; map_title := State.map_title s;
  map_file := State.map_file s; inventory := State.inventory s;
  equipment := State.equipment s; magics := State.magics s;
  item_infos := State.item_infos s; players := State.players s;
  monsters := State.monsters s; npcs := State.npcs s;
  ground_items := State.ground_items s; buffs := State.buffs s;
  characters := State.characters s; npc_page := State.npc_page s;
  objects := State.objects s; next_ref := State.next_ref s
|}.

(** [state.max_experience = v]. *)
Definition set_max_experience (v : Z) (s : GameState) : GameState := {|
  stage := State.stage s; object_id := State.object_id s;
  name := State.name s; level := State.level s; class_ := State.class_ s;
  gender := State.gender s; location := State.location s;
  direction := State.direction s; hp := State.hp s; mp := State.mp s;
  max_hp := State.max_hp s; max_mp := State.max_mp s;
  experience := State.experience s; max_experience := v;
  gold := State.gold s; credit := State.credit s; dead := State.dead s;
  map_index := State.map_index s; map_title := State.map_title s;
  map_file := State.map_file s; inventory := State.inventory s;
  equipment := State.equipment s; magics := State.magics s;
  item_infos := State.item_infos s; players := State.players s;
  monsters := State.monsters s; npcs := State.npcs s;
  ground_items := State.ground_items s; buffs := State.buffs s;
  characters := State.characters s; npc_page := State.npc_page s;
  objects := State.objects s; next_ref := State.next_ref s
|}.

(** [state.inventory = v]. *)
Definition set_inventory (v : list pyval) (s : GameState) : GameState := {|
  stage := State.stage s; object_id := State.object_id s;
  name := State.name s; level := State.level s; class_ := State.class_ s;
  gender := State.gender s; location := State.location s;
  direction := State.direction s; hp := State.hp s; mp := State.mp s;
  max_hp := State.max_hp s; max_mp := State.max_mp s;
  experience := State.experience s; max_experience := State.max_experience s;
  gold := State.gold s; credit := State.credit s; dead := State.dead s;
  map_index := State.map_index s; map_title := State.map_title s;
  map_file := State.map_file s; inventory := v;
  equipment := State.equipment s; magics := State.magics s;
  item_infos := State.item_infos s; players := State.players s;
  monsters := State.monsters s; npcs := State.npcs s;
  ground_items := State.ground_items s; buffs := State.buffs s;
  characters := State.characters s; npc_page := State.npc_page s;
  objects := State.objects s; next_ref := State.next_ref s
|}.
(** [state.object_id = v]. *)
Definition set_object_id (v : Z) (s : GameState) : GameState := {|
  stage := State.stage s; object_id := v; name := State.name s;
  level := State.level s; class_ := State.class_ s; gender := State.gender s;
  location := State.location s; direction := State.direction s;
  hp := State.hp s; mp := State.mp s; max_hp := State.max_hp s;
  max_mp := State.max_mp s; experience := State.experience s;
  max_experience := State.max_experience s; gold := State.gold s;
  credit := State.credit s; dead := State.dead s;
  map_index := State.map_index s; map_title := State.map_title s;
  map_file := State.map_file s; inventory := State.inventory s;
  equipment := State.equipment s; magics := State.magics s;
  item_infos := State.item_infos s; players := State.players s;
  monsters := State.monsters s; npcs := State.npcs s;
  ground_items := State.ground_items s; buffs := State.buffs s;
  characters := State.characters s; npc_page := State.npc_page s;
  objects := State.objects s; next_ref := State.next_ref s
|}.

(** [state.name = v]. *)
Definition set_name (v : string) (s : GameState) : GameState := {|
  stage := State.stage s; object_id := State.object_id s; name := v;
  level := State.level s; class_ := State.class_ s; gender := State.gender s;
  location := State.location s; direction := State.direction s;
  hp := State.hp s; mp := State.mp s; max_hp := State.max_hp s;
  max_mp := State.max_mp s; experience := State.experience s;
  max_experience := State.max_experience s; gold := State.gold s;
  credit := State.credit s; dead := State.dead s;
  map_index := State.map_index s; map_title := State.map_title s;
  map_file := State.map_file s; inventory := State.inventory s;
  equipment := State.equipment s; magics := State.magics s;
  item_infos := State.item_infos s; players := State.players s;
  monsters := State.monsters s; npcs := State.npcs s;
  ground_items := State.ground_items s; buffs := State.buffs s;
  characters := State.characters s; npc_page := State.npc_page s;
  objects := State.objects s; next_ref := State.next_ref s
|}.

(** [state.class_ = v]. *)
Definition set_class_ (v : Z) (s : GameState) : GameState := {|
  stage := State.stage s; object_id := State.object_id s;
  name := State.name s; level := State.level s; class_ := v;
  gender := State.gender s; location := State.location s;
  direction := State.direction s; hp := State.hp s; mp := State.mp s;
  max_hp := State.max_hp s; max_mp := State.max_mp s;
  experience := State.experience s; max_experience := State.max_experience s;
  gold := State.gold s; credit := State.credit s; dead := State.dead s;
  map_index := State.map_index s; map_title := State.map_title s;
  map_file := State.map_file s; inventory := State.inventory s;
  equipment := State.equipment s; magics := State.magics s;
  item_infos := State.item_infos s; players := State.players s;
  monsters := State.monsters s; npcs := State.npcs s;
  ground_items := State.ground_items s; buffs := State.buffs s;
  characters := State.characters s; npc_page := State.npc_page s;
  objects := State.objects s; next_ref := State.next_ref s
|}.

(** [state.gender = v]. *)
Definition set_gender (v : Z) (s : GameState) : GameState := {|
  stage := State.stage s; object_id := State.object_id s;
  name := State.name s; level := State.level s; class_ := State.class_ s;
  gender := v; location := State.location s; direction := State.direction s;
  hp := State.hp s; mp := State.mp s; max_hp := State.max_hp s;
  max_mp := State.max_mp s; experience := State.experience s;
  max_experience := State.max_experience s; gold := State.gold s;
  credit := State.credit s; dead := State.dead s;
  map_index := State.map_index s; map_title := State.map_title s;
  map_file := State.map_file s; inventory := State.inventory s;
  equipment := State.equipment s; magics := State.magics s;
  item_infos := State.item_infos s; players := State.players s;
  monsters := State.monsters s; npcs := State.npcs s;
  ground_items := State.ground_items s; buffs := State.buffs s;
  characters := State.characters s; npc_page := State.npc_page s;
  objects := State.objects s; next_ref := State.next_ref s
|}.

(** [state.max_hp = v]. *)
Definition set_max_hp (v : Z) (s : GameState) : GameState := {|
  stage := State.stage s; object_id := State.object_id s;
  name := State.name s; level := State.level s; class_ := State.class_ s;
  gender := State.gender s; location := State.location s;
  direction := State.direction s; hp := State.hp s; mp := State.mp s;
  max_hp := v; max_mp := State.max_mp s; experience := State.experience s;
  max_experience := State.max_experience s; gold := State.gold s;
  credit := State.credit s; dead := State.dead s;
  map_index := State.map_index s; map_title := State.map_title s;
  map_file := State.map_file s; inventory := State.inventory s;
  equipment := State.equipment s; magics := State.magics s;
  item_infos := State.item_infos s; players := State.players s;
  monsters := State.monsters s; npcs := State.npcs s;
  ground_items := State.ground_items s; buffs := State.buffs s;
  characters := State.characters s; npc_page := State.npc_page s;
  objects := State.objects s; next_ref := State.next_ref s
|}.

(** [state.max_mp = v]. *)
Definition set_max_mp (v : Z) (s : GameState) : GameState := {|
  stage := State.stage s; object_id := State.object_id s;
  name := State.name s; level := State.level s; class_ := State.class_ s;
  gender := State.gender s; location := State.location s;
  direction := State.direction s; hp := State.hp s; mp := State.mp s;
  max_hp := State.max_hp s; max_mp := v; experience := State.experience s;
  max_experience := State.max_experience s; gold := State.gold s;
  credit := State.credit s; dead := State.dead s;
  map_index := State.map_index s; map_title := State.map_title s;
  map_file := State.map_file s; inventory := State.inventory s;
  equipment := State.equipment s; magics := State.magics s;
  item_infos := State.item_infos s; players := State.players s;
  monsters := State.monsters s; npcs := State.npcs s;
  ground_items := State.ground_items s; buffs := State.buffs s;
  characters := State.characters s; npc_page := State.npc_page s;
  objects := State.objects s; next_ref := State.next_ref s
|}.

(** [state.equipment = v]. *)
Definition set_equipment (v : list pyval) (s : GameState) : GameState := {|
  stage := State.stage s; object_id := State.object_id s;
  name := State.name s; level := State.level s; class_ := State.class_ s;
  gender := State.gender s; location := State.location s;
  direction := State.direction s; hp := State.hp s; mp := State.mp s;
  max_hp := State.max_hp s; max_mp := State.max_mp s;
  experience := State.experience s; max_experience := State.max_experience s;
  gold := State.gold s; credit := State.credit s; dead := State.dead s;
  map_index := State.map_index s; map_title := State.map_title s;
  map_file := State.map_file s; inventory := State.inventory s;
  equipment := v; magics := State.magics s; item_infos := State.item_infos s;
  players := State.players s; monsters := State.monsters s;
  npcs := State.npcs s; ground_items := State.ground_items s;
  buffs := State.buffs s; characters := State.characters s;
  npc_page := State.npc_page s; objects := State.objects s;
  next_ref := State.next_ref s
|}.

(** [state.magics = v]. *)
Definition set_magics (v : list pyval) (s : GameState) : GameState := {|
  stage := State.stage s; object_id := State.object_id s;
  name := State.name s; level := State.level s; class_ := State.class_ s;
  gender := State.gender s; location := State.location s;
  direction := State.direction s; hp := State.hp s; mp := State.mp s;
  max_hp := State.max_hp s; max_mp := State.max_mp s;
  experience := State.experience s; max_experience := State.max_experience s;
  gold := State.gold s; credit := State.credit s; dead := State.dead s;
  map_index := State.map_index s; map_title := State.map_title s;
  map_file := State.map_file s; inventory := State.inventory s;
  equipment := State.equipment s; magics := v;
  item_infos := State.item_infos s; players := State.players s;
  monsters := State.monsters s; npcs := State.npcs s;
  ground_items := State.ground_items s; buffs := State.buffs s;
  characters := State.characters s; npc_page := State.npc_page s;
  objects := State.objects s; next_ref := State.next_ref s
|}.

(** [state.item_infos = v]. *)
Definition set_item_infos (v : gmap Z pyval) (s : GameState) : GameState := {|
  stage := State.stage s; object_id := State.object_id s;
  name := State.name s; level := State.level s; class_ := State.class_ s;
  gender := State.gender s; location := State.location s;
  direction := State.direction s; hp := State.hp s; mp := State.mp s;
  max_hp := State.max_hp s; max_mp := State.max_mp s;
  experience := State.experience s; max_experience := State.max_experience s;
  gold := State.gold s; credit := State.credit s; dead := State.dead s;
  map_index := State.map_index s; map_title := State.map_title s;
  map_file := State.map_file s; inventory := State.inventory s;
  equipment := State.equipment s; magics := State.magics s; item_infos := v;
  players := State.players s; monsters := State.monsters s;
  npcs := State.npcs s; ground_items := State.ground_items s;
  buffs := State.buffs s; characters := State.characters s;
  npc_page := State.npc_page s; objects := State.objects s;
  next_ref := State.next_ref s
|}.

(** [state.buffs = v]. *)
Definition set_buffs (v : gmap Z pyval) (s : GameState) : GameState := {|
  stage := State.stage s; object_id := State.object_id s;
  name := State.name s; level := State.level s; class_ := State.class_ s;
  gender := State.gender s; location := State.location s;
  direction := State.direction s; hp := State.hp s; mp := State.mp s;
  max_hp := State.max_hp s; max_mp := State.max_mp s;
  experience := State.experience s; max_experience := State.max_experience s;
  gold := State.gold s; credit := State.credit s; dead := State.dead s;
  map_index := State.map_index s; map_title := State.map_title s;
  map_file := State.map_file s; inventory := State.inventory s;
  equipment := State.equipment s; magics := State.magics s;
  item_infos := State.item_infos s; players := State.players s;
  monsters := State.monsters s; npcs := State.npcs s;
  ground_items := State.ground_items s; buffs := v;
  characters := State.characters s; npc_page := State.npc_page s;
  objects := State.objects s; next_ref := State.next_ref s
|}.

(** [state.npc_page = v]. *)
Definition set_npc_page (v : list string) (s : GameState) : GameState := {|
  stage := State.stage s; object_id := State.object_id s;
  name := State.name s; level := State.level s; class_ := State.class_ s;
  gender := State.gender s; location := State.location s;
  direction := State.direction s; hp := State.hp s; mp := State.mp s;
  max_hp := State.max_hp s; max_mp := State.max_mp s;
  experience := State.experience s; max_experience := State.max_experience s;
  gold := State.gold s; credit := State.credit s; dead := State.dead s;
  map_index := State.map_index s; map_title := State.map_title s;
  map_file := State.map_file s; inventory := State.inventory s;
  equipment := State.equipment s; magics := State.magics s;
  item_infos := State.item_infos s; players := State.players s;
  monsters := State.monsters s; npcs := State.npcs s;
  ground_items := State.ground_items s; buffs := State.buffs s;
  characters := State.characters s; npc_page := v;
  objects := State.objects s; next_ref := State.next_ref s
|}.

(** ** Python values *)

(** Truth value testing, as [if x:] does it. *)
Definition truthy (v : pyval) : bool :=
  match v with
  | PNone => false
  | PBool b => b
  | PInt n => negb (n =? 0)
  | PStr s => negb (String.eqb s "")
  | PList l => match l with [] => false | _ => true end
  | PDict d => match d with [] => false | _ => true end
  end.

(** [d.get(key)]: [None] (the Python value) when the key is missing. *)
Fixpoint dict_get (d : list (string * pyval)) (key : string) : option pyval :=
  match d with
  | [] => None
  | (k, v) :: d => if String.eqb k key then Some v else dict_get d key
  end.

(** [d[key] = v]: an existing key keeps its place. *)
Fixpoint dict_set (d : list (string * pyval)) (key : string) (v : pyval)
  : list (string * pyval) :=
  match d with
  | [] => [(key, v)]
  | (k, x) :: d =>
      if String.eqb k key then (k, v) :: d else (k, x) :: dict_set d key v
  end.

(** The integer behind a value that arithmetic and ordering accept as
    one: an [int], or a [bool] (a subclass of [int]). *)
Definition as_int (v : pyval) : option Z :=
  match v with
  | PInt n => Some n
  | PBool b => Some (if b then 1 else 0)
  | _ => None
  end.

(** [x == n] for an integer [n], [x] being what [d.get(key)] returned. *)
Definition eq_int (x : option pyval) (n : Z) : bool :=
  match x with
  | Some v => match as_int v with Some m => m =? n | None => false end
  | None => false
  end.

(** Modelled from the spec: [enums.py] is not among the sources.
    [int(direction)] for a [MirDirection], the inverse of
    [MirDirection_of]. *)
Definition MirDirection_value (d : MirDirection) : Z :=
  match d with
  | Up => 0 | UpRight => 1 | Right => 2 | DownRight => 3
  | Down => 4 | DownLeft => 5 | Left => 6 | UpLeft => 7
  end.

(** ** The reducers *)

(** [state.stage = GameStage.LOGIN]. *)
Definition on_connected (s : GameState) : GameState := set_stage LOGIN s.

Definition on_login_success (pkt : S_LoginSuccess.t) (s : GameState) : GameState :=
  let s := set_characters (S_LoginSuccess.characters pkt) s in
  set_stage SELECT s.

(** [if pkt.result == 4: state.stage = GameStage.GAME]. *)
Definition on_start_game (pkt : S_StartGame.t) (s : GameState) : GameState :=
  if S_StartGame.result pkt =? 4 then set_stage GAME s else s.

(** [on_user_location] and [on_pushed]:
<<
    state.location = pkt.location
    state.direction = MirDirection(pkt.direction)
>> *)
Definition on_user_location (pkt : S_UserLocation.t) (s : GameState)
  : GameState * outcome unit :=
  let s := set_location (S_UserLocation.location pkt) s in
  match MirDirection_of (S_UserLocation.direction pkt) with
  | Raise e => (s, Raise e)
  | Return d => (set_direction d s, Return tt)
  end.

Definition on_pushed (pkt : S_Pushed.t) (s : GameState) : GameState * outcome unit :=
  let s := set_location (S_Pushed.location pkt) s in
  match MirDirection_of (S_Pushed.direction pkt) with
  | Raise e => (s, Raise e)
  | Return d => (set_direction d s, Return tt)
  end.

Definition on_health_changed (pkt : S_HealthChanged.t) (s : GameState) : GameState :=
  let s := set_hp (S_HealthChanged.hp pkt) s in
  set_mp (S_HealthChanged.mp pkt) s.

(** [on_death]:
<<
    state.dead = True
    state.location = pkt.location
    state.direction = MirDirection(pkt.direction)
>> *)
Definition on_death (pkt : S_Death.t) (s : GameState) : GameState * outcome unit :=
  let s := set_dead true s in
  let s := set_location (S_Death.location pkt) s in
  match MirDirection_of (S_Death.direction pkt) with
  | Raise e => (s, Raise e)
  | Return d => (set_direction d s, Return tt)
  end.

Definition on_revived (s : GameState) : GameState := set_dead false s.

(** [state.experience += pkt.amount]. *)
Definition on_gain_experience (pkt : S_GainExperience.t) (s : GameState) : GameState :=
  set_experience (State.experience s + S_GainExperience.amount pkt) s.

Definition on_level_changed (pkt : S_LevelChanged.t) (s : GameState) : GameState :=
  let s := set_level (S_LevelChanged.level pkt) s in
  let s := set_experience (S_LevelChanged.experience pkt) s in
  set_max_experience (S_LevelChanged.max_experience pkt) s.

(** The [for ... else] of [on_gained_item]:
<<
    for i, slot in enumerate(state.inventory):
        if slot is None:
            state.inventory[i] = pkt.item
            break
    else:
        state.inventory.append(pkt.item)
>> *)
Fixpoint place (item : pyval) (inventory : list pyval) : list pyval :=
  match inventory with
  | [] => [item]
  | PNone :: inventory => item :: inventory
  | slot :: inventory => slot :: place item inventory
  end.

(** [on_gained_item]: [if pkt.item:] and the loop above. *)
Definition on_gained_item (pkt : S_GainedItem.t) (s : GameState) : GameState :=
  if truthy (S_GainedItem.item pkt)
  then set_inventory (place (S_GainedItem.item pkt) (State.inventory s)) s
  else s.

(** The loop of [on_delete_item]:
<<
    for i, item in enumerate(state.inventory):
        if item and item.get("unique_id") == pkt.unique_id:
            if pkt.count >= item.get("count", 1):
                state.inventory[i] = None
            else:
                item["count"] = item.get("count", 1) - pkt.count
            break
>>
    A slot that is true and no dict has no [get] ([AttributeError]); a
    count that is no number cannot be compared ([TypeError]).  Either is
    raised before anything has been changed. *)
Fixpoint delete_in (unique_id count : Z) (inventory : list pyval)
  : outcome (list pyval) :=
  match inventory with
  | [] => Return []
  | item :: inventory =>
      let skip :=
        match delete_in unique_id count inventory with
        | Return inventory => Return (item :: inventory)
        | Raise e => Raise e
        end in
      if truthy item then
        match item with
        | PDict d =>
            if eq_int (dict_get d "unique_id") unique_id then
              match as_int (default (PInt 1) (dict_get d "count")) with
              | Some have =>
                  if count >=? have then Return (PNone :: inventory)
                  else Return (PDict (dict_set d "count" (PInt (have - count)))
                                 :: inventory)
              | None => Raise (OtherException "TypeError")
              end
            else skip
        | _ => Raise (OtherException "AttributeError")
        end
      else skip
  end.

Definition on_delete_item (pkt : S_DeleteItem.t) (s : GameState)
  : GameState * outcome unit :=
  match delete_in (S_DeleteItem.unique_id pkt) (S_DeleteItem.count pkt)
          (State.inventory s) with
  | Return inventory => (set_inventory inventory s, Return tt)
  | Raise e => (s, Raise e)
  end.

(** [on_new_item_info]:
<<
    if pkt.info:
        state.item_infos[pkt.info["index"]] = pkt.info
>>
    The dict [_read_item_info] builds is not empty, hence true. *)
Definition on_new_item_info (pkt : S_NewItemInfo.t) (s : GameState) : GameState :=
  match S_NewItemInfo.info pkt with
  | Some info =>
      set_item_infos
        (<[S_NewItemInfo.index info := S_NewItemInfo.dict info]> (State.item_infos s)) s
  | None => s
  end.

(** [on_add_buff]:
<<
    if pkt.buff:
        state.buffs[pkt.buff["type"]] = pkt.buff
>> *)
Definition on_add_buff (pkt : S_AddBuff.t) (s : GameState) : GameState :=
  match S_AddBuff.buff pkt with
  | Some buff =>
      set_buffs (<[S_AddBuff.type buff := S_AddBuff.dict buff]> (State.buffs s)) s
  | None => s
  end.

(** [state.buffs.pop(pkt.type, None)]. *)
Definition on_remove_buff (pkt : S_RemoveBuff.t) (s : GameState) : GameState :=
  set_buffs (delete (S_RemoveBuff.type pkt) (State.buffs s)) s.

(** [state.npc_page = pkt.page]. *)
Definition on_npc_response (pkt : S_NPCResponse.t) (s : GameState) : GameState :=
  set_npc_page (S_NPCResponse.page pkt) s.

(** [pass]. *)
Definition on_npc_goods (pkt : S_NPCGoods.t) (s : GameState) : GameState := s.

(** ** Entries of the nearby-object tables *)

(** The object that table number [i] (players, monsters, NPCs, ground
    items) holds under [oid]. *)
Definition entries (s : GameState) (i : nat) (oid : Z) : option ObjectInfo.t :=
  match tables s !! i with
  | Some t => entry t s oid
  | None => None
  end.

(** [s'] is [s] with the object [o] in table [k] under [oid], everything
    else in the four tables being as it was. *)
Definition appears (k : nat) (oid : Z) (o : ObjectInfo.t) (s s' : GameState) : Prop :=
  entries s' k oid = Some o /\
  forall j oid', (j, oid') <> (k, oid) -> entries s' j oid' = entries s j oid'.

Lemma stored_appears s s' k t oid o :
  wf s -> tables s !! k = Some t ->
  tables s' = <[k := <[oid := next_ref s]> t]> (tables s) ->
  objects s' = <[next_ref s := o]> (objects s) ->
  appears k oid o s s'.
Proof.
  intros [Halloc _] Hk Htabs Hobjs.
  assert (Hlen : (k < length (tables s))%nat) by (eapply lookup_lt_Some; eauto).
  split.
  - unfold entries, entry. rewrite Htabs, list_lookup_insert_eq by exact Hlen.
    rewrite lookup_insert_eq, Hobjs. apply lookup_insert_eq.
  - intros j oid' Hne. unfold entries. rewrite Htabs.
    assert (Hold : forall t', tables s !! j = Some t' -> forall r,
              t' !! oid' = Some r -> objects s' !! r = objects s !! r).
    { intros t' Hj r Hr. rewrite Hobjs. apply lookup_insert_ne.
      destruct (Halloc j oid' r) as [Hlt _]; [now exists t'|]. lia. }
    destruct (decide (j = k)) as [->|Hjk].
    + rewrite list_lookup_insert_eq by exact Hlen. rewrite Hk. unfold entry.
      rewrite lookup_insert_ne by (intros ->; now apply Hne).
      destruct (t !! oid') as [r|] eqn:Hr; [|reflexivity].
      now apply (Hold t Hk).
    + rewrite list_lookup_insert_ne by auto.
      destruct (tables s !! j) as [t'|] eqn:Hj; [|reflexivity]. unfold entry.
      destruct (t' !! oid') as [r|] eqn:Hr; [|reflexivity].
      now apply (Hold t' eq_refl).
Qed.

(** An appearance packet stores a newly built [ObjectInfo] under its id
    in the table of its kind: the entry is then exactly what the packet
    says, with nothing kept of an object the table held under that id
    before (its [dead] flag, its [extras] such as ["health_percent"]).
    No other entry changes, neither in that table nor in the other three;
    in particular the id is not removed from another table that has it. *)
Theorem appearance_replaces_entry (s : GameState) :
  wf s ->
  (forall pkt, appears 0 (S_ObjectPlayer.object_id pkt)
     {| ObjectInfo.object_id := S_ObjectPlayer.object_id pkt;
        ObjectInfo.name := S_ObjectPlayer.name pkt;
        ObjectInfo.location := S_ObjectPlayer.location pkt;
        ObjectInfo.direction := S_ObjectPlayer.direction pkt;
        ObjectInfo.dead := S_ObjectPlayer.dead pkt;
        ObjectInfo.extras := ∅ |} s (on_object_player pkt s)) /\
  (forall pkt, appears 1 (S_ObjectMonster.object_id pkt)
     {| ObjectInfo.object_id := S_ObjectMonster.object_id pkt;
        ObjectInfo.name := S_ObjectMonster.name pkt;
        ObjectInfo.location := S_ObjectMonster.location pkt;
        ObjectInfo.direction := S_ObjectMonster.direction pkt;
        ObjectInfo.dead := S_ObjectMonster.dead pkt;
        ObjectInfo.extras := ∅ |} s (on_object_monster pkt s)) /\
  (forall pkt, appears 2 (S_ObjectNPC.object_id pkt)
     {| ObjectInfo.object_id := S_ObjectNPC.object_id pkt;
        ObjectInfo.name := S_ObjectNPC.name pkt;
        ObjectInfo.location := S_ObjectNPC.location pkt;
        ObjectInfo.direction := S_ObjectNPC.direction pkt;
        ObjectInfo.dead := false;
        ObjectInfo.extras := ∅ |} s (on_object_npc pkt s)) /\
  (forall pkt, appears 3 (S_ObjectItem.object_id pkt)
     {| ObjectInfo.object_id := S_ObjectItem.object_id pkt;
        ObjectInfo.name := S_ObjectItem.name pkt;
        ObjectInfo.location := S_ObjectItem.location pkt;
        ObjectInfo.direction := 0;
        ObjectInfo.dead := false;
        ObjectInfo.extras := ∅ |} s (on_object_item pkt s)) /\
  (forall pkt, appears 3 (S_ObjectGold.object_id pkt)
     {| ObjectInfo.object_id := S_ObjectGold.object_id pkt;
        ObjectInfo.name := "Gold (" +:+ pretty (S_ObjectGold.gold pkt) +:+ ")";
        ObjectInfo.location := S_ObjectGold.location pkt;
        ObjectInfo.direction := 0;
        ObjectInfo.dead := false;
        ObjectInfo.extras := {[ "gold" := S_ObjectGold.gold pkt ]} |}
     s (on_object_gold pkt s)).
Proof.
  intros Hwf. split; [|split; [|split; [|split]]]; intros pkt.
  - now apply (stored_appears s _ 0%nat (players s)).
  - now apply (stored_appears s _ 1%nat (monsters s)).
  - now apply (stored_appears s _ 2%nat (npcs s)).
  - now apply (stored_appears s _ 3%nat (ground_items s)).
  - now apply (stored_appears s _ 3%nat (ground_items s)).
Qed.

Lemma appearance_replaces_entry_witness :
  entries (on_object_monster monster_5 crowded) 1 5
  = Some {| ObjectInfo.object_id := 5; ObjectInfo.name := "Deer";
            ObjectInfo.location := (10, 10); ObjectInfo.direction := 4;
            ObjectInfo.dead := false; ObjectInfo.extras := ∅ |} /\
  entries (on_object_monster monster_5 crowded) 0 5 = entries crowded 0 5.
Proof.
  destruct (appearance_replaces_entry crowded wf_crowded) as (_ & H & _).
  destruct (H monster_5) as [Hnew Hold]. split; [exact Hnew|].
  apply Hold. discriminate.
Defined.

(** [on_object_remove] forgets the id in all four tables, ground items
    included, and nothing but that id: every entry under another id is as
    before, no [ObjectInfo] is changed, and a second removal of the same
    id (or the removal of an id no table has) changes nothing. *)
Theorem object_remove_forgets_id (pkt : S_ObjectRemove.t) (s : GameState) :
  let oid := S_ObjectRemove.object_id pkt in
  let s' := on_object_remove pkt s in
  (forall i, entries s' i oid = None) /\
  (forall i oid', oid' <> oid -> entries s' i oid' = entries s i oid') /\
  objects s' = objects s /\
  on_object_remove pkt s' = s' /\
  ((forall i, entries s i oid = None) -> wf s -> tables s' = tables s).
Proof.
  intros oid s'. split; [|split; [|split; [reflexivity|split]]].
  - intros i. unfold entries.
    destruct i as [|[|[|[|i]]]]; cbn; try reflexivity;
      unfold entry; cbn; now rewrite lookup_delete_eq.
  - intros i oid' Hne. unfold entries.
    destruct i as [|[|[|[|i]]]]; cbn; try reflexivity;
      unfold entry; cbn; now rewrite lookup_delete_ne by auto.
  - unfold s', on_object_remove. cbn. fold oid. now rewrite !delete_delete_eq.
  - intros Hnone [Halloc _]. unfold s', on_object_remove, tables. cbn. fold oid.
    assert (Hno : forall i t, tables s !! i = Some t -> t !! oid = None).
    { intros i t Ht. destruct (t !! oid) as [r|] eqn:Hr; [|reflexivity].
      destruct (Halloc i oid r) as [_ [o Ho]]; [now exists t|].
      specialize (Hnone i). unfold entries, entry in Hnone.
      rewrite Ht, Hr, Ho in Hnone. discriminate. }
    rewrite !delete_id; [reflexivity| | | |].
    + apply (Hno 3%nat). reflexivity.
    + apply (Hno 2%nat). reflexivity.
    + apply (Hno 1%nat). reflexivity.
    + apply (Hno 0%nat). reflexivity.
Qed.

(** ** Death and health of a nearby object *)

Lemma update_first_players_monsters s oid f :
  wf s ->
  let s' := update_first_in [players s; monsters s] oid f s in
  tables s' = tables s /\
  match players s !! oid, monsters s !! oid with
  | Some _, _ =>
      is_Some (entries s 0 oid) /\
      entries s' 0 oid = f <$> entries s 0 oid /\
      forall j oid', (j, oid') <> (0%nat, oid) -> entries s' j oid' = entries s j oid'
  | None, Some _ =>
      is_Some (entries s 1 oid) /\
      entries s' 1 oid = f <$> entries s 1 oid /\
      forall j oid', (j, oid') <> (1%nat, oid) -> entries s' j oid' = entries s j oid'
  | None, None => s' = s
  end.
Proof.
  intros Hwf s'. unfold s'. cbn [update_first_in].
  assert (Hfound : forall i t r, tables s !! i = Some t -> t !! oid = Some r ->
            is_Some (entries s i oid) /\
            entries (update_object r f s) i oid = f <$> entries s i oid /\
            forall j oid', (j, oid') <> (i, oid) ->
              entries (update_object r f s) j oid' = entries s j oid').
  { intros i t r Hi Hr.
    destruct (update_object_found s i t r f oid Hwf Hi Hr) as (_ & Hsome & Hsame & Hother).
    unfold entries. change (tables (update_object r f s)) with (tables s).
    rewrite Hi. split; [exact Hsome|]. split; [exact Hsame|].
    intros j oid' Hne. destruct (tables s !! j) as [t'|] eqn:Hj; [|reflexivity].
    now apply (Hother j). }
  destruct (players s !! oid) as [rp|] eqn:Hp.
  { split; [reflexivity|]. now apply (Hfound 0%nat (players s)). }
  destruct (monsters s !! oid) as [rm|] eqn:Hm.
  { split; [reflexivity|]. now apply (Hfound 1%nat (monsters s)). }
  split; reflexivity.
Qed.

Lemma updated_entry (f : ObjectInfo.t -> ObjectInfo.t) (before after : option ObjectInfo.t) :
  is_Some before -> after = f <$> before ->
  exists o, before = Some o /\ after = Some (f o).
Proof. intros [o ->] ->. now exists o. Qed.

(** [on_object_died] and [on_object_health] look the id up among the
    players first and the monsters second, and update the first object
    found.  After a death that object has [dead = True] and the location
    of the packet; its id, name, direction and [extras] are those it had.
    After a health report its [extras] have ["health_percent"] bound to
    the packet's percentage, the other keys and all other attributes
    being those it had.  Nothing else in the four tables changes; an id
    that is only an NPC or a ground item, or unknown, leaves the state
    exactly as it was. *)
Theorem died_and_health_first_match (s : GameState) :
  wf s ->
  (forall pkt : S_ObjectDied.t,
     let oid := S_ObjectDied.object_id pkt in
     let s' := on_object_died pkt s in
     let changed i :=
       (exists o, entries s i oid = Some o /\
          entries s' i oid
          = Some {| ObjectInfo.object_id := ObjectInfo.object_id o;
                    ObjectInfo.name := ObjectInfo.name o;
                    ObjectInfo.location := S_ObjectDied.location pkt;
                    ObjectInfo.direction := ObjectInfo.direction o;
                    ObjectInfo.dead := true;
                    ObjectInfo.extras := ObjectInfo.extras o |}) /\
       forall j oid', (j, oid') <> (i, oid) -> entries s' j oid' = entries s j oid' in
     match players s !! oid, monsters s !! oid with
     | Some _, _ => changed 0%nat
     | None, Some _ => changed 1%nat
     | None, None => s' = s
     end) /\
  (forall pkt : S_ObjectHealth.t,
     let oid := S_ObjectHealth.object_id pkt in
     let s' := on_object_health pkt s in
     let changed i :=
       (exists o, entries s i oid = Some o /\
          entries s' i oid
          = Some {| ObjectInfo.object_id := ObjectInfo.object_id o;
                    ObjectInfo.name := ObjectInfo.name o;
                    ObjectInfo.location := ObjectInfo.location o;
                    ObjectInfo.direction := ObjectInfo.direction o;
                    ObjectInfo.dead := ObjectInfo.dead o;
                    ObjectInfo.extras :=
                      <["health_percent" := S_ObjectHealth.percent pkt]>
                        (ObjectInfo.extras o) |}) /\
       forall j oid', (j, oid') <> (i, oid) -> entries s' j oid' = entries s j oid' in
     match players s !! oid, monsters s !! oid with
     | Some _, _ => changed 0%nat
     | None, Some _ => changed 1%nat
     | None, None => s' = s
     end).
Proof.
  intros Hwf. split; intros pkt; cbv zeta.
  - pose proof (proj2 (update_first_players_monsters s (S_ObjectDied.object_id pkt)
                         (ObjectInfo.set_died (S_ObjectDied.location pkt)) Hwf)) as H.
    fold (on_object_died pkt s) in H.
    destruct (players s !! S_ObjectDied.object_id pkt);
      [|destruct (monsters s !! S_ObjectDied.object_id pkt); [|exact H]];
      destruct H as (Hsome & Hsame & Hother);
      (split; [exact (updated_entry _ _ _ Hsome Hsame) | exact Hother]).
  - pose proof (proj2 (update_first_players_monsters s (S_ObjectHealth.object_id pkt)
                         (ObjectInfo.set_extra "health_percent" (S_ObjectHealth.percent pkt))
                         Hwf)) as H.
    fold (on_object_health pkt s) in H.
    destruct (players s !! S_ObjectHealth.object_id pkt);
      [|destruct (monsters s !! S_ObjectHealth.object_id pkt); [|exact H]];
      destruct H as (Hsome & Hsame & Hother);
      (split; [exact (updated_entry _ _ _ Hsome Hsame) | exact Hother]).
Qed.

(** On the crowded state, where id 5 is a player and a monster and id 6
    only an NPC: the death of 5 and a health report for 5 change the
    player, not the monster; a health report for 6 changes nothing. *)
Lemma died_and_health_first_match_witness :
  entries (on_object_died {| S_ObjectDied.object_id := 5;
                             S_ObjectDied.location := (9, 9);
                             S_ObjectDied.direction := 0 |} crowded) 0 5
  = Some {| ObjectInfo.object_id := 5; ObjectInfo.name := "Hero";
            ObjectInfo.location := (9, 9); ObjectInfo.direction := 0;
            ObjectInfo.dead := true; ObjectInfo.extras := ∅ |} /\
  entries (on_object_health {| S_ObjectHealth.object_id := 5;
                               S_ObjectHealth.percent := 40 |} crowded) 0 5
  = Some {| ObjectInfo.object_id := 5; ObjectInfo.name := "Hero";
            ObjectInfo.location := (1, 1); ObjectInfo.direction := 0;
            ObjectInfo.dead := false;
            ObjectInfo.extras := <["health_percent" := 40]> ∅ |} /\
  entries (on_object_health {| S_ObjectHealth.object_id := 5;
                               S_ObjectHealth.percent := 40 |} crowded) 1 5
  = entries crowded 1 5 /\
  on_object_health {| S_ObjectHealth.object_id := 6; S_ObjectHealth.percent := 40 |}
    crowded = crowded.
Proof.
  destruct (died_and_health_first_match crowded wf_crowded) as [Hdied Hhealth].
  pose proof (Hdied {| S_ObjectDied.object_id := 5; S_ObjectDied.location := (9, 9);
                       S_ObjectDied.direction := 0 |}) as H1.
  pose proof (Hhealth {| S_ObjectHealth.object_id := 5;
                         S_ObjectHealth.percent := 40 |}) as H2.
  pose proof (Hhealth {| S_ObjectHealth.object_id := 6;
                         S_ObjectHealth.percent := 40 |}) as H3.
  cbv zeta in H1, H2, H3.
  cbn [S_ObjectDied.object_id S_ObjectDied.location S_ObjectHealth.object_id
       S_ObjectHealth.percent] in H1, H2, H3.
  replace (players crowded !! 5) with (Some 0%nat) in H1 by (vm_compute; reflexivity).
  replace (players crowded !! 5) with (Some 0%nat) in H2 by (vm_compute; reflexivity).
  replace (players crowded !! 6) with (@None State.ref) in H3 by (vm_compute; reflexivity).
  replace (monsters crowded !! 6) with (@None State.ref) in H3 by (vm_compute; reflexivity).
  assert (Hhero : entries crowded 0 5
                  = Some {| ObjectInfo.object_id := 5; ObjectInfo.name := "Hero";
                            ObjectInfo.location := (1, 1); ObjectInfo.direction := 0;
                            ObjectInfo.dead := false; ObjectInfo.extras := ∅ |})
    by (vm_compute; reflexivity).
  destruct H1 as ((o1 & Ho1 & Hd) & _). destruct H2 as ((o2 & Ho2 & Hh) & Hother).
  rewrite Hhero in Ho1, Ho2. injection Ho1 as <-. injection Ho2 as <-.
  split; [exact Hd|]. split; [exact Hh|]. split; [|exact H3].
  apply Hother. discriminate.
Defined.

(** ** The bot's own position *)

Lemma MirDirection_of_value d v :
  MirDirection_of v = Return d <-> 0 <= v < 8 /\ MirDirection_value d = v.
Proof.
  split.
  - intros H. destruct (decide (0 <= v <= 7)) as [Hv|Hv].
    + assert (Hcases : v = 0 \/ v = 1 \/ v = 2 \/ v = 3 \/ v = 4 \/ v = 5 \/ v = 6 \/ v = 7)
        by lia.
      destruct Hcases as [->|[->|[->|[->|[->|[->|[->| ->]]]]]]];
        injection H as <-; cbn; lia.
    + rewrite (MirDirection_of_invalid v Hv) in H. discriminate.
  - intros [Hr <-]. now destruct d.
Qed.

(** What a handler that ends with [state.direction = MirDirection(d)]
    leaves: for [d] in 0..7 the location and the direction are the
    packet's and the call returns; for any other [d] the call raises
    [ValueError], with the location already the packet's and the direction
    still the old one. *)
Definition moves_or_half_moves (s : GameState) (location : Z * Z) (d : Z)
    (r : GameState * outcome unit) : Prop :=
  State.location r.1 = location /\
  if decide (0 <= d < 8)
  then r.2 = Return tt /\ MirDirection_value (State.direction r.1) = d
  else r.2 = Raise (ValueError "not a valid MirDirection") /\
       State.direction r.1 = State.direction s.

Lemma direction_step s s0 loc d :
  State.location s0 = loc -> State.direction s0 = State.direction s ->
  moves_or_half_moves s loc d
    (match MirDirection_of d with
     | Raise e => (s0, Raise e)
     | Return dir => (set_direction dir s0, Return tt)
     end).
Proof.
  intros Hloc Hdir. unfold moves_or_half_moves.
  destruct (decide (0 <= d < 8)) as [Hd|Hd].
  - destruct (MirDirection_of d) as [dir|e] eqn:Hof.
    + cbn. split; [exact Hloc|]. split; [reflexivity|].
      now apply MirDirection_of_value in Hof.
    + exfalso. assert (Hc : exists dir, MirDirection_of d = Return dir).
      { assert (Hcases : d = 0 \/ d = 1 \/ d = 2 \/ d = 3 \/ d = 4 \/ d = 5 \/ d = 6 \/ d = 7)
          by lia.
        destruct Hcases as [->|[->|[->|[->|[->|[->|[->| ->]]]]]]]; eexists; reflexivity. }
      destruct Hc as [dir Hc]. congruence.
  - rewrite (MirDirection_of_invalid d) by lia. cbn. split; [exact Hloc|].
    split; [reflexivity|exact Hdir].
Qed.

(** ** Every state the reducers reach *)

Section Reach.

(** The calls [MirClass(value)] and [MirGender(value)]: the member with
    that value (kept as its value), or [ValueError].  The two
    enumerations are defined in [enums.py], which is not among the
    sources; what follows holds whatever their members are. *)
Variable MirClass_of : Z -> outcome Z.
Variable MirGender_of : Z -> outcome Z.

(** [on_user_info]:
<<
    state.object_id = pkt.object_id
    state.name = pkt.name
    state.class_ = MirClass(pkt.class_)
    state.gender = MirGender(pkt.gender)
    state.level = pkt.level
    state.location = pkt.location
    state.direction = MirDirection(pkt.direction)
    state.hp = pkt.hp
    state.mp = pkt.mp
    state.max_hp = pkt.hp  # server sends current as max initially
    state.max_mp = pkt.mp
    state.experience = pkt.experience
    state.max_experience = pkt.max_experience
    state.gold = pkt.gold
    state.inventory = pkt.inventory
    state.equipment = pkt.equipment
    state.magics = pkt.magics
    state.dead = False
>>
    Each of the three conversions can raise, after the assignments
    before it have been made. *)
Definition on_user_info (pkt : S_UserInformation.t) (s : GameState)
  : GameState * outcome unit :=
  let s := set_object_id (S_UserInformation.object_id pkt) s in
  let s := set_name (S_UserInformation.name pkt) s in
  match MirClass_of (S_UserInformation.class_ pkt) with
  | Raise e => (s, Raise e)
  | Return class_ =>
      let s := set_class_ class_ s in
      match MirGender_of (S_UserInformation.gender pkt) with
      | Raise e => (s, Raise e)
      | Return gender =>
          let s := set_gender gender s in
          let s := set_level (S_UserInformation.level pkt) s in
          let s := set_location (S_UserInformation.location pkt) s in
          match MirDirection_of (S_UserInformation.direction pkt) with
          | Raise e => (s, Raise e)
          | Return direction =>
              let s := set_direction direction s in
              let s := set_hp (S_UserInformation.hp pkt) s in
              let s := set_mp (S_UserInformation.mp pkt) s in
              let s := set_max_hp (S_UserInformation.hp pkt) s in
              let s := set_max_mp (S_UserInformation.mp pkt) s in
              let s := set_experience (S_UserInformation.experience pkt) s in
              let s := set_max_experience (S_UserInformation.max_experience pkt) s in
              let s := set_gold (S_UserInformation.gold pkt) s in
              let s := set_inventory (S_UserInformation.inventory pkt) s in
              let s := set_equipment (S_UserInformation.equipment pkt) s in
              let s := set_magics (S_UserInformation.magics pkt) s in
              (set_dead false s, Return tt)
          end
      end
  end.

(** A decoded packet of one of the thirty-four kinds for which
    [register_state_handlers] registers a reducer, in the order of the
    registrations. *)
Inductive message :=
| Connected
| LoginSuccess (pkt : S_LoginSuccess.t)
| StartGame (pkt : S_StartGame.t)
| MapInformation (pkt : S_MapInformation.t)
| UserInformation (pkt : S_UserInformation.t)
| UserLocation (pkt : S_UserLocation.t)
| HealthChanged (pkt : S_HealthChanged.t)
| Death (pkt : S_Death.t)
| Revived
| Pushed (pkt : S_Pushed.t)
| GainExperience (pkt : S_GainExperience.t)
| LevelChanged (pkt : S_LevelChanged.t)
| GainedGold (pkt : S_GainedGold.t)
| LoseGold (pkt : S_LoseGold.t)
| GainedItem (pkt : S_GainedItem.t)
| DeleteItem (pkt : S_DeleteItem.t)
| NewItemInfo (pkt : S_NewItemInfo.t)
| ObjectPlayer (pkt : S_ObjectPlayer.t)
| ObjectMonster (pkt : S_ObjectMonster.t)
| ObjectNpc (pkt : S_ObjectNPC.t)
| ObjectItem (pkt : S_ObjectItem.t)
| ObjectGold (pkt : S_ObjectGold.t)
| ObjectRemove (pkt : S_ObjectRemove.t)
| ObjectTurn (pkt : S_ObjectTurn.t)
| ObjectWalk (pkt : S_ObjectWalk.t)
| ObjectRun (pkt : S_ObjectRun.t)
| ObjectDied (pkt : S_ObjectDied.t)
| ObjectHealth (pkt : S_ObjectHealth.t)
| AddBuff (pkt : S_AddBuff.t)
| RemoveBuff (pkt : S_RemoveBuff.t)
| MapChanged (pkt : S_MapChanged.t)
| NPCResponse (pkt : S_NPCResponse.t)
| NPCGoods (pkt : S_NPCGoods.t)
| LogOutSuccess (pkt : S_LogOutSuccess.t).

(** The reducer registered for the packet's kind: the state after it has
    run and how the call ended.  The receive loop catches what a reducer
    raises, so the state a raising reducer leaves is the state the next
    message finds. *)
Definition reduce (m : message) (s : GameState) : GameState * outcome unit :=
  match m with
  | Connected => (on_connected s, Return tt)
  | LoginSuccess pkt => (on_login_success pkt s, Return tt)
  | StartGame pkt => (on_start_game pkt s, Return tt)
  | MapInformation pkt => (on_map_info pkt s, Return tt)
  | UserInformation pkt => on_user_info pkt s
  | UserLocation pkt => on_user_location pkt s
  | HealthChanged pkt => (on_health_changed pkt s, Return tt)
  | Death pkt => on_death pkt s
  | Revived => (on_revived s, Return tt)
  | Pushed pkt => on_pushed pkt s
  | GainExperience pkt => (on_gain_experience pkt s, Return tt)
  | LevelChanged pkt => (on_level_changed pkt s, Return tt)
  | GainedGold pkt => (on_gained_gold pkt s, Return tt)
  | LoseGold pkt => (on_lose_gold pkt s, Return tt)
  | GainedItem pkt => (on_gained_item pkt s, Return tt)
  | DeleteItem pkt => on_delete_item pkt s
  | NewItemInfo pkt => (on_new_item_info pkt s, Return tt)
  | ObjectPlayer pkt => (on_object_player pkt s, Return tt)
  | ObjectMonster pkt => (on_object_monster pkt s, Return tt)
  | ObjectNpc pkt => (on_object_npc pkt s, Return tt)
  | ObjectItem pkt => (on_object_item pkt s, Return tt)
  | ObjectGold pkt => (on_object_gold pkt s, Return tt)
  | ObjectRemove pkt => (on_object_remove pkt s, Return tt)
  | ObjectTurn pkt => (on_object_turn pkt s, Return tt)
  | ObjectWalk pkt => (on_object_walk pkt s, Return tt)
  | ObjectRun pkt => (on_object_run pkt s, Return tt)
  | ObjectDied pkt => (on_object_died pkt s, Return tt)
  | ObjectHealth pkt => (on_object_health pkt s, Return tt)
  | AddBuff pkt => (on_add_buff pkt s, Return tt)
  | RemoveBuff pkt => (on_remove_buff pkt s, Return tt)
  | MapChanged pkt => on_map_changed pkt s
  | NPCResponse pkt => (on_npc_response pkt s, Return tt)
  | NPCGoods pkt => (on_npc_goods pkt s, Return tt)
  | LogOutSuccess pkt => (on_logout_success pkt s, Return tt)
  end.

(** The state after a sequence of messages, from a fresh [GameState]. *)
Definition run (msgs : list message) : GameState :=
  foldl (fun s m => (reduce m s).1) State.init msgs.

Lemma wf_on_user_info pkt s : wf s -> wf (on_user_info pkt s).1.
Proof.
  intros H. unfold on_user_info.
  destruct (MirClass_of _); [|exact H].
  destruct (MirGender_of _); [|exact H].
  destruct (MirDirection_of _); exact H.
Qed.

Lemma wf_reduce m s : wf s -> wf (reduce m s).1.
Proof.
  intros H. destruct m; cbn [reduce fst];
    try exact H;
    try (now apply wf_on_user_info);
    try (unfold on_start_game; now destruct (_ =? _));
    try (unfold on_user_location; now destruct (MirDirection_of _));
    try (unfold on_death; now destruct (MirDirection_of _));
    try (unfold on_pushed; now destruct (MirDirection_of _));
    try (unfold on_gained_item; now destruct (truthy _));
    try (unfold on_delete_item; now destruct (delete_in _ _ _));
    try (unfold on_new_item_info; now destruct (S_NewItemInfo.info _));
    try (unfold on_add_buff; now destruct (S_AddBuff.buff _)).
  - now apply wf_on_object_player.
  - now apply wf_on_object_monster.
  - now apply wf_on_object_npc.
  - now apply wf_on_object_item.
  - now apply wf_on_object_gold.
  - now apply wf_on_object_remove.
  - now apply wf_update_object_pos.
  - now apply wf_update_object_pos.
  - now apply wf_update_object_pos.
  - now apply wf_on_object_died.
  - now apply wf_on_object_health.
  - now apply wf_on_map_changed.
  - now apply wf_on_logout_success.
Qed.

Lemma update_first_in_gold colls oid f s :
  State.gold (update_first_in colls oid f s) = State.gold s.
Proof.
  induction colls as [|c colls IH]; [reflexivity|]. cbn.
  now destruct (c !! oid).
Qed.

Lemma gold_reduce m s :
  0 <= State.gold s ->
  (forall pkt, m = GainedGold pkt -> 0 <= S_GainedGold.gold pkt) ->
  (forall pkt, m = UserInformation pkt -> 0 <= S_UserInformation.gold pkt) ->
  0 <= State.gold (reduce m s).1.
Proof.
  intros H Hpos Huser. destruct m; cbn [reduce fst];
    try exact H;
    try (unfold on_start_game; now destruct (_ =? _));
    try (unfold on_user_location; now destruct (MirDirection_of _));
    try (unfold on_death; now destruct (MirDirection_of _));
    try (unfold on_pushed; now destruct (MirDirection_of _));
    try (unfold on_gained_item; now destruct (truthy _));
    try (unfold on_delete_item; now destruct (delete_in _ _ _));
    try (unfold on_new_item_info; now destruct (S_NewItemInfo.info _));
    try (unfold on_add_buff; now destruct (S_AddBuff.buff _));
    try (unfold on_object_turn, on_object_walk, on_object_run, _update_object_pos;
         now rewrite update_pos_in_first, update_first_in_gold);
    try (unfold on_object_died, on_object_health; now rewrite update_first_in_gold);
    try (unfold on_map_changed; now destruct (MirDirection_of _)).
  - specialize (Huser pkt eq_refl). unfold on_user_info.
    destruct (MirClass_of _); [|exact H].
    destruct (MirGender_of _); [|exact H].
    destruct (MirDirection_of _); [exact Huser|exact H].
  - cbn. specialize (Hpos pkt eq_refl). lia.
  - cbn. lia.
Qed.

(** Whatever packets arrive for the thirty-four registered reducers, in
    whatever order, and whichever reducers raise on the way, the state
    they build from a fresh [GameState] never shares an [ObjectInfo]:
    every entry of the four nearby-object tables refers to an object of
    its own, which has been constructed.  The gold is never negative
    either, as long as no gained-gold amount and no gold of a user
    information is (both are read with [read_uint32]). *)
Theorem reachable_states_well_formed (msgs : list message) :
  wf (run msgs) /\
  ((forall pkt, GainedGold pkt ∈ msgs -> 0 <= S_GainedGold.gold pkt) ->
   (forall pkt, UserInformation pkt ∈ msgs -> 0 <= S_UserInformation.gold pkt) ->
   0 <= State.gold (run msgs)).
Proof.
  unfold run. induction msgs as [|m msgs IH] using rev_ind.
  - split; [exact wf_init | intros _ _; cbn; lia].
  - rewrite foldl_snoc. destruct IH as [IHwf IHgold]. split.
    + now apply wf_reduce.
    + intros Hpos Huser. apply gold_reduce.
      * apply IHgold; intros pkt Hin; [apply Hpos|apply Huser]; apply elem_of_app; now left.
      * intros pkt ->. apply Hpos, elem_of_app. right. left.
      * intros pkt ->. apply Huser, elem_of_app. right. left.
Qed.

(** [on_user_location], [on_pushed] and [on_death] assign the location
    (and, for a death, [dead = True]) before they convert the direction
    byte.  A byte in 0..7 completes the update.  Any other byte, which
    [read_byte] delivers as readily, raises [ValueError] half way: the
    bot is then at the new location (and dead), facing the old
    direction; nothing else in the state has changed. *)
Theorem own_position_handlers (s : GameState) :
  (forall pkt, moves_or_half_moves s (S_UserLocation.location pkt)
     (S_UserLocation.direction pkt) (on_user_location pkt s) /\
     State.dead (on_user_location pkt s).1 = State.dead s) /\
  (forall pkt, moves_or_half_moves s (S_Pushed.location pkt)
     (S_Pushed.direction pkt) (on_pushed pkt s) /\
     State.dead (on_pushed pkt s).1 = State.dead s) /\
  (forall pkt, moves_or_half_moves s (S_Death.location pkt)
     (S_Death.direction pkt) (on_death pkt s) /\
     State.dead (on_death pkt s).1 = true) /\
  (forall m, (exists pkt, m = UserLocation pkt) \/ (exists pkt, m = Pushed pkt) \/
             (exists pkt, m = Death pkt) ->
     tables (reduce m s).1 = tables s /\ State.gold (reduce m s).1 = State.gold s /\
     State.inventory (reduce m s).1 = State.inventory s).
Proof.
  split; [|split; [|split]].
  - intros pkt. split.
    + apply direction_step; reflexivity.
    + unfold on_user_location. now destruct (MirDirection_of _).
  - intros pkt. split.
    + apply direction_step; reflexivity.
    + unfold on_pushed. now destruct (MirDirection_of _).
  - intros pkt. split.
    + apply direction_step; reflexivity.
    + unfold on_death. now destruct (MirDirection_of _).
  - intros m [[pkt ->]|[[pkt ->]|[pkt ->]]]; cbn [reduce];
      unfold on_user_location, on_pushed, on_death;
      now destruct (MirDirection_of _).
Qed.

End Reach.

(** ** The inventory *)

(** [slot is None]. *)
Definition is_None (v : pyval) : bool :=
  match v with PNone => true | _ => false end.

Lemma place_first_empty item before after :
  Forall (fun v => is_None v = false) before ->
  place item (before ++ PNone :: after) = before ++ item :: after.
Proof.
  induction 1 as [|v before Hv _ IH]; [reflexivity|].
  cbn [app place]. rewrite IH. now destruct v.
Qed.

Lemma place_full item inventory :
  Forall (fun v => is_None v = false) inventory ->
  place item inventory = inventory ++ [item].
Proof.
  induction 1 as [|v inventory Hv _ IH]; [reflexivity|].
  cbn [app place]. rewrite IH. now destruct v.
Qed.

Lemma first_empty (inventory : list pyval) :
  Forall (fun v => is_None v = false) inventory \/
  exists before after, inventory = before ++ PNone :: after /\
                       Forall (fun v => is_None v = false) before.
Proof.
  induction inventory as [|v inventory IH]; [left; constructor|].
  destruct (is_None v) eqn:Hv.
  - right. exists [], inventory. destruct v; try discriminate. split; [reflexivity|constructor].
  - destruct IH as [IH|(before & after & -> & Hb)].
    + left. now constructor.
    + right. exists (v :: before), after. split; [reflexivity|now constructor].
Qed.

(** [on_gained_item] puts the item into the first slot that is [None],
    leaving every other slot and the length of the inventory as they
    are; only when no slot is [None] does it append the item, making the
    inventory one longer.  An empty item ([None], as before
    [read_packet], or an empty dict) changes nothing. *)
Theorem gained_item_fills_first_empty_slot (pkt : S_GainedItem.t) (s : GameState) :
  let item := S_GainedItem.item pkt in
  let inventory' := State.inventory (on_gained_item pkt s) in
  (truthy item = false -> on_gained_item pkt s = s) /\
  (truthy item = true ->
   (forall before after,
      State.inventory s = before ++ PNone :: after ->
      Forall (fun v => is_None v = false) before ->
      inventory' = before ++ item :: after) /\
   (Forall (fun v => is_None v = false) (State.inventory s) ->
    inventory' = State.inventory s ++ [item]) /\
   (length (State.inventory s) <= length inventory' <= S (length (State.inventory s)))%nat /\
   on_gained_item pkt s = set_inventory inventory' s).
Proof.
  intros item inventory'. unfold inventory', on_gained_item. fold item. split.
  - intros ->. reflexivity.
  - intros ->. cbn [State.inventory set_inventory]. split; [|split; [|split]].
    + intros before after -> Hb. now apply place_first_empty.
    + apply place_full.
    + destruct (first_empty (State.inventory s)) as [Hfull|(before & after & Hinv & Hb)].
      * rewrite place_full by exact Hfull. rewrite length_app. cbn. lia.
      * rewrite Hinv, place_first_empty by exact Hb. rewrite !length_app. cbn. lia.
    + reflexivity.
Qed.

(** An inventory slot holding an item with the unique id [u] and the
    count [n]: a dict as [_read_user_item] builds it. *)
Definition holds_item (v : pyval) (u n : Z) : Prop :=
  exists d, v = PDict d /\ d <> [] /\
    dict_get d "unique_id" = Some (PInt u) /\ dict_get d "count" = Some (PInt n).

(** A slot the loop of [on_delete_item] passes over when it looks for
    [u]: an empty slot, or an item with another unique id. *)
Definition passed_over (u : Z) (v : pyval) : Prop :=
  v = PNone \/ exists u' n, holds_item v u' n /\ u' <> u.

Lemma delete_in_passes u count before rest :
  Forall (passed_over u) before ->
  delete_in u count (before ++ rest)
  = match delete_in u count rest with
    | Return rest' => Return (before ++ rest')
    | Raise e => Raise e
    end.
Proof.
  induction 1 as [|v before Hv _ IH].
  - cbn. now destruct (delete_in u count rest).
  - cbn [app delete_in]. rewrite IH.
    destruct Hv as [->|(u' & n & (d & -> & Hd & Hu & _) & Hne)].
    + cbn. now destruct (delete_in u count rest).
    + assert (Ht : truthy (PDict d) = true) by now destruct d.
      rewrite Ht, Hu. cbn [eq_int as_int].
      destruct (Z.eqb_spec u' u) as [|_]; [contradiction|].
      now destruct (delete_in u count rest).
Qed.

Lemma delete_in_found u count d n rest :
  holds_item (PDict d) u n ->
  delete_in u count (PDict d :: rest)
  = Return ((if count >=? n then PNone
             else PDict (dict_set d "count" (PInt (n - count)))) :: rest).
Proof.
  intros (d' & [= <-] & Hd & Hu & Hn). cbn [delete_in].
  assert (Ht : truthy (PDict d) = true) by now destruct d.
  rewrite Ht, Hu, Hn. cbn [eq_int as_int default id]. rewrite Z.eqb_refl.
  cbn [as_int]. now destruct (count >=? n).
Qed.

(** [on_delete_item] acts on the first item whose unique id is the
    packet's, and on that slot only: when the packet's count covers the
    item's, the slot becomes [None] (the inventory keeps its length);
    otherwise the item's count is lowered by the packet's.  Later items
    with the same unique id are not looked at.  When no item has the
    unique id nothing changes.  In both cases the call returns. *)
Theorem delete_item_first_match (pkt : S_DeleteItem.t) (s : GameState)
    (before : list pyval) :
  let u := S_DeleteItem.unique_id pkt in
  let count := S_DeleteItem.count pkt in
  Forall (passed_over u) before ->
  (forall d n after,
     holds_item (PDict d) u n ->
     State.inventory s = before ++ PDict d :: after ->
     on_delete_item pkt s
     = (set_inventory
          (before ++ (if count >=? n then PNone
                      else PDict (dict_set d "count" (PInt (n - count)))) :: after) s,
        Return tt)) /\
  (State.inventory s = before ->
   (on_delete_item pkt s).2 = Return tt /\
   State.inventory (on_delete_item pkt s).1 = State.inventory s).
Proof.
  intros u count Hbefore. split.
  - intros d n after Hitem Hinv. unfold on_delete_item. rewrite Hinv. fold u count.
    rewrite delete_in_passes by exact Hbefore.
    now rewrite (delete_in_found u count d n after Hitem).
  - intros Hinv. unfold on_delete_item. rewrite Hinv. fold u count.
    rewrite <- (app_nil_r before) at 1 2.
    rewrite delete_in_passes by exact Hbefore. cbn. now rewrite app_nil_r.
Qed.

(** A potion as [_read_user_item] would build it, cut down to the keys
    the reducers read. *)
Definition potion (unique_id count : Z) : pyval :=
  PDict [("unique_id", PInt unique_id); ("item_index", PInt 12);
         ("count", PInt count)].

Lemma potion_holds u n : holds_item (potion u n) u n.
Proof. exists [("unique_id", PInt u); ("item_index", PInt 12); ("count", PInt n)].
  repeat split; discriminate || reflexivity. Qed.

Lemma potion_passed_over u u' n : u' <> u -> passed_over u (potion u' n).
Proof. intros H. right. exists u', n. split; [apply potion_holds | exact H]. Qed.

Lemma delete_item_first_match_witness :
  on_delete_item {| S_DeleteItem.unique_id := 8; S_DeleteItem.count := 2 |}
    (set_inventory [PNone; potion 7 1; potion 8 5; potion 8 9] State.init)
  = (set_inventory [PNone; potion 7 1; potion 8 3; potion 8 9]
       (set_inventory [PNone; potion 7 1; potion 8 5; potion 8 9] State.init),
     Return tt).
Proof.
  assert (Hbefore : Forall (passed_over 8) [PNone; potion 7 1]).
  { constructor; [now left|]. constructor; [now apply potion_passed_over|constructor]. }
  apply (proj1 (delete_item_first_match
                  {| S_DeleteItem.unique_id := 8; S_DeleteItem.count := 2 |}
                  (set_inventory [PNone; potion 7 1; potion 8 5; potion 8 9] State.init)
                  [PNone; potion 7 1] Hbefore)
           [("unique_id", PInt 8); ("item_index", PInt 12); ("count", PInt 5)] 5
           [potion 8 9] (potion_holds 8 5)).
  reflexivity.
Defined.

(** Gaining an item and then losing all of it: when the inventory had an
    empty slot, the item went there and the inventory is afterwards what
    it was; when it had none, the item was appended and the slot it leaves
    stays, so the inventory has grown by one empty slot.  (No other item
    in the inventory has the unique id.) *)
Theorem gain_then_delete (gain : S_GainedItem.t) (del : S_DeleteItem.t)
    (s : GameState) (u n : Z) :
  holds_item (S_GainedItem.item gain) u n ->
  Forall (passed_over u) (State.inventory s) ->
  S_DeleteItem.unique_id del = u -> n <= S_DeleteItem.count del ->
  (on_delete_item del (on_gained_item gain s)).2 = Return tt /\
  State.inventory (on_delete_item del (on_gained_item gain s)).1
  = if existsb is_None (State.inventory s) then State.inventory s
    else State.inventory s ++ [PNone].
Proof.
  intros Hitem Hinv Hu Hcount.
  destruct Hitem as (d & Hd & Hne & Hgu & Hgn).
  assert (Hitem : holds_item (PDict d) u n) by (exists d; auto).
  assert (Ht : truthy (S_GainedItem.item gain) = true) by (rewrite Hd; now destruct d).
  unfold on_gained_item. rewrite Ht, Hd. unfold on_delete_item.
  cbn [State.inventory set_inventory]. rewrite Hu.
  assert (Hge : (S_DeleteItem.count del >=? n) = true) by (apply Z.geb_le; lia).
  destruct (first_empty (State.inventory s)) as [Hfull|(before & after & Hs & Hb)].
  - rewrite place_full by exact Hfull.
    rewrite delete_in_passes by exact Hinv.
    rewrite (delete_in_found u _ d n [] Hitem), Hge. cbn [fst snd State.inventory set_inventory].
    split; [reflexivity|].
    replace (existsb is_None (State.inventory s)) with false; [reflexivity|].
    symmetry. apply not_true_is_false. intros Hex.
    apply existsb_exists in Hex as (v & Hin & Hv).
    apply list_elem_of_In in Hin.
    rewrite Forall_forall in Hfull. rewrite (Hfull v Hin) in Hv. discriminate.
  - rewrite Hs. rewrite place_first_empty by exact Hb.
    rewrite Hs in Hinv. apply Forall_app in Hinv as [Hpb _].
    rewrite delete_in_passes by exact Hpb.
    rewrite (delete_in_found u _ d n after Hitem), Hge.
    cbn [fst snd State.inventory set_inventory]. split; [reflexivity|].
    replace (existsb is_None (before ++ PNone :: after)) with true; [reflexivity|].
    symmetry. apply existsb_exists. exists PNone. split; [|reflexivity].
    apply in_or_app. right. left. reflexivity.
Qed.

Lemma gain_then_delete_witness :
  State.inventory
    (on_delete_item {| S_DeleteItem.unique_id := 9; S_DeleteItem.count := 3 |}
       (on_gained_item {| S_GainedItem.item := potion 9 3 |}
          (set_inventory [potion 7 1; PNone] State.init))).1
  = [potion 7 1; PNone] /\
  State.inventory
    (on_delete_item {| S_DeleteItem.unique_id := 9; S_DeleteItem.count := 3 |}
       (on_gained_item {| S_GainedItem.item := potion 9 3 |}
          (set_inventory [potion 7 1] State.init))).1
  = [potion 7 1; PNone].
Proof.
  split.
  - apply (gain_then_delete {| S_GainedItem.item := potion 9 3 |}
             {| S_DeleteItem.unique_id := 9; S_DeleteItem.count := 3 |}
             (set_inventory [potion 7 1; PNone] State.init) 9 3).
    + apply potion_holds.
    + constructor; [now apply potion_passed_over|]. constructor; [now left|constructor].
    + reflexivity.
    + cbn. lia.
  - apply (gain_then_delete {| S_GainedItem.item := potion 9 3 |}
             {| S_DeleteItem.unique_id := 9; S_DeleteItem.count := 3 |}
             (set_inventory [potion 7 1] State.init) 9 3).
    + apply potion_holds.
    + constructor; [now apply potion_passed_over|constructor].
    + reflexivity.
    + cbn. lia.
Defined.

End Reducers.

(* ===================================================================== *)
(** * client.py: movement, queries on the state, and the waiters' futures *)
(* ===================================================================== *)

From Stdlib Require Import Sorted.

Module Bot.
Import Py State Reducers PacketClasses.

(** ** Distances and the nearby monsters *)

(** [_distance]: [max(abs(a[0] - b[0]), abs(a[1] - b[1]))]. *)
Definition _distance (a b : Z * Z) : Z :=
  Z.max (Z.abs (a.1 - b.1)) (Z.abs (a.2 - b.2)).

(** [_DIR_OFFSETS]. *)
Definition _DIR_OFFSETS (d : MirDirection) : Z * Z :=
  match d with
  | Up => (0, -1)
  | UpRight => (1, -1)
  | Right => (1, 0)
  | DownRight => (1, 1)
  | Down => (0, 1)
  | DownLeft => (-1, 1)
  | Left => (-1, 0)
  | UpLeft => (-1, -1)
  end.

(** [list.sort(key=...)] is a stable sort; the result of a stable sort
    is determined by the list and the keys.  Insertion from the right,
    each element going before the first element whose key is not
    smaller. *)
Fixpoint insert_by {A} (key : A -> Z) (x : A) (l : list A) : list A :=
  match l with
  | [] => [x]
  | y :: l' => if key x <=? key y then x :: y :: l' else y :: insert_by key x l'
  end.

Definition sort_by {A} (key : A -> Z) (l : list A) : list A :=
  foldr (insert_by key) [] l.

(** [list(d.values())] for one of the nearby-object dicts: the objects
    behind the entries, in the order of the keys [order] (a dict keeps
    its keys in insertion order, which a [gmap] does not record). *)
Definition values (order : list Z) (table : gmap Z ref) (s : GameState)
  : list ObjectInfo.t :=
  omap (entry table s) order.

(** [nearby_monsters]:
<<
    monsters = list(self._state.monsters.values())
    if alive_only:
        monsters = [m for m in monsters if not m.dead]
    my_loc = self._state.location
    monsters.sort(key=lambda m: _distance(my_loc, m.location))
    return monsters
>> *)
Definition nearby_monsters (order : list Z) (alive_only : bool) (s : GameState)
  : list ObjectInfo.t :=
  let monsters := values order (monsters s) s in
  let monsters :=
    if alive_only then filter (fun m => ObjectInfo.dead m = false) monsters
    else monsters in
  let my_loc := State.location s in
  sort_by (fun m => _distance my_loc (ObjectInfo.location m)) monsters.

(** [nearby_players]: the same without the filter. *)
Definition nearby_players (order : list Z) (s : GameState) : list ObjectInfo.t :=
  let players := values order (players s) s in
  let my_loc := State.location s in
  sort_by (fun p => _distance my_loc (ObjectInfo.location p)) players.

(** [_distance] is a metric on the grid (the Chebyshev distance), one
    step in any of the eight directions is at distance 1, and the eight
    steps lead to eight different tiles. *)
Theorem distance_is_metric (a b c : Z * Z) :
  0 <= _distance a b /\
  (_distance a b = 0 <-> a = b) /\
  _distance a b = _distance b a /\
  _distance a c <= _distance a b + _distance b c /\
  (forall d, _distance a (a.1 + (_DIR_OFFSETS d).1, a.2 + (_DIR_OFFSETS d).2) = 1) /\
  (forall d d', _DIR_OFFSETS d = _DIR_OFFSETS d' -> d = d').
Proof.
  destruct a as [ax ay], b as [bx by_], c as [cx cy]. unfold _distance. cbn [fst snd].
  split; [lia|]. split; [|split; [lia|split; [lia|split]]].
  - split; [intros H; f_equal; lia | intros [= -> ->]; lia].
  - intros d. destruct d; cbn; lia.
  - intros d d'. destruct d, d'; cbn; intros [=]; reflexivity.
Qed.

Lemma insert_by_Permutation {A} (key : A -> Z) x l : insert_by key x l ≡ₚ x :: l.
Proof.
  induction l as [|y l IH]; [reflexivity|]. cbn.
  destruct (key x <=? key y); [reflexivity|]. rewrite IH. apply Permutation_swap.
Qed.

Lemma sort_by_Permutation {A} (key : A -> Z) l : sort_by key l ≡ₚ l.
Proof.
  induction l as [|x l IH]; [reflexivity|]. cbn.
  rewrite insert_by_Permutation. now rewrite IH.
Qed.

Lemma insert_by_sorted {A} (key : A -> Z) x l :
  StronglySorted (fun a b => key a <= key b) l ->
  StronglySorted (fun a b => key a <= key b) (insert_by key x l).
Proof.
  induction 1 as [|y l Hl IH Hy]; cbn.
  - repeat constructor.
  - destruct (Z.leb_spec (key x) (key y)) as [Hle|Hgt].
    + constructor; [now constructor|]. constructor; [exact Hle|].
      eapply Forall_impl; [exact Hy|]. cbn. intros z Hz. lia.
    + constructor; [exact IH|].
      rewrite insert_by_Permutation. constructor; [lia|exact Hy].
Qed.

Lemma sort_by_sorted {A} (key : A -> Z) l :
  StronglySorted (fun a b => key a <= key b) (sort_by key l).
Proof.
  induction l as [|x l IH]; [constructor|]. cbn. now apply insert_by_sorted.
Qed.

(** [nearby_monsters] returns the monsters in the order of their distance
    from the bot, nearest first.  With [alive_only] the result holds
    exactly the monsters of the dict that are not dead, each as often as
    the dict has it; without, all of them.  The first element, if there is
    one, is a nearest such monster. *)
Theorem nearby_monsters_sorted (order : list Z) (alive_only : bool) (s : GameState) :
  let dist := fun m => _distance (State.location s) (ObjectInfo.location m) in
  let result := nearby_monsters order alive_only s in
  StronglySorted (fun a b => dist a <= dist b) result /\
  result ≡ₚ (if alive_only
             then filter (fun m => ObjectInfo.dead m = false)
                    (values order (monsters s) s)
             else values order (monsters s) s) /\
  (forall m, m ∈ result <->
     (exists oid, oid ∈ order /\ entry (monsters s) s oid = Some m) /\
     (alive_only = true -> ObjectInfo.dead m = false)) /\
  (forall first rest m, result = first :: rest -> m ∈ result -> dist first <= dist m).
Proof.
  intros dist result. unfold result, nearby_monsters. fold dist.
  set (l := if alive_only then _ else _).
  pose proof (sort_by_sorted dist l) as Hsorted.
  pose proof (sort_by_Permutation dist l) as Hperm.
  split; [exact Hsorted|]. split; [exact Hperm|]. split.
  - intros m. rewrite Hperm. unfold l, values.
    destruct alive_only.
    + rewrite list_elem_of_filter, list_elem_of_omap. split.
      * intros [Hd Hin]. split; [exact Hin | intros _; exact Hd].
      * intros [Hin Hd]. split; [now apply Hd | exact Hin].
    + rewrite list_elem_of_omap. split.
      * intros Hin. split; [exact Hin | discriminate].
      * now intros [Hin _].
  - intros first rest m Hres Hin. rewrite Hres in Hsorted, Hin.
    apply StronglySorted_inv in Hsorted as [_ Hall].
    apply elem_of_cons in Hin as [->|Hin]; [lia|].
    rewrite Forall_forall in Hall. now apply Hall.
Qed.

(** ** Movement *)

Section Movement.

Variable Packet : Type.
Variable W : Type.

#[local] Abbreviation MirConnection := (Connection.MirConnection Packet W).

(** [gzip.compress]; no movement packet is compressed. *)
Variable gzip_compress : list Z -> list Z.

(** [ClientPacketIds.Turn], [ClientPacketIds.Walk] and
    [ClientPacketIds.Run], members of an enumeration of [enums.py]. *)
Variables Turn_id Walk_id Run_id : Z.

(** The packets the movement methods send. *)
Inductive outgoing :=
| Out_Turn (p : C_Turn.t)
| Out_Walk (p : C_Walk.t)
| Out_Run (p : C_Run.t).

Definition to_bytes (p : outgoing) : outcome (list Z) :=
  match p with
  | Out_Turn p => PacketClasses.to_bytes gzip_compress Turn_id false (C_Turn.write_packet p)
  | Out_Walk p => PacketClasses.to_bytes gzip_compress Walk_id false (C_Walk.write_packet p)
  | Out_Run p => PacketClasses.to_bytes gzip_compress Run_id false (C_Run.write_packet p)
  end.

#[local] Abbreviation send := (Link.send Packet W outgoing to_bytes).

(** [turn], [walk] and [run], up to the final [asyncio.sleep]:
<<
    await self._conn.send(C_Walk(direction=int(direction)))
    dx, dy = _DIR_OFFSETS[direction]
    x, y = self._state.location
    self._state.location = (x + dx, y + dy)
    self._state.direction = direction
>>
    ([turn] leaves the location, [run] adds the offset twice.)  The
    result is how the call ends, the state and the bytes written to the
    stream. *)
Definition turn (drain : outcome unit) (direction : MirDirection)
    (c : MirConnection) (s : GameState) (sent : list Z)
  : outcome unit * GameState * list Z :=
  match send drain (Out_Turn {| C_Turn.direction := MirDirection_value direction |})
          c sent with
  | (Raise e, sent, _) => (Raise e, s, sent)
  | (Return _, sent, _) => (Return tt, set_direction direction s, sent)
  end.

Definition walk (drain : outcome unit) (direction : MirDirection)
    (c : MirConnection) (s : GameState) (sent : list Z)
  : outcome unit * GameState * list Z :=
  match send drain (Out_Walk {| C_Walk.direction := MirDirection_value direction |})
          c sent with
  | (Raise e, sent, _) => (Raise e, s, sent)
  | (Return _, sent, _) =>
      let '(dx, dy) := _DIR_OFFSETS direction in
      let '(x, y) := State.location s in
      let s := set_location (x + dx, y + dy) s in
      (Return tt, set_direction direction s, sent)
  end.

Definition run (drain : outcome unit) (direction : MirDirection)
    (c : MirConnection) (s : GameState) (sent : list Z)
  : outcome unit * GameState * list Z :=
  match send drain (Out_Run {| C_Run.direction := MirDirection_value direction |})
          c sent with
  | (Raise e, sent, _) => (Raise e, s, sent)
  | (Return _, sent, _) =>
      let '(dx, dy) := _DIR_OFFSETS direction in
      let '(x, y) := State.location s in
      let s := set_location (x + dx * 2, y + dy * 2) s in
      (Return tt, set_direction direction s, sent)
  end.

Lemma MirDirection_value_byte d : MirDirection_value d mod 256 = MirDirection_value d.
Proof. now destruct d. Qed.

Lemma send_movement drain (c : MirConnection) sent p packet_id direction :
  Connection._connected _ _ c = true -> Connection._writer _ _ c = true ->
  -32768 <= packet_id < 32768 ->
  to_bytes p = PacketClasses.to_bytes gzip_compress packet_id false
                 (BinaryIO.write_byte (MirDirection_value direction)) ->
  send drain p c sent
  = let sent' := sent ++ [5; 0] ++ signed_bytes 2 packet_id ++ [MirDirection_value direction] in
    match drain with
    | Return _ => (Return tt, sent', Some 5%nat)
    | Raise e => (Raise e, sent', None)
    end.
Proof.
  intros Hc Hw Hid Hp. unfold Link.send. rewrite Hc, Hw, Hp. cbn [negb orb].
  unfold PacketClasses.to_bytes. rewrite write_byte_written. cbv zeta.
  rewrite framing_run, decide_True by (cbn [length]; lia).
  rewrite MirDirection_value_byte. cbn [length Z.of_nat Z.add].
  now destruct drain.
Qed.

(** On a live connection [turn], [walk] and [run] write one five-byte
    frame with the direction's number and then update the state without
    waiting for the server: the bot faces the direction, and its recorded
    location is one tile ([walk]) or two tiles ([run]) further in that
    direction, or unchanged ([turn]).  When [send] raises, because the
    connection is down (nothing is written) or because [drain] fails
    (the frame has been written), the state is not updated. *)
Theorem movement_updates_state (drain : outcome unit) (direction : MirDirection)
    (c : MirConnection) (s : GameState) (sent : list Z) :
  -32768 <= Turn_id < 32768 -> -32768 <= Walk_id < 32768 -> -32768 <= Run_id < 32768 ->
  let frame id := [5; 0] ++ signed_bytes 2 id ++ [MirDirection_value direction] in
  let moved n :=
    set_direction direction
      (set_location ((State.location s).1 + (_DIR_OFFSETS direction).1 * n,
                     (State.location s).2 + (_DIR_OFFSETS direction).2 * n) s) in
  (Connection._connected _ _ c = true -> Connection._writer _ _ c = true ->
   match drain with
   | Return _ =>
       turn drain direction c s sent
         = (Return tt, set_direction direction s, sent ++ frame Turn_id) /\
       walk drain direction c s sent = (Return tt, moved 1, sent ++ frame Walk_id) /\
       run drain direction c s sent = (Return tt, moved 2, sent ++ frame Run_id) /\
       _distance (State.location s) (State.location (moved 1)) = 1 /\
       _distance (State.location s) (State.location (moved 2)) = 2
   | Raise e =>
       turn drain direction c s sent = (Raise e, s, sent ++ frame Turn_id) /\
       walk drain direction c s sent = (Raise e, s, sent ++ frame Walk_id) /\
       run drain direction c s sent = (Raise e, s, sent ++ frame Run_id)
   end) /\
  (Connection._connected _ _ c = false ->
   turn drain direction c s sent = (Raise (ConnectionError "Not connected"), s, sent) /\
   walk drain direction c s sent = (Raise (ConnectionError "Not connected"), s, sent) /\
   run drain direction c s sent = (Raise (ConnectionError "Not connected"), s, sent)).
Proof.
  intros HT HW HR frame moved. split.
  - intros Hc Hw. unfold turn, walk, run.
    rewrite (send_movement drain c sent
               (Out_Turn {| C_Turn.direction := MirDirection_value direction |})
               Turn_id direction Hc Hw HT eq_refl).
    rewrite (send_movement drain c sent
               (Out_Walk {| C_Walk.direction := MirDirection_value direction |})
               Walk_id direction Hc Hw HW eq_refl).
    rewrite (send_movement drain c sent
               (Out_Run {| C_Run.direction := MirDirection_value direction |})
               Run_id direction Hc Hw HR eq_refl).
    cbv zeta. destruct drain as [[]|e]; [|repeat split; reflexivity].
    unfold moved. destruct (State.location s) as [x y] eqn:Hloc.
    destruct (_DIR_OFFSETS direction) as [dx dy] eqn:Hoff. cbn [fst snd].
    rewrite !Z.mul_1_r.
    split; [reflexivity|]. split; [reflexivity|]. split; [reflexivity|].
    unfold _distance. cbn [State.location set_direction set_location fst snd].
    destruct direction; injection Hoff as <- <-; split; lia.
  - intros Hc. unfold turn, walk, run.
    rewrite !(Link.send_not_connected Packet W outgoing to_bytes drain _ c sent Hc).
    repeat split; reflexivity.
Qed.

End Movement.

Lemma movement_updates_state_witness :
  walk Z (list nat) id 9 10 11 (Return tt) Right
    (Connection.connect Z _ (Connection.init Z _)) State.init []
  = (Return tt, set_direction Right (set_location (0 + 1 * 1, 0 + 0 * 1) State.init),
     [] ++ [5; 0] ++ signed_bytes 2 10 ++ [2]) /\
  run Z (list nat) id 9 10 11 (Return tt) Right (Connection.init Z _) State.init []
  = (Raise (ConnectionError "Not connected"), State.init, []).
Proof.
  destruct (movement_updates_state Z (list nat) id 9 10 11 (Return tt) Right
              (Connection.connect Z _ (Connection.init Z _)) State.init []
              ltac:(lia) ltac:(lia) ltac:(lia)) as [Hlive _].
  destruct (movement_updates_state Z (list nat) id 9 10 11 (Return tt) Right
              (Connection.init Z _) State.init []
              ltac:(lia) ltac:(lia) ltac:(lia)) as [_ Hdown].
  split.
  - exact (proj1 (proj2 (Hlive eq_refl eq_refl))).
  - exact (proj2 (proj2 (Hdown eq_refl))).
Defined.

(** ** The futures of a call of [_wait_for] *)

Section Futures.

Variable Packet : Type.
Variable packet_id : Packet -> Z.

#[local] Abbreviation MirClient := (Client.MirClient Packet).
#[local] Abbreviation cancel := (Client.cancel Packet).
#[local] Abbreviation done := (Client.done Packet).
#[local] Abbreviation register := (Client.register Packet).
#[local] Abbreviation _dispatch_waiter := (Client._dispatch_waiter Packet packet_id).
#[local] Abbreviation _wait_for_ending := (Client._wait_for_ending Packet packet_id).

Lemma cancel_futures (c : MirClient) x f :
  Client.futures _ (cancel x c) !! f
  = if decide (f = x /\ done c f = false) then Some Client.FCancelled
    else Client.futures _ c !! f.
Proof.
  unfold Client.cancel. destruct (Client.done Packet c x) eqn:Hd.
  - rewrite decide_False; [reflexivity|]. intros [-> Hp]. congruence.
  - cbn. destruct (decide (f = x)) as [->|Hne].
    + rewrite lookup_insert_eq. now rewrite decide_True.
    + rewrite lookup_insert_ne by auto.
      rewrite decide_False; [reflexivity|]. now intros [? _].
Qed.

(** Cancelling a list of futures cancels those of the list that are
    pending, and changes no other future. *)
Lemma cancel_fold_futures l (c : MirClient) f :
  Client.futures _ (foldl (fun c f => cancel f c) c l) !! f
  = if decide (f ∈ l /\ done c f = false) then Some Client.FCancelled
    else Client.futures _ c !! f.
Proof.
  revert c. induction l as [|x l IH]; intros c.
  - cbn. rewrite decide_False; [reflexivity|].
    intros [H _]. now apply elem_of_nil in H.
  - cbn [foldl]. rewrite IH.
    assert (Hdone : done (cancel x c) f =
              if decide (f = x /\ done c f = false) then true else done c f).
    { unfold Client.done at 1. rewrite cancel_futures.
      destruct (decide (f = x /\ done c f = false)); reflexivity. }
    rewrite Hdone, cancel_futures.
    destruct (decide (f = x /\ done c f = false)) as [[-> Hp]|Hn1].
    + rewrite decide_False by (intros [_ ?]; discriminate).
      rewrite decide_True; [reflexivity|]. split; [left|exact Hp].
    + destruct (decide (f ∈ l /\ done c f = false)) as [[Hin Hp]|Hn2].
      * rewrite decide_True; [reflexivity|]. split; [now right|exact Hp].
      * rewrite decide_False; [reflexivity|].
        intros [[->|Hin]%elem_of_cons Hp]; [apply Hn1|apply Hn2]; auto.
Qed.

(** The futures of a call of [_wait_for], by the way the call leaves its
    [await].

    When [asyncio.wait] returns (a packet arrived or the timeout
    elapsed), the call leaves none of its futures pending: each of the
    futures it created (one for the packet id and one for each alternate)
    either holds a packet that arrived while the call was suspended, of
    one of the kinds waited for, or has been cancelled.

    When instead the task running the call is cancelled at the [await],
    the call raises [CancelledError] and only its [finally] block has
    run: no future at all is cancelled, so the call's futures that no
    packet fulfilled stay pending (all of them, when no packet of its
    kinds arrived).

    Either way the registry gives, for every kind, the waiters it gave
    before the call, and every future that is not the call's own is as
    the dispatching of the arrived packets left it. *)
Theorem wait_for_settles_its_futures (wk : Client.wakeup) pid alt_ids
    (arrivals : list Packet) (c : MirClient) :
  Client.wf Packet c ->
  let ids := pid :: alt_ids in
  let futs := (register ids c).2 in
  let suspended :=
    foldl (fun c pkt => _dispatch_waiter pkt c) (register ids c).1 arrivals in
  let c' := (_wait_for_ending wk pid alt_ids arrivals c).1 in
  let out := (_wait_for_ending wk pid alt_ids arrivals c).2 in
  futs = seq (Client.next_fut _ c) (S (length alt_ids)) /\
  (forall k, Client.waiters_get (Client._waiters _ c') k
             = Client.waiters_get (Client._waiters _ c) k) /\
  (forall f, f ∉ futs ->
     Client.futures _ c' !! f = Client.futures _ suspended !! f) /\
  match wk with
  | Client.Wait_returned _ =>
      forall f, f ∈ futs ->
        Client.futures _ c' !! f = Some Client.FCancelled \/
        exists m, Client.futures _ c' !! f = Some (Client.FResult m) /\
                  m ∈ arrivals /\ packet_id m ∈ ids
  | Client.Task_cancelled =>
      out = Raise CancelledError /\
      Client.futures _ c' = Client.futures _ suspended /\
      (forall f, f ∈ futs ->
         Client.futures _ c' !! f = Some Client.FPending \/
         exists m, Client.futures _ c' !! f = Some (Client.FResult m) /\
                   m ∈ arrivals /\ packet_id m ∈ ids) /\
      ((forall m, m ∈ arrivals -> packet_id m ∉ ids) ->
       forall f, f ∈ futs -> Client.futures _ c' !! f = Some Client.FPending)
  end.
Proof.
  intros Hwf ids futs suspended c' out.
  unfold c', out, Client._wait_for_ending. fold ids.
  unfold futs, suspended.
  destruct (Client.register Packet ids c) as [c1 fs] eqn:Hreg. cbn [fst snd].
  destruct (Client.register_spec _ _ _ _ _ Hreg)
    as (Hfuts & Hnext & Hlists & Hpos & Hpend & Hold).
  pose proof (Client.register_wf _ _ _ _ _ Hreg Hwf) as Hwf1.
  assert (Hfresh : forall f, f ∈ fs -> (Client.next_fut _ c <= f)%nat).
  { intros f Hf. rewrite Hfuts in Hf. apply elem_of_seq in Hf. lia. }
  assert (Hkinds : forall f k, f ∈ fs ->
            f ∈ Client.waiters_get (Client._waiters _ c1) k -> k ∈ ids).
  { intros f k Hf Hin. destruct (decide (k ∈ ids)) as [|Hnin]; [done|exfalso].
    destruct (Hlists k) as (news & Hget & _ & _ & Hnone).
    rewrite Hget, (Hnone Hnin), app_nil_r in Hin.
    apply (proj2 (Client.wf_get _ c k Hwf)) in Hin. apply Hfresh in Hf. lia. }
  set (c2 := foldl (fun c pkt => _dispatch_waiter pkt c) c1 arrivals).
  assert (Hstates : forall f, f ∈ fs ->
            Client.futures _ c2 !! f = Some Client.FPending \/
            exists m, Client.futures _ c2 !! f = Some (Client.FResult m) /\
                      m ∈ arrivals /\ packet_id m ∈ ids).
  { intros f Hf.
    exact (Client.suspended_states Packet packet_id ids fs c1 Hpend Hkinds arrivals f Hf). }
  assert (Hregistry : forall k,
            Client.waiters_get (foldl (Client.cleanup_kind fs) (Client._waiters _ c2) ids) k
            = Client.waiters_get (Client._waiters _ c) k).
  { intros k. unfold c2.
    rewrite (proj1 (Client.dispatch_all_frame Packet packet_id arrivals c1)).
    rewrite Client.cleanup_get by (intros k' l Hl; now apply (Hwf1 k')).
    destruct (Hlists k) as (news & Hget & Hsub & _ & Hnone). rewrite Hget.
    destruct (decide (k ∈ ids)) as [Hin|Hnin].
    - rewrite filter_app, Client.filter_all, (Client.filter_none _ news), app_nil_r; auto.
      intros f Hf Hnf. apply (proj2 (Client.wf_get _ c k Hwf)) in Hf.
      apply Hfresh in Hnf. lia.
    - now rewrite (Hnone Hnin), app_nil_r. }
  split; [exact Hfuts|].
  destruct wk as [pick|].
  - split; [|split].
    + intros k. rewrite (proj1 (Client.resume_waiters Packet pick ids fs c2)).
      apply Hregistry.
    + intros f Hf. unfold Client.resume. cbn [fst Client.cleanup Client.futures].
      rewrite cancel_fold_futures.
      rewrite decide_False; [reflexivity|].
      intros [Hin _]. apply list_elem_of_filter in Hin as [_ Hin]. contradiction.
    + intros f Hf. unfold Client.resume. cbn [fst Client.cleanup Client.futures].
      rewrite cancel_fold_futures.
      destruct (decide _) as [_|Hn]; [now left|].
      destruct (Hstates f Hf) as [Hp|(m & Hm & Hin & Hk)].
      * exfalso. apply Hn. split.
        -- apply list_elem_of_filter. split; [|exact Hf].
           now apply Client.done_false.
        -- now apply Client.done_false.
      * right. exists m. auto.
  - unfold Client.interrupted. cbn [fst snd Client.cleanup Client.futures Client._waiters].
    split; [exact Hregistry|]. split; [reflexivity|].
    split; [reflexivity|]. split; [reflexivity|]. split; [exact Hstates|].
    intros Hnone f Hf. destruct (Hstates f Hf) as [Hp|(m & _ & Hin & Hk)]; [exact Hp|].
    now apply Hnone in Hin.
Qed.

End Futures.

(** A call waiting for kind 7 or kind 8 while one packet of kind 8
    arrives.  When [asyncio.wait] returns, the future for kind 7 ends
    cancelled; when the task is cancelled instead, it stays pending. *)
Lemma wait_for_settles_its_futures_witness :
  Client.wf (Z * nat) (Client.init (Z * nat)) /\
  Client.futures _ (Client._wait_for_ending (Z * nat) fst (Client.Wait_returned 0)
                      7 [8] [(8, 2%nat)] (Client.init (Z * nat))).1 !! 0%nat
    = Some Client.FCancelled /\
  (Client._wait_for_ending (Z * nat) fst Client.Task_cancelled
     7 [8] [(8, 2%nat)] (Client.init (Z * nat))).2 = Raise CancelledError /\
  Client.futures _ (Client._wait_for_ending (Z * nat) fst Client.Task_cancelled
                      7 [8] [(8, 2%nat)] (Client.init (Z * nat))).1 !! 0%nat
    = Some Client.FPending.
Proof.
  pose proof (wait_for_settles_its_futures (Z * nat) fst (Client.Wait_returned 0)
                7 [8] [(8, 2%nat)] (Client.init (Z * nat))
                (Client.registry_wf_init _)) as (_ & _ & _ & Hret).
  pose proof (wait_for_settles_its_futures (Z * nat) fst Client.Task_cancelled
                7 [8] [(8, 2%nat)] (Client.init (Z * nat))
                (Client.registry_wf_init _)) as (_ & _ & _ & Hout & Hsame & _).
  split; [apply Client.registry_wf_init|].
  split; [|split; [exact Hout|]].
  - destruct (Hret 0%nat ltac:(left)) as [Hc|(m & Hm & _)]; [exact Hc|].
    exfalso. revert Hm. vm_compute. discriminate.
  - rewrite Hsame. vm_compute. reflexivity.
Defined.

End Bot.
